(** * Fantia plugin for hoordu: a shallow embedding of [fantia/fantia.py]

    The development follows the source file:
    - [PyStr]: the string and regular-expression operations the plugin
      relies on ([str.isdigit], [str.split], [int], [repr], [re.match]), and
      the patterns and url formats of the module;
    - the data model: the remote documents as the plugin reads them,
      the entities of [hoordu.models] it touches, the session store;
    - computations: state passing with exceptions, and the operations
      of the session ([Session]);
    - [Fantia]: [parse_url], [_download_file], [_content_to_post],
      [_to_remote_posts], [download];
    - [CreatorIterator]: [__init__], [_save_state], [_post_iterator]
      (as a resumable generator) and [fetch];
    - the properties, each proved for every world the plugin may face.

    Characters are code points below 256; every string of the source is
    a [string] of such characters. *)

From Stdlib Require Import ZArith Lia Bool.
From Stdlib Require Import Ascii String.
From stdpp Require Import base option list strings pretty gmap.

Open Scope Z_scope.
Open Scope string_scope.
Open Scope list_scope.

(** ** Strings and regular expressions *)

Module PyStr.

Definition code (c : ascii) : N := N_of_ascii c.

(** [\d] of a [str] pattern: the decimal digits; below 256 these are
    ['0'..'9'] only. *)
Definition is_decimal (c : ascii) : bool :=
  ((48 <=? code c) && (code c <=? 57))%N.

(** [str.isdigit] also accepts the superscript digits U+00B2, U+00B3
    and U+00B9. *)
Definition is_digit_char (c : ascii) : bool :=
  is_decimal c || (code c =? 178)%N || (code c =? 179)%N || (code c =? 185)%N.

(** Characters [int] skips around a literal: the ASCII white space
    (tab to carriage return, and the space) and, above 127, the
    Unicode spaces U+0085 and U+00A0.  The separators U+001C..U+001F,
    which [str.strip] would remove, are not skipped. *)
Definition is_space (c : ascii) : bool :=
  (((9 <=? code c) && (code c <=? 13)) || (code c =? 32)
   || (code c =? 133) || (code c =? 160))%N.

Definition newline : ascii := ascii_of_N 10.

Fixpoint all_chars (p : ascii -> bool) (s : string) : bool :=
  match s with
  | EmptyString => true
  | String c r => p c && all_chars p r
  end.

(** [s.isdigit()]: at least one character, all of them digits. *)
Definition isdigit (s : string) : bool :=
  match s with
  | EmptyString => false
  | _ => all_chars is_digit_char s
  end.

(** [s.split(sep)] for a one-character separator. *)
Fixpoint split (sep : ascii) (s : string) : list string :=
  match s with
  | EmptyString => [EmptyString]
  | String c r =>
      if Ascii.eqb c sep then EmptyString :: split sep r
      else match split sep r with
           | [] => [String c EmptyString]
           | w :: ws => String c w :: ws
           end
  end.

Fixpoint drop_while (p : ascii -> bool) (s : string) : string :=
  match s with
  | EmptyString => EmptyString
  | String c r => if p c then drop_while p r else s
  end.

Fixpoint rev_string (s : string) (acc : string) : string :=
  match s with
  | EmptyString => acc
  | String c r => rev_string r (String c acc)
  end.

(** The text of a literal without the white space [int] skips on
    both sides. *)
Definition strip (s : string) : string :=
  let s1 := drop_while is_space s in
  rev_string (drop_while is_space (rev_string s1 EmptyString)) EmptyString.

(** Digits of an [int] literal: groups of decimal digits separated by
    single underscores.  [acc] is the value so far, [prev] tells whether
    the previous character was a digit. *)
Fixpoint int_digits (s : string) (acc : Z) (prev : bool) : option Z :=
  match s with
  | EmptyString => if prev then Some acc else None
  | String c r =>
      if is_decimal c then int_digits r (10 * acc + (Z.of_N (code c) - 48)) true
      else if Ascii.eqb c "_" then (if prev then int_digits r acc false else None)
      else None
  end.

(** [int(s)] on a string; [None] stands for the [ValueError]. *)
Definition int_of_str (s : string) : option Z :=
  match strip s with
  | String "-" r => Z.opp <$> int_digits r 0 false
  | String "+" r => int_digits r 0 false
  | r => int_digits r 0 false
  end.

(** *** [repr] of a string

    The quote is ['] unless the string has a ['] and no double quote;
    the quote and the backslash are escaped, tab, newline and carriage
    return are written with their letter, every other character that
    is not printable as [\xhh]. *)

Definition double_quote : ascii := ascii_of_N 34.
Definition backslash : ascii := ascii_of_N 92.

(** [str.isprintable] of a character below 256. *)
Definition is_printable (c : ascii) : bool :=
  (((32 <=? code c) && (code c <=? 126))
   || ((161 <=? code c) && negb (code c =? 173)))%N.

Definition hex_digit (n : N) : ascii :=
  (if n <? 10 then ascii_of_N (48 + n) else ascii_of_N (87 + n))%N.

Fixpoint has_char (c : ascii) (s : string) : bool :=
  match s with
  | EmptyString => false
  | String d r => Ascii.eqb c d || has_char c r
  end.

Definition repr_char (quote c : ascii) : string :=
  if Ascii.eqb c quote || Ascii.eqb c backslash then String backslash (String c EmptyString)
  else if (code c =? 9)%N then String backslash "t"
  else if (code c =? 10)%N then String backslash "n"
  else if (code c =? 13)%N then String backslash "r"
  else if is_printable c then String c EmptyString
  else String backslash
         (String "x" (String (hex_digit (code c / 16))
                             (String (hex_digit (code c mod 16)) EmptyString))).

Fixpoint repr_chars (quote : ascii) (s : string) : string :=
  match s with
  | EmptyString => String quote EmptyString
  | String c r => repr_char quote c +:+ repr_chars quote r
  end.

Definition repr (s : string) : string :=
  let quote := if has_char "'" s && negb (has_char double_quote s)
               then double_quote else "'"%char in
  String quote (repr_chars quote s).

(** The first [n] characters of a string (the precision of a format
    directive). *)
Fixpoint truncate (n : nat) (s : string) : string :=
  match n, s with
  | S n', String c r => String c (truncate n' r)
  | _, _ => EmptyString
  end.

(** The message of the [ValueError] of [int]. *)
Definition invalid_literal (s : string) : string :=
  "invalid literal for int() with base 10: " +:+ truncate 200 (repr s).

(** *** A backtracking matcher for the pattern language of the source

    Only the constructs the three compiled patterns use: literals,
    repetition of a character class (greedy), optional groups, named
    groups and the end anchor. *)

Inductive re : Type :=
  | Lit (s : string)                       (* literal text *)
  | Many0 (p : ascii -> bool)              (* [c*] for a class [c] *)
  | Many1 (p : ascii -> bool)              (* [c+] for a class [c] *)
  | Opt (r : re)                           (* [(?:r)?] *)
  | Seq (r1 r2 : re)
  | Named (name : string) (r : re)         (* [(?P<name>r)] *)
  | Dollar.                                (* [$] *)

Definition captures := list (string * string).

Fixpoint strip_prefix (p s : string) : option string :=
  match p, s with
  | EmptyString, _ => Some s
  | String a p', String b s' => if Ascii.eqb a b then strip_prefix p' s' else None
  | String _ _, EmptyString => None
  end.

(** All ways of cutting a run of [p]-characters off the front of [s],
    longest first: the pairs (consumed, rest). *)
Fixpoint cuts (p : ascii -> bool) (s : string) : list (string * string) :=
  match s with
  | String c r =>
      if p c
      then map (fun '(u, v) => (String c u, v)) (cuts p r) ++ [(EmptyString, s)]
      else [(EmptyString, s)]
  | EmptyString => [(EmptyString, EmptyString)]
  end.

(** [run r s]: every way [r] matches a prefix of [s], in the order a
    backtracking engine tries them, as (text matched, groups, rest). *)
Fixpoint run (r : re) (s : string) : list (string * captures * string) :=
  match r with
  | Lit l =>
      match strip_prefix l s with
      | Some rest => [(l, [], rest)]
      | None => []
      end
  | Many0 p => map (fun '(u, v) => (u, [], v)) (cuts p s)
  | Many1 p =>
      map (fun '(u, v) => (u, [], v))
          (filter (fun uv => uv.1 <> EmptyString) (cuts p s))
  | Opt r' => run r' s ++ [(EmptyString, [], s)]
  | Seq r1 r2 =>
      flat_map (fun '(u1, g1, rest1) =>
                  map (fun '(u2, g2, rest2) => (u1 +:+ u2, g1 ++ g2, rest2))
                      (run r2 rest1))
               (run r1 s)
  | Named n r' => map (fun '(u, g, rest) => (u, (n, u) :: g, rest)) (run r' s)
  | Dollar =>
      match s with
      | EmptyString => [(EmptyString, [], s)]
      | String c EmptyString =>
          if Ascii.eqb c newline then [(EmptyString, [], s)] else []
      | _ => []
      end
  end.

(** [pattern.match(s)]: the first successful alternative. *)
Definition re_match (r : re) (s : string) : option captures :=
  match run r s with
  | (_, g, _) :: _ => Some g
  | [] => None
  end.

Fixpoint group (name : string) (g : captures) : option string :=
  match g with
  | [] => None
  | (n, v) :: g' => if String.eqb n name then Some v else group name g'
  end.

(** [.] : any character but a newline. *)
Definition dot (c : ascii) : bool := negb (Ascii.eqb c newline).

Fixpoint seq (rs : list re) : re :=
  match rs with
  | [] => Lit EmptyString
  | [r] => r
  | r :: rs' => Seq r (seq rs')
  end.

End PyStr.

Import PyStr.

(** The module-level constants of the plugin. *)

(** The post pattern: [^https?://fantia\.jp/posts/], the group
    [post_id] of one or more [\d], an optional query ([?] and any run of
    [.]), an optional fragment ([#] and any run of [.]), then [$]. *)
Definition POST_REGEXP : re :=
  seq [Lit "http"; Opt (Lit "s"); Lit "://fantia.jp/posts/";
       Named "post_id" (Many1 is_decimal);
       Opt (Seq (Lit "?") (Many0 dot));
       Opt (Seq (Lit "#") (Many0 dot));
       Dollar].

(** The fanclub pattern: [^https?://fantia\.jp/fanclubs/], the group
    [fanclub_id] of one or more [\d], an optional path ([/] and any run
    of [.]), an optional query, an optional fragment, then [$]. *)
Definition FANCLUB_REGEXP : re :=
  seq [Lit "http"; Opt (Lit "s"); Lit "://fantia.jp/fanclubs/";
       Named "fanclub_id" (Many1 is_decimal);
       Opt (Seq (Lit "/") (Many0 dot));
       Opt (Seq (Lit "?") (Many0 dot));
       Opt (Seq (Lit "#") (Many0 dot));
       Dollar].

(** ['https://fantia.jp/posts/{post_id}'.format(post_id=...)] and its
    siblings, applied to the already formatted argument. *)
Definition POST_FORMAT (post_id : string) : string :=
  "https://fantia.jp/posts/" +:+ post_id.
Definition POST_GET_URL (post_id : string) : string :=
  "https://fantia.jp/api/v1/posts/" +:+ post_id.
Definition FANCLUB_GET_URL (fanclub_id : string) : string :=
  "https://fantia.jp/api/v1/fanclubs/" +:+ fanclub_id.
Definition FILE_DOWNLOAD_URL (download_uri : string) : string :=
  "https://fantia.jp" +:+ download_uri.

(** ** The data model *)

(** A dynamically typed attribute value, for the attributes the plugin
    reads without knowing their type ([RemotePost.id]). *)
Inductive pyval : Type :=
  | PyNone
  | PyInt (n : Z)
  | PyStr (s : string).

#[global] Instance pyval_eq_dec : EqDecision pyval.
Proof. solve_decision. Defined.

Inductive exn : Type :=
  | ValueError (msg : string)
  | NameError (name : string)
  | AttributeError (msg : string)
  | MultipleResultsFound           (* [Query.one_or_none] on several rows *)
  | DetachedInstanceError          (* attribute access on an object the session does not hold *)
  | HTTPError (url : string)       (* [Response.raise_for_status] *)
  | ParserError (text : string)    (* [dateutil.parser.parse] *)
  | JSONDecodeError (text : string).

(** *** The remote documents

    The JSON documents of the API, decoded field by field as the plugin
    reads them through [hoordu.Dynamic]. *)

Module Thumb.
Record t := { original : string; medium : string }.
End Thumb.

Module Photo.
(** [photo.id], [photo.url.original], [photo.url.medium]; the id is a
    number, on which [int] is the identity. *)
Record t := { id : Z; url_original : string; url_medium : string }.
End Photo.

Module FantiaImage.
(** [fantiaImage.id], [fantiaImage.original_url], [fantiaImage.url];
    the id is a number, on which [int] is the identity. *)
Record t := { id : Z; original_url : string; url : string }.
End FantiaImage.

(** [section.insert] of one operation of a blog comment: a string, an
    object (with or without a [fantiaImage] member), or any other JSON
    value. *)
Inductive insert : Type :=
  | InsertStr (s : string)
  | InsertDynamic (fantiaImage : option FantiaImage.t)
  | InsertOther.

(** One element of [ops]: an object, read through [section.insert], or
    an element on which [section.insert] raises (a number, a string, a
    list or [null], which have no such attribute). *)
Inductive segment : Type :=
  | Segment (insert : insert)
  | NoInsert (e : exn).

Module Content.
Record t := {
  id : Z;
  category : string;
  visible_status : string;
  title : string;
  comment : string;
  plan : option Z;                       (* [plan.price] when there is a plan *)
  filename : string;
  download_uri : string;
  post_content_photos : list Photo.t
}.
End Content.

Module Post.
Record t := {
  id : Z;
  fanclub_id : Z;                        (* [post.fanclub.id] *)
  fanclub_user_name : string;            (* [post.fanclub.user.name] *)
  posted_at : string;
  title : string;
  comment : string;
  liked : bool;                          (* [post.liked is True] *)
  tags : list string;                    (* [tag.name] of each tag *)
  rating : string;
  thumb : option Thumb.t;
  post_contents : list Content.t;
  links_next : option Z;                 (* [post.links.next.id] *)
  links_previous : option Z              (* [post.links.previous.id] *)
}.
End Post.

Module Fanclub.
(** [fanclub.recent_posts], each by its [id] *)
Record t := { recent_posts : list Z }.
End Fanclub.

(** *** The entities of [hoordu.models] *)

Module PostType.
Inductive t : Type := collection | set | blog.
End PostType.
Module TagCategory.
Inductive t : Type := artist | general | meta.
End TagCategory.
Module FetchDirection.
Inductive t : Type := newer | older.
End FetchDirection.

#[global] Instance TagCategory_eq_dec : EqDecision TagCategory.t.
Proof. solve_decision. Defined.
#[global] Instance FetchDirection_eq_dec : EqDecision FetchDirection.t.
Proof. solve_decision. Defined.

(** One entry of the re-serialised comment of a blog post. *)
Inductive blog_entry : Type :=
  | BlogText (content : string)            (* [{'type': 'text', 'content': ...}] *)
  | BlogFile (order : Z).                  (* [{'type': 'file', 'order': ...}] *)

(** The [comment] column: the text carried over from the remote
    document, or the serialised segment list of a blog. *)
Inductive comment_value : Type :=
  | Plain (text : string)
  | BlogJson (entries : list blog_entry).

Module RemotePost.
Record t := {
  id : pyval;                            (* primary key *)
  source_id : Z;
  original_id : string;
  url : string;
  title : string;
  comment : comment_value;
  type : PostType.t;
  post_time : Z;
  metadata_ : option (list (string * Z));
  favorite : bool;
  tags : list nat                        (* the tags attached, by handle *)
}.
Definition set_type (v : PostType.t) (p : t) : t :=
  {| id := id p; source_id := source_id p; original_id := original_id p;
     url := url p; title := title p; comment := comment p; type := v;
     post_time := post_time p; metadata_ := metadata_ p;
     favorite := favorite p; tags := tags p |}.
Definition set_comment (v : comment_value) (p : t) : t :=
  {| id := id p; source_id := source_id p; original_id := original_id p;
     url := url p; title := title p; comment := v; type := type p;
     post_time := post_time p; metadata_ := metadata_ p;
     favorite := favorite p; tags := tags p |}.
End RemotePost.

Module File.
Record t := {
  remote : nat;                          (* the owning post, by handle *)
  remote_order : Z;
  filename : option string;
  present : bool;
  thumb_present : bool
}.
End File.

Module Related.
Record t := { related_to_id : pyval; remote_id : pyval }.
End Related.

Module RemoteTag.
(** [metadata_] of a tag holds the display name only. *)
Record t := { category : TagCategory.t; name : string; metadata_name : option string }.
Definition set_metadata_name (v : option string) (g : t) : t :=
  {| category := category g; name := name g; metadata_name := v |}.
End RemoteTag.

(** A temporary file made by [_download_file], identified by what was
    downloaded into it and the name it was given. *)
Inductive temp_file : Type := TempFile (url : string) (filename : option string).

Inductive log_level : Type := LDebug | LInfo | LWarning.

(** What a run does to the outside, in program order. *)
Inductive event : Type :=
  | Log (level : log_level) (format : string)
  | HttpGet (url : string)                 (* [self.http.get(url)] of an API document *)
  | Download (url : string)                (* [self.http.get(url, stream=True)] *)
  | ImportFile (file : nat) (orig thumb : option temp_file)
  | Commit                                 (* [core.commit()] *)
  | AddSubscription.                       (* [core.add(self.subscription)] *)

(** The session of [hoordu.core]: the objects it holds, addressed by
    their position (their handle), and the trace of the run. *)
Record Store := {
  core_source_id : Z;                      (* [self.source.id] *)
  remote_posts : list RemotePost.t;
  files : list File.t;
  related : list Related.t;
  remote_tags : list RemoteTag.t;
  trace : list event
}.

(** What the plugin asks of the outside world.  An absent answer is the
    exception the corresponding call raises. *)
Record World := {
  api_post : string -> option Post.t;       (* GET of a post document, by URL *)
  api_fanclub : string -> option Fanclub.t; (* GET of a fanclub document, by URL *)
  stream_ok : string -> bool;               (* whether a streamed GET succeeds *)
  parse_time : string -> option Z;          (* [dateutil.parser.parse(...).astimezone(utc)] *)
  json_ops : string -> option (list segment) (* [Dynamic.from_json(text).ops] *)
}.

(** ** Computations: state passing with exceptions *)

Inductive result (A : Type) : Type :=
  | Ok (a : A)
  | Raise (e : exn).
Arguments Ok {A} a.
Arguments Raise {A} e.

(** A method body: it runs on a state and ends with a value or an
    exception; what it did to the state before raising stays done. *)
Definition M (S A : Type) : Type := S -> result A * S.

Definition ret {S A} (a : A) : M S A := fun s => (Ok a, s).
Definition raise {S A} (e : exn) : M S A := fun s => (Raise e, s).
Definition bind {S A B} (c : M S A) (k : A -> M S B) : M S B :=
  fun s => match c s with
           | (Ok a, s') => k a s'
           | (Raise e, s') => (Raise e, s')
           end.
Definition gets {S A} (f : S -> A) : M S A := fun s => (Ok (f s), s).
Definition modify {S} (f : S -> S) : M S unit := fun s => (Ok tt, f s).

Notation "x <- c ;; k" := (bind c (fun x => k))
  (at level 100, c at next level, right associativity).
Notation "c ;; k" := (bind c (fun _ => k))
  (at level 100, right associativity).

(** [for x in xs: acc = f(acc, x)] *)
Fixpoint foldM {S A B} (f : B -> A -> M S B) (xs : list A) (acc : B) : M S B :=
  match xs with
  | [] => ret acc
  | x :: r => acc' <- f acc x ;; foldM f r acc'
  end.

(** [for x in xs: body(x)] *)
Definition for_each {S A} (xs : list A) (body : A -> M S unit) : M S unit :=
  foldM (fun _ x => body x) xs tt.

(** [Query.one_or_none] on the rows a query selects. *)
Definition one_or_none {S A} (rows : list A) : M S (option A) :=
  match rows with
  | [] => ret None
  | [x] => ret (Some x)
  | _ => raise MultipleResultsFound
  end.

(** The objects of a table satisfying a filter, with their handles,
    in table order; [i] is the handle of the first row of [l]. *)
Fixpoint select_from {A} (P : A -> bool) (i : nat) (l : list A) : list (nat * A) :=
  match l with
  | [] => []
  | x :: r => if P x then (i, x) :: select_from P (S i) r else select_from P (S i) r
  end.
Definition select {A} (P : A -> bool) (l : list A) : list (nat * A) :=
  select_from P 0 l.

(** *** The session *)

Module Session.

Definition with_remote_posts (v : list RemotePost.t) (st : Store) : Store :=
  {| core_source_id := core_source_id st; remote_posts := v; files := files st;
     related := related st; remote_tags := remote_tags st; trace := trace st |}.
Definition with_files (v : list File.t) (st : Store) : Store :=
  {| core_source_id := core_source_id st; remote_posts := remote_posts st; files := v;
     related := related st; remote_tags := remote_tags st; trace := trace st |}.
Definition with_related (v : list Related.t) (st : Store) : Store :=
  {| core_source_id := core_source_id st; remote_posts := remote_posts st; files := files st;
     related := v; remote_tags := remote_tags st; trace := trace st |}.
Definition with_remote_tags (v : list RemoteTag.t) (st : Store) : Store :=
  {| core_source_id := core_source_id st; remote_posts := remote_posts st; files := files st;
     related := related st; remote_tags := v; trace := trace st |}.
Definition with_trace (v : list event) (st : Store) : Store :=
  {| core_source_id := core_source_id st; remote_posts := remote_posts st; files := files st;
     related := related st; remote_tags := remote_tags st; trace := v |}.

Definition emit (e : event) : M Store unit :=
  modify (fun st => with_trace (trace st ++ [e]) st).

(** [self.log.debug/info/warning(format, ...)] *)
Definition log (level : log_level) (format : string) : M Store unit :=
  emit (Log level format).

(** Attribute access on a post or a file object. *)
Definition get_post (h : nat) : M Store RemotePost.t :=
  fun st => match remote_posts st !! h with
            | Some p => (Ok p, st)
            | None => (Raise DetachedInstanceError, st)
            end.
Definition get_file (h : nat) : M Store File.t :=
  fun st => match files st !! h with
            | Some f => (Ok f, st)
            | None => (Raise DetachedInstanceError, st)
            end.

(** The primary key the database gives to the next new post. *)
Definition fresh_id (st : Store) : pyval :=
  PyInt (Z.of_nat (length (remote_posts st)) + 1).

Definition set_id (v : pyval) (p : RemotePost.t) : RemotePost.t :=
  {| RemotePost.id := v; RemotePost.source_id := RemotePost.source_id p;
     RemotePost.original_id := RemotePost.original_id p;
     RemotePost.url := RemotePost.url p; RemotePost.title := RemotePost.title p;
     RemotePost.comment := RemotePost.comment p; RemotePost.type := RemotePost.type p;
     RemotePost.post_time := RemotePost.post_time p;
     RemotePost.metadata_ := RemotePost.metadata_ p;
     RemotePost.favorite := RemotePost.favorite p; RemotePost.tags := RemotePost.tags p |}.

(** [core.add(obj)] of a newly built post: the session holds it from
    now on and it has its primary key (every read of [id] in the plugin
    comes after a flush).  The result is the handle of the object. *)
Definition add_new_post (p : RemotePost.t) : M Store nat :=
  fun st => (Ok (length (remote_posts st)),
             with_remote_posts (remote_posts st ++ [set_id (fresh_id st) p]) st).

(** [core.add(file)] of a newly built file. *)
Definition add_new_file (f : File.t) : M Store nat :=
  fun st => (Ok (length (files st)), with_files (files st ++ [f]) st).

(** Assignment to attributes of a post the session holds (the
    following [core.add] of it changes nothing more). *)
Definition update_post (h : nat) (f : RemotePost.t -> RemotePost.t) : M Store unit :=
  modify (fun st => with_remote_posts (alter f h (remote_posts st)) st).

(** [core.flush()]: nothing left to do, see [add_new_post]. *)
Definition flush : M Store unit := ret tt.

(** [core.commit()] *)
Definition commit : M Store unit := emit Commit.

(** [session.query(RemotePost).filter(RemotePost.source_id == self.source.id,
    RemotePost.original_id == original_id)] *)
Definition posts_by_original_id (original_id : string) (st : Store) : list (nat * RemotePost.t) :=
  select (fun p => Z.eqb (RemotePost.source_id p) (core_source_id st)
                   && String.eqb (RemotePost.original_id p) original_id)
         (remote_posts st).

Definition query_remote_post (original_id : string) : M Store (option nat) :=
  fun st => one_or_none (map fst (posts_by_original_id original_id st)) st.

(** [session.query(Related).filter(Related.related_to_id == a,
    Related.remote_id == b).one_or_none()] *)
Definition query_related (a b : pyval) : M Store (option nat) :=
  fun st => one_or_none
              (map fst (select (fun r => bool_decide (Related.related_to_id r = a)
                                         && bool_decide (Related.remote_id r = b))
                               (related st))) st.

(** [remote_post.related.append(Related(remote=content_post))] *)
Definition append_related (remote_post content_post : nat) : M Store unit :=
  p <- get_post remote_post ;;
  c <- get_post content_post ;;
  modify (fun st => with_related
                      (related st ++ [{| Related.related_to_id := RemotePost.id p;
                                         Related.remote_id := RemotePost.id c |}]) st).

(** [remote_post.files]: the files owned by a post, oldest first. *)
Definition post_files (remote_post : nat) (st : Store) : list (nat * File.t) :=
  select (fun f => Nat.eqb (File.remote f) remote_post) (files st).

(** Modelled from the spec: [core.get_remote_tag] of hoordu, the
    tag get-or-create keyed by (category, name). *)
Definition get_remote_tag (category : TagCategory.t) (name : string) : M Store nat :=
  fun st =>
    match select (fun g => bool_decide (RemoteTag.category g = category)
                           && String.eqb (RemoteTag.name g) name) (remote_tags st) with
    | (h, _) :: _ => (Ok h, st)
    | [] => (Ok (length (remote_tags st)),
             with_remote_tags
               (remote_tags st ++ [{| RemoteTag.category := category;
                                      RemoteTag.name := name;
                                      RemoteTag.metadata_name := None |}]) st)
    end.

Definition get_tag (h : nat) : M Store RemoteTag.t :=
  fun st => match remote_tags st !! h with
            | Some g => (Ok g, st)
            | None => (Raise DetachedInstanceError, st)
            end.

Definition update_tag (h : nat) (f : RemoteTag.t -> RemoteTag.t) : M Store unit :=
  modify (fun st => with_remote_tags (alter f h (remote_tags st)) st).

Definition set_presence (orig thumb : bool) (f : File.t) : File.t :=
  {| File.remote := File.remote f; File.remote_order := File.remote_order f;
     File.filename := File.filename f;
     File.present := File.present f || orig;
     File.thumb_present := File.thumb_present f || thumb |}.

(** Modelled from the spec: [core.import_file(file, orig, thumb, move=True)]
    of hoordu, the import operation that takes the temporary files it is
    given and records their presence on the file. *)
Definition import_file (file : nat) (orig thumb : option temp_file) : M Store unit :=
  emit (ImportFile file orig thumb) ;;
  modify (fun st => with_files
                      (alter (set_presence (bool_decide (is_Some orig))
                                           (bool_decide (is_Some thumb)))
                             file (files st)) st).

End Session.

Import Session.

(** ** The plugin *)

Module Fantia.

(** *** Asset resolution

    The two decisions every branch takes for a file before it downloads
    anything: [need_orig = not file.present and not preview] and
    [need_thumb = not file.thumb_present]. *)
Definition need_orig (file : File.t) (preview : bool) : bool :=
  negb (File.present file) && negb preview.
Definition need_thumb (file : File.t) : bool :=
  negb (File.thumb_present file).

(** *** [parse_url] *)

(** What [parse_url] can give back: a remote id, the options of a
    search, or [None]. *)
Inductive parsed : Type :=
  | RemoteId (post_id : string)
  | SearchOptions (creator_id : string)    (* [Dynamic({'creator_id': ...})] *)
  | NoneValue.

(** The last statement returns the name [post_id], which no assignment
    of the function (or of the module) binds. *)
Definition parse_url {S} (url : string) : M S parsed :=
  if isdigit url then ret (RemoteId url)
  else match re_match POST_REGEXP url with
       | Some m => ret (RemoteId (default "" (group "post_id" m)))
       | None =>
           match re_match FANCLUB_REGEXP url with
           | Some m => ret (SearchOptions (default "" (group "fanclub_id" m)))
           | None => raise (NameError "post_id")
           end
       end.

Section WithWorld.

Context (W : World).

(** *** [_download_file] *)
Definition _download_file (url : string) (filename : option string) : M Store temp_file :=
  log LDebug "downloading %s" ;;
  emit (Download url) ;;
  if stream_ok W url then ret (TempFile url filename)
  else raise (HTTPError url).

(** [x = f() if cond else None] *)
Definition when_needed {A} (cond : bool) (c : M Store A) : M Store (option A) :=
  if cond then (a <- c ;; ret (Some a)) else ret None.

(** The tags of a new post (the same statements in [_content_to_post]
    and in [_to_remote_posts]): the artist tag of the creator, whose
    stored name follows the creator's current one, a general tag for
    each tag of the post, and the nsfw tag of an adult post. *)
Definition attach_tags (post : Post.t) (remote_post : RemotePost.t) : M Store RemotePost.t :=
  let creator_id := pretty (Post.fanclub_id post) in
  let creator_name := Post.fanclub_user_name post in
  let append (tag : nat) (p : RemotePost.t) : RemotePost.t :=
    {| RemotePost.id := RemotePost.id p; RemotePost.source_id := RemotePost.source_id p;
       RemotePost.original_id := RemotePost.original_id p;
       RemotePost.url := RemotePost.url p; RemotePost.title := RemotePost.title p;
       RemotePost.comment := RemotePost.comment p; RemotePost.type := RemotePost.type p;
       RemotePost.post_time := RemotePost.post_time p;
       RemotePost.metadata_ := RemotePost.metadata_ p;
       RemotePost.favorite := RemotePost.favorite p;
       RemotePost.tags := RemotePost.tags p ++ [tag] |} in
  creator_tag <- get_remote_tag TagCategory.artist creator_id ;;
  let remote_post := append creator_tag remote_post in
  metadata <- get_tag creator_tag ;;
  (if bool_decide (RemoteTag.metadata_name metadata = Some creator_name) then ret tt
   else update_tag creator_tag (RemoteTag.set_metadata_name (Some creator_name))) ;;
  remote_post <- foldM (fun p name =>
                          remote_tag <- get_remote_tag TagCategory.general name ;;
                          ret (append remote_tag p))
                       (Post.tags post) remote_post ;;
  if String.eqb (Post.rating post) "adult"
  then nsfw_tag <- get_remote_tag TagCategory.meta "nsfw" ;; ret (append nsfw_tag remote_post)
  else ret remote_post.

(** A post object as the constructor leaves it, before [core.add]. *)
Definition new_remote_post (source_id : Z) (original_id url title comment : string)
    (post_time : Z) (metadata_ : option (list (string * Z))) (liked : bool) : RemotePost.t :=
  {| RemotePost.id := PyNone; RemotePost.source_id := source_id;
     RemotePost.original_id := original_id; RemotePost.url := url;
     RemotePost.title := title; RemotePost.comment := Plain comment;
     RemotePost.type := PostType.collection; RemotePost.post_time := post_time;
     RemotePost.metadata_ := metadata_;
     RemotePost.favorite := liked;        (* [if post.liked is True: favorite = True] *)
     RemotePost.tags := [] |}.

Definition new_file (remote : nat) (remote_order : Z) (filename : option string) : File.t :=
  {| File.remote := remote; File.remote_order := remote_order;
     File.filename := filename; File.present := false; File.thumb_present := false |}.

(** [{file.remote_order: file for file in remote_post.files}] : a later
    file replaces an earlier one of the same order. *)
Definition current_files_of (remote_post : nat) (st : Store) : gmap Z nat :=
  list_to_map (reverse ((fun hf => (File.remote_order hf.2, hf.1))
                          <$> post_files remote_post st)).

(** [dateutil.parser.parse(post.posted_at).astimezone(timezone.utc)] *)
Definition post_time_of (post : Post.t) : M Store Z :=
  match parse_time W (Post.posted_at post) with
  | Some t => ret t
  | None => raise (ParserError (Post.posted_at post))
  end.

(** The identity of a sub-content post:
    ['{post_id}-{content_id}'.format(post_id=post.id, content_id=content.id)]. *)
Definition content_original_id (post : Post.t) (content : Content.t) : string :=
  pretty (Post.id post) +:+ "-" +:+ pretty (Content.id content).

(** [file = current_files.get(order)] and the creation of the file
    when there is none (the same statements in the gallery and in the
    blog loop). *)
Definition current_or_new_file (remote_post : nat) (current_files : gmap Z nat)
    (order : Z) : M Store nat :=
  match current_files !! order with
  | Some file => ret file
  | None =>
      file <- add_new_file (new_file remote_post order None) ;;
      flush ;;
      log LInfo "found new file for post %s, file order: %s" ;;
      ret file
  end.

(** The resolution of a file of a gallery or of a blog (again the same
    statements in both loops): what is needed is downloaded from the
    two urls and imported. *)
Definition resolve_file (file : nat) (preview : bool) (orig_url thumb_url : string)
    : M Store unit :=
  f <- get_file file ;;
  let need_orig := need_orig f preview in
  let need_thumb := need_thumb f in
  if need_thumb || need_orig then
    log LInfo "downloading files for post: %s, order: %r" ;;
    orig <- when_needed need_orig (_download_file orig_url None) ;;
    thumb <- when_needed need_thumb (_download_file thumb_url None) ;;
    import_file file orig thumb
  else ret tt.

(** The body of [for photo in content.post_content_photos]. *)
Definition gallery_photo (remote_post : nat) (current_files : gmap Z nat)
    (preview : bool) (photo : Photo.t) : M Store unit :=
  let order := Photo.id photo in
  file <- current_or_new_file remote_post current_files order ;;
  resolve_file file preview (Photo.url_original photo) (Photo.url_medium photo).

(** The body of [for section in sections]; [blog] is the list built so
    far. *)
Definition blog_section (remote_post : nat) (current_files : gmap Z nat)
    (preview : bool) (blog : list blog_entry) (section : segment) : M Store (list blog_entry) :=
  match section with
  | NoInsert e => raise e
  | Segment (InsertStr text) => ret (blog ++ [BlogText text])
  | Segment (InsertDynamic (Some fantiaImage)) =>
      let order := FantiaImage.id fantiaImage in
      file <- current_or_new_file remote_post current_files order ;;
      let orig_url := FILE_DOWNLOAD_URL (FantiaImage.original_url fantiaImage) in
      let thumb_url := FantiaImage.url fantiaImage in
      resolve_file file preview orig_url thumb_url ;;
      ret (blog ++ [BlogFile order])
  | Segment (InsertDynamic None) =>
      log LWarning "unknown blog insert: %s" ;;
      ret blog
  | Segment InsertOther => ret blog
  end.

(** The statements of [_content_to_post] under [if remote_post is None]. *)
Definition find_or_create_content_post (post : Post.t) (content : Content.t)
    (post_time : Z) : M Store nat :=
  let content_id := content_original_id post content in
  found <- query_remote_post content_id ;;
  match found with
  | Some remote_post => ret remote_post
  | None =>
      log LInfo "creating new post" ;;
      let metadata := match Content.plan content with
                      | Some price => [("price", price)]
                      | None => []
                      end in
      source_id <- gets core_source_id ;;
      let remote_post :=
        new_remote_post source_id content_id (POST_FORMAT (pretty (Post.id post)))
                        (Content.title content) (Content.comment content)
                        post_time (Some metadata) (Post.liked post) in
      remote_post <- attach_tags post remote_post ;;
      add_new_post remote_post
  end.

(** *** [_content_to_post] *)
Definition _content_to_post (post : Post.t) (content : Content.t)
    (remote_post : option nat) (preview : bool) : M Store nat :=
  post_time <- post_time_of post ;;
  log LInfo "getting post %s" ;;
  remote_post <- match remote_post with
                 | Some remote_post => ret remote_post
                 | None => find_or_create_content_post post content post_time
                 end ;;
  (if String.eqb (Content.category content) "file" then
     files <- gets (post_files remote_post) ;;
     file <- match files with
             | [] =>
                 file <- add_new_file (new_file remote_post 0 (Some (Content.filename content))) ;;
                 flush ;;
                 log LInfo "found new file for post %s, filename: %s" ;;
                 ret file
             | (file, _) :: _ => ret file
             end ;;
     f <- get_file file ;;
     let need_orig := need_orig f preview in
     let need_thumb := need_thumb f in
     if need_orig || need_thumb then
       log LInfo "downloading: %s, file: %r, thumb: %r" ;;
       let orig_url := FILE_DOWNLOAD_URL (Content.download_uri content) in
       orig <- when_needed need_orig (_download_file orig_url (Some (Content.filename content))) ;;
       thumb <- match Post.thumb post with
                | Some t => when_needed need_thumb (_download_file (Thumb.medium t) None)
                | None => ret None
                end ;;
       import_file file orig thumb
     else ret tt
   else if String.eqb (Content.category content) "photo_gallery" then
     current_files <- gets (current_files_of remote_post) ;;
     for_each (Content.post_content_photos content)
              (gallery_photo remote_post current_files preview)
   else if String.eqb (Content.category content) "text" then
     update_post remote_post (RemotePost.set_type PostType.set)
   else if String.eqb (Content.category content) "blog" then
     current_files <- gets (current_files_of remote_post) ;;
     sections <- match json_ops W (Content.comment content) with
                 | Some ops => ret ops
                 | None => raise (JSONDecodeError (Content.comment content))
                 end ;;
     blog <- foldM (blog_section remote_post current_files preview) sections [] ;;
     update_post remote_post (RemotePost.set_comment (BlogJson blog)) ;;
     update_post remote_post (RemotePost.set_type PostType.blog)
   else
     raise (ValueError ("unknown content category: " +:+ Content.category content))) ;;
  ret remote_post.

(** [obj.split('-')] on an attribute of unknown type: only a string
    has the method. *)
Definition py_split {S} (v : pyval) (sep : ascii) : M S (list string) :=
  match v with
  | PyStr s => ret (split sep s)
  | PyInt _ => raise (AttributeError "'int' object has no attribute 'split'")
  | PyNone => raise (AttributeError "'NoneType' object has no attribute 'split'")
  end.

(** The statements of [_to_remote_posts] under [if remote_post is not
    None]: [Some posts] when they return, [None] when control falls
    through to the rest of the method. *)
Definition update_existing (post : Post.t) (remote_post : nat) (preview : bool)
    : M Store (option (list nat)) :=
  p <- get_post remote_post ;;
  id_parts <- py_split (RemotePost.id p) "-" ;;
  match id_parts with
  | [_; part] =>
      content_id <- match int_of_str part with
                    | Some n => ret n
                    | None => raise (ValueError (invalid_literal part))
                    end ;;
      let content := List.find (fun c => Z.eqb (Content.id c) content_id)
                               (Post.post_contents post) in
      match content with
      | Some content =>
          if String.eqb (Content.visible_status content) "visible"
          then r <- _content_to_post post content (Some remote_post) preview ;;
               ret (Some [r])
          else ret (Some [remote_post])
      | None => ret (Some [remote_post])
      end
  | _ => ret None
  end.

(** The statements of [_to_remote_posts] under [if remote_post is None]. *)
Definition find_or_create_collection_post (post : Post.t) (post_time : Z) : M Store nat :=
  let main_id := pretty (Post.id post) in
  found <- query_remote_post main_id ;;
  match found with
  | Some remote_post => ret remote_post
  | None =>
      log LInfo "creating new post" ;;
      source_id <- gets core_source_id ;;
      let remote_post :=
        new_remote_post source_id main_id (POST_FORMAT main_id)
                        (Post.title post) (Post.comment post)
                        post_time None (Post.liked post) in
      remote_post <- attach_tags post remote_post ;;
      add_new_post remote_post
  end.

(** [post.thumb.original] and [post.thumb.medium] *)
Definition thumb_attr (post : Post.t) (attr : Thumb.t -> string) (name : string) : M Store string :=
  match Post.thumb post with
  | Some t => ret (attr t)
  | None => raise (AttributeError ("'NoneType' object has no attribute '" +:+ name +:+ "'"))
  end.

(** The thumbnail of the collection post. *)
Definition collection_thumbnail (post : Post.t) (remote_post : nat) (preview : bool)
    : M Store unit :=
  files <- gets (post_files remote_post) ;;
  file <- match files with
          | [] =>
              match Post.thumb post with
              | Some _ =>
                  file <- add_new_file (new_file remote_post 0 None) ;;
                  flush ;;
                  ret (Some file)
              | None => ret None
              end
          | (file, _) :: _ => ret (Some file)
          end ;;
  match file with
  | Some file =>
      f <- get_file file ;;
      let need_orig := need_orig f preview in
      let need_thumb := need_thumb f in
      if need_orig || need_thumb then
        log LInfo "downloading files for post: %s, order: %r" ;;
        orig <- when_needed need_orig
                  (url <- thumb_attr post Thumb.original "original" ;; _download_file url None) ;;
        thumb <- when_needed need_thumb
                   (url <- thumb_attr post Thumb.medium "medium" ;; _download_file url None) ;;
        import_file file orig thumb
      else ret tt
  | None => ret tt
  end.

(** The body of [for content in post.post_contents]; [remote_posts] is
    the list built so far. *)
Definition content_step (post : Post.t) (remote_post : nat) (preview : bool)
    (remote_posts : list nat) (content : Content.t) : M Store (list nat) :=
  if String.eqb (Content.visible_status content) "visible" then
    content_post <- _content_to_post post content None preview ;;
    let remote_posts := remote_posts ++ [content_post] in
    flush ;;
    p <- get_post remote_post ;;
    c <- get_post content_post ;;
    rel <- query_related (RemotePost.id p) (RemotePost.id c) ;;
    match rel with
    | None => append_related remote_post content_post ;; ret remote_posts
    | Some _ => ret remote_posts
    end
  else ret remote_posts.

(** *** [_to_remote_posts] *)
Definition _to_remote_posts (post : Post.t) (remote_post : option nat) (preview : bool)
    : M Store (list nat) :=
  post_time <- post_time_of post ;;
  log LInfo "getting post %s" ;;
  returned <- match remote_post with
              | Some remote_post => update_existing post remote_post preview
              | None => ret None
              end ;;
  match returned with
  | Some posts => ret posts
  | None =>
      remote_post <- match remote_post with
                     | Some remote_post => ret remote_post
                     | None => find_or_create_collection_post post post_time
                     end ;;
      collection_thumbnail post remote_post preview ;;
      foldM (content_step post remote_post preview) (Post.post_contents post) [remote_post]
  end.

(** [self.http.get(POST_GET_URL.format(post_id=post_id))],
    [response.raise_for_status()] and the decoding of the document. *)
Definition get_post_document (post_id : string) : M Store Post.t :=
  let url := POST_GET_URL post_id in
  emit (HttpGet url) ;;
  match api_post W url with
  | Some post => ret post
  | None => raise (HTTPError url)
  end.

(** *** [download] *)
Definition download (url : option string) (remote_post : option nat) (preview : bool)
    : M Store (option nat) :=
  match url, remote_post with
  | None, None => raise (ValueError "either url or remote_post must be passed")
  | _, _ =>
      post_id <- match remote_post with
                 | Some remote_post =>
                     p <- get_post remote_post ;;
                     let post_id := hd "" (split "-" (RemotePost.original_id p)) in
                     log LInfo "update request for %s" ;;
                     ret post_id
                 | None =>
                     let url := default "" url in
                     log LInfo "download request for %s" ;;
                     if isdigit url then ret url
                     else match re_match POST_REGEXP url with
                          | None => raise (ValueError ("unsupported url: " +:+ repr url))
                          | Some m => ret (default "" (group "post_id" m))
                          end
                 end ;;
      post <- get_post_document post_id ;;
      log LDebug "post json: %s" ;;
      remote_posts <- _to_remote_posts post remote_post preview ;;
      ret (head remote_posts)
  end.

End WithWorld.

End Fantia.

(** ** The iterator of a creator's posts *)

(** [self.state]: the [head_id] and [tail_id] members of the state
    document. *)
Module Cursor.
Record t := { head_id : option Z; tail_id : option Z }.
Definition empty : t := {| head_id := None; tail_id := None |}.
End Cursor.

Module Subscription.
Record t := {
  options_creator_id : string;           (* [options.creator_id] *)
  state : Cursor.t;
  feed : list nat
}.
End Subscription.

Module CreatorIterator.

Record t := {
  subscription : option Subscription.t;
  state : Cursor.t;
  creator_id : string;
  head_id : option Z;
  tail_id : option Z
}.

(** [__init__]; [options] is the [creator_id] of the options given. *)
Definition __init__ (subscription : option Subscription.t) (options : option string)
    : result t :=
  let options := match subscription with
                 | Some sub => Some (Subscription.options_creator_id sub)
                 | None => options
                 end in
  let state := match subscription with
               | Some sub => Subscription.state sub
               | None => Cursor.empty
               end in
  match options with
  | Some creator_id =>
      Ok {| subscription := subscription; state := state; creator_id := creator_id;
            head_id := Cursor.head_id state; tail_id := Cursor.tail_id state |}
  | None => Raise (AttributeError "'NoneType' object has no attribute 'creator_id'")
  end.

(** A run works on the iterator object and on the session. *)
Record Env := { self : t; core : Store }.

Definition in_core {A} (c : M Store A) : M Env A :=
  fun e => match c (core e) with
           | (r, st) => (r, {| self := self e; core := st |})
           end.
Definition update_self (f : t -> t) : M Env unit :=
  modify (fun e => {| self := f (self e); core := core e |}).

Definition set_head_id (v : option Z) (it : t) : t :=
  {| subscription := subscription it; state := state it; creator_id := creator_id it;
     head_id := v; tail_id := tail_id it |}.
Definition set_tail_id (v : option Z) (it : t) : t :=
  {| subscription := subscription it; state := state it; creator_id := creator_id it;
     head_id := head_id it; tail_id := v |}.

(** *** [_save_state] *)
Definition _save_state : M Env unit :=
  update_self (fun it =>
    let state := {| Cursor.head_id := head_id it; Cursor.tail_id := tail_id it |} in
    {| subscription :=
         match subscription it with
         | Some sub => Some {| Subscription.options_creator_id := Subscription.options_creator_id sub;
                               Subscription.state := state;
                               Subscription.feed := Subscription.feed sub |}
         | None => None
         end;
       state := state; creator_id := creator_id it;
       head_id := head_id it; tail_id := tail_id it |}).

(** [post.links.next if direction == FetchDirection.newer else
    post.links.previous], by the [id] of the link. *)
Definition next_post (direction : FetchDirection.t) (post : Post.t) : option Z :=
  if bool_decide (direction = FetchDirection.newer)
  then Post.links_next post else Post.links_previous post.

(** *** [_post_iterator]

    The generator object: created and not yet started, suspended at
    its [yield] (with the locals [direction], [post_id] and [post] and
    what is left of [it]; [None] is the endless [iter(int, 1)]), or
    finished. *)
Inductive generator : Type :=
  | Created (direction : FetchDirection.t) (n : option Z)
  | AtYield (direction : FetchDirection.t) (post_id : Z) (post : Post.t) (it : option nat)
  | Finished.

Section WithWorld.

Context (W : World).

Definition get_fanclub_document (fanclub_id : string) : M Store Fanclub.t :=
  let url := FANCLUB_GET_URL fanclub_id in
  emit (HttpGet url) ;;
  match api_fanclub W url with
  | Some fanclub => ret fanclub
  | None => raise (HTTPError url)
  end.

(** One turn of [for _ in it:] up to the [yield]: the next record, or
    nothing when [it] is used up. *)
Definition for_turn (direction : FetchDirection.t) (post_id : Z) (it : option nat)
    : M Env (option Post.t * generator) :=
  match it with
  | Some O => ret (None, Finished)
  | _ =>
      post <- in_core (Fantia.get_post_document W (pretty post_id)) ;;
      in_core (log LDebug "post: %s") ;;
      ret (Some post, AtYield direction post_id post (Nat.pred <$> it))
  end.

(** [range(n) if n is not None else iter(int, 1)] *)
Definition iterations (n : option Z) : option nat := Z.to_nat <$> n.

(** [next(generator)]: run the body up to the next [yield]. *)
Definition next (g : generator) : M Env (option Post.t * generator) :=
  match g with
  | Created direction n =>
      me <- gets self ;;
      let post_id := if bool_decide (direction = FetchDirection.newer)
                     then head_id me else tail_id me in
      match post_id with
      | None =>
          fanclub <- in_core (get_fanclub_document (creator_id me)) ;;
          match Fanclub.recent_posts fanclub with
          | [] => ret (None, Finished)
          | post_id :: _ =>
              update_self (set_head_id (Some post_id)) ;;
              update_self (set_tail_id (Some post_id)) ;;
              for_turn direction post_id (iterations n)
          end
      | Some post_id =>
          post <- in_core (Fantia.get_post_document W (pretty post_id)) ;;
          match next_post direction post with
          | None => ret (None, Finished)
          | Some post_id => for_turn direction post_id (iterations n)
          end
      end
  | AtYield direction post_id post it =>
      (match direction with
       | FetchDirection.newer => update_self (set_head_id (Some post_id))
       | FetchDirection.older => update_self (set_tail_id (Some post_id))
       end) ;;
      match next_post direction post with
      | None => ret (None, Finished)
      | Some post_id => for_turn direction post_id it
      end
  | Finished => ret (None, Finished)
  end.

(** [list(self._post_iterator(direction, n))], as far as [fuel] calls
    of [next] go: the records yielded and the generator left. *)
Fixpoint drain (fuel : nat) (g : generator) (yielded : list Post.t)
    : M Env (list Post.t * generator) :=
  match fuel with
  | O => ret (yielded, g)
  | S fuel' =>
      r <- next g ;;
      match r with
      | (Some post, g') => drain fuel' g' (yielded ++ [post])
      | (None, g') => ret (yielded, g')
      end
  end.

Definition append_feed (posts : list nat) (it : t) : t :=
  {| subscription :=
       match subscription it with
       | Some sub => Some {| Subscription.options_creator_id := Subscription.options_creator_id sub;
                             Subscription.state := Subscription.state sub;
                             Subscription.feed := Subscription.feed sub ++ posts |}
       | None => None
       end;
     state := state it; creator_id := creator_id it;
     head_id := head_id it; tail_id := tail_id it |}.

(** [for post in self._post_iterator(direction, n):] of [fetch], for a
    consumer that takes the posts of at most [fuel] records: the posts
    handed out so far and the generator left.

    The posts of a record are handed out before they are appended to
    the feed and before the commit: a consumer that stops after the
    posts of the last record it asked for leaves the method suspended
    at a [yield], with that record normalized but neither appended nor
    committed.  (Stopping at an earlier post of the same record leaves
    the same state; the consumer has then a prefix of the list.  A
    record always has a post to hand out, its collection post.) *)
Fixpoint fetch_loop (fuel : nat) (g : generator) (yielded : list nat)
    : M Env (list nat * generator) :=
  match fuel with
  | O => ret (yielded, g)
  | S fuel' =>
      r <- next g ;;
      match r with
      | (Some post, g') =>
          me <- gets self ;;
          remote_posts <- in_core (Fantia._to_remote_posts W post None
                                     (bool_decide (subscription me = None))) ;;
          let yielded := yielded ++ remote_posts in
          match fuel' with
          | O => ret (yielded, g')
          | S _ =>
              update_self (append_feed remote_posts) ;;
              in_core commit ;;
              fetch_loop fuel' g' yielded
          end
      | (None, g') => ret (yielded, g')
      end
  end.

(** *** [fetch]

    The posts a consumer gets from the generator [fetch] returns by
    taking the posts of at most [fuel] records, and whether the
    generator was exhausted.  Nothing of the method runs before the
    first post is asked for, and [_save_state] runs only when the loop
    has ended. *)
Definition fetch (fuel : nat) (direction : FetchDirection.t) (n : option Z)
    : M Env (list nat * bool) :=
  me <- gets self ;;
  let direction := match tail_id me with
                   | None => FetchDirection.older
                   | Some _ => direction
                   end in
  r <- fetch_loop fuel (Created direction n) [] ;;
  match r with
  | (yielded, Finished) =>
      _save_state ;;
      me <- gets self ;;
      (match subscription me with
       | Some _ => in_core (emit AddSubscription)
       | None => ret tt
       end) ;;
      ret (yielded, true)
  | (yielded, _) => ret (yielded, false)
  end.

End WithWorld.

End CreatorIterator.

(** ** Sample data

    A creator with two posts; the newer one has a file, a hidden text,
    a gallery and a blog.  Used to run the definitions on concrete
    input. *)

Module Sample.

Definition content (id : Z) (category visible_status : string) : Content.t :=
  {| Content.id := id; Content.category := category;
     Content.visible_status := visible_status;
     Content.title := "title"; Content.comment := "comment"; Content.plan := Some 500;
     Content.filename := "a.png"; Content.download_uri := "/dl/a.png";
     Content.post_content_photos :=
       [ {| Photo.id := 5; Photo.url_original := "o5"; Photo.url_medium := "m5" |};
         {| Photo.id := 6; Photo.url_original := "o6"; Photo.url_medium := "m6" |} ] |}.

Definition post (id : Z) (contents : list Content.t) (next previous : option Z) : Post.t :=
  {| Post.id := id; Post.fanclub_id := 9; Post.fanclub_user_name := "alice";
     Post.posted_at := "2020-11-03T12:00:00+09:00";
     Post.title := "Title"; Post.comment := "Comment"; Post.liked := true;
     Post.tags := ["x"; "y"]; Post.rating := "adult";
     Post.thumb := Some {| Thumb.original := "to"; Thumb.medium := "tm" |};
     Post.post_contents := contents;
     Post.links_next := next; Post.links_previous := previous |}.

Definition post123 : Post.t :=
  post 123 [content 45 "file" "visible"; content 46 "text" "hidden";
            content 47 "photo_gallery" "visible"; content 48 "blog" "visible"]
       None (Some 122).
Definition post122 : Post.t := post 122 [] (Some 123) None.

(** A gallery that lists the same photo twice. *)
Definition repeated_gallery : Content.t :=
  {| Content.id := 50; Content.category := "photo_gallery";
     Content.visible_status := "visible";
     Content.title := "title"; Content.comment := "comment"; Content.plan := None;
     Content.filename := ""; Content.download_uri := "";
     Content.post_content_photos :=
       [ {| Photo.id := 5; Photo.url_original := "o5"; Photo.url_medium := "m5" |};
         {| Photo.id := 5; Photo.url_original := "o5"; Photo.url_medium := "m5" |} ] |}.

(** A record with a visible item of a category the plugin does not know. *)
Definition post200 : Post.t := post 200 [content 1 "video" "visible"] None None.

(** Record 123 after content 45 has been removed upstream. *)
Definition post123_without_45 : Post.t :=
  post 123 [content 47 "photo_gallery" "visible"] None (Some 122).

Definition ops : list segment :=
  [Segment (InsertStr "hello"); Segment (InsertDynamic None); Segment InsertOther;
   Segment (InsertDynamic (Some {| FantiaImage.id := 7; FantiaImage.original_url := "/o7";
                                   FantiaImage.url := "u7" |}));
   Segment (InsertStr "bye")].

Definition world : World :=
  {| api_post := fun url =>
       if String.eqb url (POST_GET_URL "123") then Some post123
       else if String.eqb url (POST_GET_URL "122") then Some post122
       else None;
     api_fanclub := fun url =>
       if String.eqb url (FANCLUB_GET_URL "9")
       then Some {| Fanclub.recent_posts := [123; 122] |} else None;
     stream_ok := fun _ => true;
     parse_time := fun _ => Some 1604372400;
     json_ops := fun _ => Some ops |}.

(** The same world with another document for the blogs. *)
Definition world_with_ops (ops : list segment) : World :=
  {| api_post := api_post world; api_fanclub := api_fanclub world;
     stream_ok := stream_ok world; parse_time := parse_time world;
     json_ops := fun _ => Some ops |}.

Definition empty_store : Store :=
  {| core_source_id := 1; remote_posts := []; files := []; related := [];
     remote_tags := []; trace := [] |}.

(** The session after record 123 has been normalized once. *)
Definition store123 : Store :=
  (Fantia._to_remote_posts world post123 None false empty_store).2.

(** A subscription that has never been fetched. *)
Definition fresh_subscription : Subscription.t :=
  {| Subscription.options_creator_id := "9"; Subscription.state := Cursor.empty;
     Subscription.feed := [] |}.

Definition fresh_iterator : CreatorIterator.t :=
  {| CreatorIterator.subscription := Some fresh_subscription;
     CreatorIterator.state := Cursor.empty; CreatorIterator.creator_id := "9";
     CreatorIterator.head_id := None; CreatorIterator.tail_id := None |}.

Definition fresh_env : CreatorIterator.Env :=
  {| CreatorIterator.self := fresh_iterator; CreatorIterator.core := empty_store |}.

(** The same subscription once record 122 has been fetched. *)
Definition resumed_env : CreatorIterator.Env :=
  {| CreatorIterator.self :=
       {| CreatorIterator.subscription := Some fresh_subscription;
          CreatorIterator.state := {| Cursor.head_id := Some 122; Cursor.tail_id := Some 122 |};
          CreatorIterator.creator_id := "9";
          CreatorIterator.head_id := Some 122; CreatorIterator.tail_id := Some 122 |};
     CreatorIterator.core := empty_store |}.

End Sample.


(** ** Searches and subscriptions

    The three methods of the plugin that make iterators and
    subscriptions.  Search options are given by their [creator_id],
    as for [CreatorIterator.__init__]. *)

Module Plugin.

(** [search]: [CreatorIterator(self, options=options)] *)
Definition search (options : option string) : result CreatorIterator.t :=
  CreatorIterator.__init__ None options.

(** [get_iterator]: [CreatorIterator(self, subscription=subscription)] *)
Definition get_iterator (subscription : option Subscription.t) : result CreatorIterator.t :=
  CreatorIterator.__init__ subscription None.

(** What the constructor of [Subscription] is given: the source, the
    name, and the two documents the iterator reads back; a new
    subscription has an empty feed. *)
Record subscription_row := {
  source_id : Z;
  name : string;
  columns : Subscription.t
}.

(** [iterator.subscription = sub] *)
Definition set_subscription (v : option Subscription.t) (it : CreatorIterator.t)
    : CreatorIterator.t :=
  {| CreatorIterator.subscription := v;
     CreatorIterator.state := CreatorIterator.state it;
     CreatorIterator.creator_id := CreatorIterator.creator_id it;
     CreatorIterator.head_id := CreatorIterator.head_id it;
     CreatorIterator.tail_id := CreatorIterator.tail_id it |}.

(** [create_subscription]: the row it returns and the iterator it was
    given, as the call leaves it.  With neither options nor iterator,
    the first thing evaluated that fails is [options.to_json()]. *)
Definition create_subscription (name : string) (options : option string)
    (iterator : option CreatorIterator.t)
    : M Store (subscription_row * option CreatorIterator.t) :=
  chosen <- match iterator, options with
            | Some it, _ =>
                ret (CreatorIterator.creator_id it, CreatorIterator.state it)
            | None, Some creator_id => ret (creator_id, Cursor.empty)
            | None, None =>
                raise (AttributeError "'NoneType' object has no attribute 'to_json'")
            end ;;
  source <- gets core_source_id ;;
  let sub := {| Subscription.options_creator_id := chosen.1;
                Subscription.state := chosen.2;
                Subscription.feed := [] |} in
  emit AddSubscription ;;
  flush ;;
  ret ({| source_id := source; name := name; columns := sub |},
       set_subscription (Some sub) <$> iterator).

(** The row of the source in the database, as far as the plugin
    reads it. *)
Module Source.
Record t := { version : Z; config : string }.
End Source.

(** [Fantia.version] *)
Definition version : Z := 1.

(** [update]: the source as the call leaves it, and whether it was
    handed to [core.add]. *)
Definition update (source : Source.t) : Source.t * bool :=
  if (Source.version source <? version)%Z
  then ({| Source.version := version; Source.config := Source.config source |}, true)
  else (source, false).

End Plugin.

(** ** Notions used to state the properties *)

(** *** The paginator *)

Module Paginator.
Import CreatorIterator.

(** The direction a generator walks in, while it is alive. *)
Definition walking (g : generator) : option FetchDirection.t :=
  match g with
  | Created direction _ => Some direction
  | AtYield direction _ _ _ => Some direction
  | Finished => None
  end.

(** How many more records the limit lets a generator yield ([None]:
    no limit). *)
Definition allowance (g : generator) : option nat :=
  match g with
  | Created _ n => iterations n
  | AtYield _ _ _ it => it
  | Finished => Some 0%nat
  end.

(** How many requests a generator with a limit can still make: one
    for each record it may yield and, before it has started, one for
    the record or the fanclub it starts from. *)
Definition budget (g : generator) : option nat :=
  match g with
  | Created _ n => S <$> iterations n
  | AtYield _ _ _ it => it
  | Finished => Some 0%nat
  end.

(** The cursor assignment a resumed generator starts with. *)
Definition set_cursor (direction : FetchDirection.t) (post_id : Z) (it : t) : t :=
  match direction with
  | FetchDirection.newer => set_head_id (Some post_id) it
  | FetchDirection.older => set_tail_id (Some post_id) it
  end.

(** The number of API requests in a trace. *)
Fixpoint requests (tr : list event) : nat :=
  match tr with
  | [] => 0
  | HttpGet _ :: r => S (requests r)
  | _ :: r => requests r
  end.

End Paginator.

(** *** The normalizer *)

Module Normalizer.

(** What never changes of a post or of a file once the session holds
    it. *)
Definition same_post (p p' : RemotePost.t) : Prop :=
  RemotePost.id p' = RemotePost.id p /\
  RemotePost.source_id p' = RemotePost.source_id p /\
  RemotePost.original_id p' = RemotePost.original_id p.

Definition same_file (f f' : File.t) : Prop :=
  File.remote f' = File.remote f /\
  File.remote_order f' = File.remote_order f.

(** [s'] holds every object [s] holds, under the same handle and with
    the same identity. *)
Record extends (s s' : Store) : Prop := Extends {
  extends_source : core_source_id s' = core_source_id s;
  extends_posts : forall h p, remote_posts s !! h = Some p ->
                  exists p', remote_posts s' !! h = Some p' /\ same_post p p';
  extends_files : forall h f, files s !! h = Some f ->
                  exists f', files s' !! h = Some f' /\ same_file f f'
}.

(** [s'] extends [s] and holds no post and no file more. *)
Record stable (s s' : Store) : Prop := Stable {
  stable_extends : extends s s';
  stable_posts : length (remote_posts s') = length (remote_posts s);
  stable_files : length (files s') = length (files s)
}.

(** A computation whose runs, completed or interrupted by an
    exception, all relate the states before and after by [R]. *)
Definition keeps (R : Store -> Store -> Prop) {A} (c : M Store A) : Prop :=
  forall s r s', c s = (r, s') -> R s s'.

(** From the state [s], the run of a computation relates the states
    before and after by [R] and, when it completes, its value
    satisfies [P]. *)
Definition yields (R : Store -> Store -> Prop) {A} (P : A -> Prop)
    (c : M Store A) (s : Store) : Prop :=
  forall r s', c s = (r, s') -> R s s' /\ forall a, r = Ok a -> P a.

(** A computation that ends with an exception whatever the state. *)
Definition always_raises {A} (c : M Store A) : Prop :=
  forall s, exists e, (c s).1 = Raise e.

(** The identities of the posts, and the (post, remote_order) pairs of
    the files, in handle order. *)
Definition post_keys (s : Store) : list (Z * string) :=
  (fun p => (RemotePost.source_id p, RemotePost.original_id p)) <$> remote_posts s.
Definition file_keys (s : Store) : list (nat * Z) :=
  (fun f => (File.remote f, File.remote_order f)) <$> files s.

(** The identity of the post behind a handle. *)
Definition identity (s : Store) (h : nat) : option (Z * string) :=
  (fun p => (RemotePost.source_id p, RemotePost.original_id p)) <$> remote_posts s !! h.

(** [h] is a post of this source with the given original id. *)
Definition is_post (s : Store) (h : nat) (original_id : string) : Prop :=
  exists p, remote_posts s !! h = Some p /\
            RemotePost.source_id p = core_source_id s /\
            RemotePost.original_id p = original_id.

Definition has_file (s : Store) (remote_post : nat) (order : Z) : Prop :=
  exists h f, files s !! h = Some f /\ File.remote f = remote_post /\
              File.remote_order f = order.

Definition owns_file (s : Store) (remote_post : nat) : Prop :=
  exists h f, files s !! h = Some f /\ File.remote f = remote_post.

(** Every entry of a [current_files] dictionary is a file of the post,
    of that order. *)
Definition indexes (current_files : gmap Z nat) (s : Store) (remote_post : nat) : Prop :=
  forall order file, current_files !! order = Some file ->
    exists f, files s !! file = Some f /\ File.remote f = remote_post /\
              File.remote_order f = order.

(** The files a content item asks its post to have. *)
Definition content_files (W : World) (content : Content.t) (s : Store) (h : nat) : Prop :=
  if String.eqb (Content.category content) "file" then owns_file s h
  else if String.eqb (Content.category content) "photo_gallery" then
    forall photo, photo ∈ Content.post_content_photos content ->
                  has_file s h (Photo.id photo)
  else if String.eqb (Content.category content) "text" then True
  else if String.eqb (Content.category content) "blog" then
    forall ops image, json_ops W (Content.comment content) = Some ops ->
                      Segment (InsertDynamic (Some image)) ∈ ops ->
                      has_file s h (FantiaImage.id image)
  else True.

(** The post of a content item and its files are in the session. *)
Definition materialised (W : World) (post : Post.t) (s : Store)
    (content : Content.t) (h : nat) : Prop :=
  is_post s h (Fantia.content_original_id post content) /\
  content_files W content s h.

(** [content.visible_status == 'visible'] *)
Definition visible (content : Content.t) : bool :=
  String.eqb (Content.visible_status content) "visible".

(** The known categories. *)
Definition known_category (category : string) : bool :=
  String.eqb category "file" || String.eqb category "photo_gallery"
  || String.eqb category "text" || String.eqb category "blog".

(** [posts] is the collection post of the record followed by the posts
    of its visible items, in order, all with their files. *)
Definition recorded (W : World) (post : Post.t) (s : Store) (posts : list nat) : Prop :=
  exists h0 hs,
    posts = h0 :: hs /\
    is_post s h0 (pretty (Post.id post)) /\
    (Post.thumb post <> None -> owns_file s h0) /\
    Forall2 (materialised W post s) (List.filter visible (Post.post_contents post)) hs.

(** An import that hands over an original. *)
Definition imports_original (ev : event) : bool :=
  match ev with
  | ImportFile _ (Some _) _ => true
  | _ => false
  end.

(** From [s] to [s'] the trace has only grown, and by no import of an
    original. *)
Definition thumbs_only (s s' : Store) : Prop :=
  exists evs, trace s' = trace s ++ evs /\
              Forall (fun ev => imports_original ev = false) evs.

(** The entry a blog segment contributes, if it has a known form. *)
Definition entry_of_insert (insert : insert) : option blog_entry :=
  match insert with
  | InsertStr text => Some (BlogText text)
  | InsertDynamic (Some image) => Some (BlogFile (FantiaImage.id image))
  | InsertDynamic None => None
  | InsertOther => None
  end.
Definition entry_of (section : segment) : option blog_entry :=
  match section with
  | Segment insert => entry_of_insert insert
  | NoInsert _ => None
  end.

(** An [insert] that is neither literal text nor an image reference. *)
Definition unknown_form (insert : insert) : Prop := entry_of_insert insert = None.

(** The warnings of a trace, by their format. *)
Definition warnings (tr : list event) : list string :=
  omap (fun ev => match ev with
                  | Log LWarning format => Some format
                  | _ => None
                  end) tr.

End Normalizer.

(** *** More notions for the paginator *)

Module Walk.
Import CreatorIterator.

(** The cursor a direction reads and advances, and the other one. *)
Definition cursor (direction : FetchDirection.t) (it : t) : option Z :=
  match direction with
  | FetchDirection.newer => head_id it
  | FetchDirection.older => tail_id it
  end.
Definition other_cursor (direction : FetchDirection.t) (it : t) : option Z :=
  match direction with
  | FetchDirection.newer => tail_id it
  | FetchDirection.older => head_id it
  end.

(** [posts] are the documents met by starting at [post_id] and
    following, from each record, its link for the direction. *)
Fixpoint chain (W : World) (direction : FetchDirection.t) (post_id : Z)
    (posts : list Post.t) : Prop :=
  match posts with
  | [] => True
  | post :: rest =>
      api_post W (POST_GET_URL (pretty post_id)) = Some post /\
      (rest = [] \/
       exists next_id, next_post direction post = Some next_id /\
                       chain W direction next_id rest)
  end.

(** A generator that has yielded: suspended or finished. *)
Definition started (g : generator) : Prop :=
  match g with
  | Created _ _ => False
  | _ => True
  end.

End Walk.

(** *** Notions for [fetch] *)

Module Fetching.
Import CreatorIterator.

(** What a resumption of the paginator never changes of the iterator. *)
Definition same_fields (it it' : t) : Prop :=
  subscription it' = subscription it /\
  state it' = state it /\
  creator_id it' = creator_id it.

(** The subscription with [posts] appended to its feed. *)
Definition fed (posts : list nat) (sub : Subscription.t) : Subscription.t :=
  {| Subscription.options_creator_id := Subscription.options_creator_id sub;
     Subscription.state := Subscription.state sub;
     Subscription.feed := Subscription.feed sub ++ posts |}.

(** The cursor of an iterator as [_save_state] writes it. *)
Definition cursor_of (it : t) : Cursor.t :=
  {| Cursor.head_id := head_id it; Cursor.tail_id := tail_id it |}.

End Fetching.

(** *** What the session never loses *)

Module Ledger.

(** The columns of a post the plugin writes once, when it creates the
    post: all but [comment] and [type]. *)
Definition same_columns (p p' : RemotePost.t) : Prop :=
  RemotePost.id p' = RemotePost.id p /\
  RemotePost.source_id p' = RemotePost.source_id p /\
  RemotePost.original_id p' = RemotePost.original_id p /\
  RemotePost.url p' = RemotePost.url p /\
  RemotePost.title p' = RemotePost.title p /\
  RemotePost.post_time p' = RemotePost.post_time p /\
  RemotePost.metadata_ p' = RemotePost.metadata_ p /\
  RemotePost.favorite p' = RemotePost.favorite p /\
  RemotePost.tags p' = RemotePost.tags p.

(** The columns of a file the plugin writes: all but the presence
    flags, which belong to the import. *)
Definition same_file_columns (f f' : File.t) : Prop :=
  File.remote f' = File.remote f /\
  File.remote_order f' = File.remote_order f /\
  File.filename f' = File.filename f.

(** The key of a tag. *)
Definition same_tag_key (g g' : RemoteTag.t) : Prop :=
  RemoteTag.category g' = RemoteTag.category g /\
  RemoteTag.name g' = RemoteTag.name g.

(** From [s] to [s']: every post, file and tag is still there under
    its handle, with the columns above; the links between posts and
    the trace have only been added to. *)
Record conserves (s s' : Store) : Prop := Conserves {
  conserves_source : core_source_id s' = core_source_id s;
  conserves_posts : forall h p, remote_posts s !! h = Some p ->
                    exists p', remote_posts s' !! h = Some p' /\ same_columns p p';
  conserves_files : forall h f, files s !! h = Some f ->
                    exists f', files s' !! h = Some f' /\ same_file_columns f f';
  conserves_tags : forall h g, remote_tags s !! h = Some g ->
                   exists g', remote_tags s' !! h = Some g' /\ same_tag_key g g';
  conserves_related : exists rows, related s' = related s ++ rows;
  conserves_trace : exists evs, trace s' = trace s ++ evs
}.

(** A log line. *)
Definition is_log (ev : event) : bool :=
  match ev with
  | Log _ _ => true
  | _ => false
  end.

(** From [s] to [s'] the files are the same and the trace has grown
    by log lines only: no request, no download, no import. *)
Definition fileless (s s' : Store) : Prop :=
  files s' = files s /\
  exists evs, trace s' = trace s ++ evs /\ Forall (fun ev => is_log ev = true) evs.

(** The session links the post [content_post] to the post
    [remote_post]: it has a [Related] row with their primary keys. *)
Definition linked (s : Store) (remote_post content_post : nat) : Prop :=
  exists p c,
    remote_posts s !! remote_post = Some p /\
    remote_posts s !! content_post = Some c /\
    {| Related.related_to_id := RemotePost.id p;
       Related.remote_id := RemotePost.id c |} ∈ related s.

(** From [s] to [s'] the links between posts are the same. *)
Definition same_links (s s' : Store) : Prop := related s' = related s.

(** [h] is the tag of the given category and name. *)
Definition tag_is (s : Store) (category : TagCategory.t) (h : nat) (name : string) : Prop :=
  exists g, remote_tags s !! h = Some g /\
            RemoteTag.category g = category /\ RemoteTag.name g = name.

(** From [s] to [s'] every tag is still there, unchanged. *)
Definition tags_grow (s s' : Store) : Prop :=
  forall h g, remote_tags s !! h = Some g -> remote_tags s' !! h = Some g.

End Ledger.
(** ** Properties *)

(** *** Reasoning about computations *)

Lemma bind_inv {S A B} (c : M S A) (k : A -> M S B) s r s' :
  bind c k s = (r, s') ->
  (exists a s1, c s = (Ok a, s1) /\ k a s1 = (r, s')) \/
  (exists e, c s = (Raise e, s') /\ r = Raise e).
Proof.
  unfold bind. destruct (c s) as [[a|e] s1]; intros H.
  - left. eauto.
  - right. inversion H; subst. eauto.
Qed.

Lemma bind_ok {S A B} (c : M S A) (k : A -> M S B) s a s1 :
  c s = (Ok a, s1) -> bind c k s = k a s1.
Proof. unfold bind. intros ->. reflexivity. Qed.

Lemma bind_raise {S A B} (c : M S A) (k : A -> M S B) s e s1 :
  c s = (Raise e, s1) -> bind c k s = (Raise e, s1).
Proof. unfold bind. intros ->. reflexivity. Qed.

(** *** [parse_url] *)

Lemma parse_url_unsupported {S} (url : string) (s : S) :
  isdigit url = false ->
  re_match POST_REGEXP url = None ->
  re_match FANCLUB_REGEXP url = None ->
  Fantia.parse_url url s = (Raise (NameError "post_id"), s).
Proof.
  intros Hd Hp Hf. unfold Fantia.parse_url. rewrite Hd, Hp, Hf. reflexivity.
Qed.

(** C4. On ["hello"], which is not a digit string and matches neither
    pattern, [parse_url] does not give back [None]: it raises
    [NameError] for the unbound name it returns. *)
Theorem parse_url_hello_raises :
  isdigit "hello" = false /\
  re_match POST_REGEXP "hello" = None /\
  re_match FANCLUB_REGEXP "hello" = None /\
  Fantia.parse_url "hello" tt = (Raise (NameError "post_id"), tt).
Proof. vm_compute. repeat split. Qed.

(** *** [download] *)

(** C10. With neither a url nor a post, [download] raises [ValueError]
    at once: the session, trace included, is exactly as before, so no
    request was made and nothing was logged or changed. *)
Theorem download_without_arguments (W : World) (preview : bool) (st : Store) :
  Fantia.download W None None preview st =
    (Raise (ValueError "either url or remote_post must be passed"), st).
Proof. reflexivity. Qed.

(** *** The paginator *)

Section PaginatorProps.
Import CreatorIterator Paginator.
Context (W : World).

Lemma requests_app (t1 t2 : list event) :
  requests (t1 ++ t2) = (requests t1 + requests t2)%nat.
Proof.
  induction t1 as [|e t1 IH]; simpl; [reflexivity|].
  destruct e; simpl; rewrite IH; reflexivity.
Qed.

(** A request for a post document: one [HttpGet] more in the trace,
    whatever the answer; nothing else of the run changes. *)
Lemma get_post_document_spec (post_id : string) (e : Env) r e' :
  in_core (Fantia.get_post_document W post_id) e = (r, e') ->
  self e' = self e /\
  requests (trace (core e')) = S (requests (trace (core e))) /\
  (forall post, r = Ok post -> api_post W (POST_GET_URL post_id) = Some post).
Proof.
  unfold in_core, Fantia.get_post_document, bind, emit, modify, ret, raise. simpl.
  destruct (api_post W (POST_GET_URL post_id)); intros H; inversion H; subst; simpl;
    rewrite requests_app; simpl; repeat split; try lia; congruence.
Qed.

Lemma get_fanclub_document_spec (fanclub_id : string) (e : Env) r e' :
  in_core (get_fanclub_document W fanclub_id) e = (r, e') ->
  self e' = self e /\
  requests (trace (core e')) = S (requests (trace (core e))).
Proof.
  unfold in_core, get_fanclub_document, bind, emit, modify, ret, raise. simpl.
  destruct (api_fanclub W (FANCLUB_GET_URL fanclub_id)); intros H; inversion H; subst; simpl;
    rewrite requests_app; simpl; split; try lia; congruence.
Qed.

Lemma log_spec level format (e : Env) r e' :
  in_core (log level format) e = (r, e') ->
  r = Ok tt /\ self e' = self e /\
  requests (trace (core e')) = requests (trace (core e)).
Proof.
  unfold in_core, log, emit, modify. simpl. intros H; inversion H; subst; simpl.
  rewrite requests_app. simpl. repeat split. lia.
Qed.

(** One turn of the loop: either the limit is used up and nothing is
    requested, or one request is made and, if it succeeds, its record is
    yielded with one turn less left. *)
Lemma for_turn_spec direction post_id it (e : Env) r e' :
  for_turn W direction post_id it e = (r, e') ->
  self e' = self e /\
  match it with
  | Some O => r = Ok (None, Finished) /\ e' = e
  | _ =>
      requests (trace (core e')) = S (requests (trace (core e))) /\
      (forall x, r = Ok x ->
         exists post, x = (Some post, AtYield direction post_id post (Nat.pred <$> it)))
  end.
Proof.
  unfold for_turn. intros H.
  assert (Hgen :
    (post <- in_core (Fantia.get_post_document W (pretty post_id)) ;;
     in_core (log LDebug "post: %s") ;;
     ret (Some post, AtYield direction post_id post (Nat.pred <$> it))) e = (r, e') ->
    self e' = self e /\
    requests (trace (core e')) = S (requests (trace (core e))) /\
    (forall x, r = Ok x ->
       exists post, x = (Some post, AtYield direction post_id post (Nat.pred <$> it)))).
  { clear H. intros H.
    apply bind_inv in H as [(post & e1 & H1 & H)|(ex & H1 & ->)].
    - apply get_post_document_spec in H1 as (Hs1 & Hr1 & _).
      apply bind_inv in H as [([] & e2 & H2 & H)|(ex & H2 & ->)].
      + apply log_spec in H2 as (_ & Hs2 & Hr2).
        inversion H; subst. repeat split; [congruence | lia |].
        intros x Hx. inversion Hx; subst. eauto.
      + apply log_spec in H2 as (Hbad & _). discriminate.
    - apply get_post_document_spec in H1 as (Hs1 & Hr1 & _).
      repeat split; [congruence | lia | intros x Hx; discriminate]. }
  destruct it as [[|k]|].
  - inversion H; subst. auto.
  - apply Hgen in H. tauto.
  - apply Hgen in H. tauto.
Qed.

Lemma update_self_spec f (e : Env) :
  update_self f e = (Ok tt, {| self := f (self e); core := core e |}).
Proof. reflexivity. Qed.

(** A generator only ever yields from its loop: it is then suspended
    at the [yield], walking in the same direction, with one turn less
    left. *)
Lemma next_yield (g : generator) (e : Env) post g' e' direction :
  next W g e = (Ok (Some post, g'), e') ->
  walking g = Some direction ->
  exists post_id it,
    g' = AtYield direction post_id post (Nat.pred <$> it) /\ it <> Some O /\
    (forall k, allowance g = Some k -> it = Some k).
Proof.
  intros H Hw.
  assert (Hturn : forall d pid it e0,
    for_turn W d pid it e0 = (Ok (Some post, g'), e') ->
    g' = AtYield d pid post (Nat.pred <$> it) /\ it <> Some O).
  { intros d pid it e0 Ht. apply for_turn_spec in Ht as (_ & Ht).
    destruct it as [[|k]|].
    - destruct Ht as [Ht _]. discriminate.
    - destruct Ht as (_ & Ht). destruct (Ht _ eq_refl) as (p & Hp).
      inversion Hp; subst. split; [reflexivity | discriminate].
    - destruct Ht as (_ & Ht). destruct (Ht _ eq_refl) as (p & Hp).
      inversion Hp; subst. split; [reflexivity | discriminate]. }
  destruct g as [d n|d pid p it|]; simpl in Hw; inversion Hw; subst; clear Hw.
  - unfold next in H.
    apply bind_inv in H as [(me & e1 & H1 & H)|(ex & _ & ?)]; [|discriminate].
    destruct (if bool_decide (direction = FetchDirection.newer)
              then head_id me else tail_id me) as [pid|].
    + apply bind_inv in H as [(p & e2 & H2 & H)|(ex & _ & ?)]; [|discriminate].
      destruct (next_post direction p) as [nid|]; [|inversion H].
      apply Hturn in H as [-> Hne]. exists nid, (iterations n).
      repeat split; simpl; auto.
    + apply bind_inv in H as [(fc & e2 & H2 & H)|(ex & _ & ?)]; [|discriminate].
      destruct (Fanclub.recent_posts fc) as [|pid rest]; [inversion H|].
      apply bind_inv in H as [([] & e3 & H3 & H)|(ex & _ & ?)]; [|discriminate].
      apply bind_inv in H as [([] & e4 & H4 & H)|(ex & _ & ?)]; [|discriminate].
      apply Hturn in H as [-> Hne]. exists pid, (iterations n).
      repeat split; simpl; auto.
  - unfold next in H.
    apply bind_inv in H as [([] & e1 & H1 & H)|(ex & _ & ?)]; [|discriminate].
    destruct (next_post direction p) as [nid|]; [|inversion H].
    apply Hturn in H as [-> Hne]. exists nid, it.
    repeat split; simpl; auto.
Qed.

(** Resuming a generator suspended at a record whose link is absent:
    the cursor of the direction is set to that record's id and the
    generator finishes; the session is not touched. *)
Lemma next_absent_link direction post_id post it (e : Env) :
  next_post direction post = None ->
  next W (AtYield direction post_id post it) e =
    (Ok (None, Finished),
     {| self := set_cursor direction post_id (self e); core := core e |}).
Proof.
  intros Hl. unfold next. rewrite Hl. destruct direction; reflexivity.
Qed.

(** Resuming a generator suspended with its limit used up: likewise. *)
Lemma next_limit_reached direction post_id post (e : Env) :
  next W (AtYield direction post_id post (Some O)) e =
    (Ok (None, Finished),
     {| self := set_cursor direction post_id (self e); core := core e |}).
Proof.
  unfold next. destruct (next_post direction post); destruct direction; reflexivity.
Qed.

Lemma next_finished (e : Env) : next W Finished e = (Ok (None, Finished), e).
Proof. reflexivity. Qed.

Lemma drain_finished fuel yielded (e : Env) :
  drain W fuel Finished yielded e = (Ok (yielded, Finished), e).
Proof. destruct fuel; reflexivity. Qed.

(** C6. Whatever the direction and the limit: once a generator has
    yielded a record whose link for the direction walked is absent, its
    next resumption finishes it, yields nothing, makes no request and
    leaves the session as it is; draining it gives no further record. *)
Theorem absent_link_ends_sequence (direction : FetchDirection.t) (g : generator)
    (e : Env) (post : Post.t) (g' : generator) (e' : Env) :
  walking g = Some direction ->
  next W g e = (Ok (Some post, g'), e') ->
  next_post direction post = None ->
  exists e'',
    next W g' e' = (Ok (None, Finished), e'') /\
    core e'' = core e' /\
    requests (trace (core e'')) = requests (trace (core e')) /\
    forall fuel yielded,
      drain W (S fuel) g' yielded e' = (Ok (yielded, Finished), e'').
Proof.
  intros Hw Hn Hl.
  destruct (next_yield _ _ _ _ _ _ Hn Hw) as (pid & it & -> & _ & _).
  eexists. split; [apply next_absent_link; exact Hl|].
  split; [reflexivity|]. split; [reflexivity|].
  intros fuel yielded. simpl.
  erewrite bind_ok by (apply next_absent_link; exact Hl). reflexivity.
Qed.

(** What one resumption costs and leaves, under a limit. *)
Lemma next_budget (g : generator) (e : Env) r e' b :
  next W g e = (r, e') ->
  budget g = Some b ->
  (requests (trace (core e')) <= requests (trace (core e)) + b)%nat /\
  forall x, r = Ok x ->
    match x with
    | (Some post, g') =>
        exists k, allowance g = Some (S k) /\ allowance g' = Some k /\
                  (exists d pid it, g' = AtYield d pid post it) /\
                  (requests (trace (core e')) + k <= requests (trace (core e)) + b)%nat
    | (None, g') => g' = Finished
    end.
Proof.
  intros H Hb.
  assert (Hturn : forall d pid k e0 r0 e1,
    for_turn W d pid (Some k) e0 = (r0, e1) ->
    (requests (trace (core e1)) <= requests (trace (core e0)) + k)%nat /\
    forall x, r0 = Ok x ->
      match x with
      | (Some post, g') =>
          exists k', k = S k' /\ allowance g' = Some k' /\
                     (exists d pid it, g' = AtYield d pid post it) /\
                     (requests (trace (core e1)) + k' <= requests (trace (core e0)) + k)%nat
      | (None, g') => g' = Finished
      end).
  { intros d pid k e0 r0 e1 Ht. apply for_turn_spec in Ht as (_ & Ht).
    destruct k as [|k].
    - destruct Ht as [-> ->]. split; [lia|]. intros x Hx. inversion Hx; subst. reflexivity.
    - destruct Ht as (Hr & Ht). split; [lia|]. intros x Hx.
      destruct (Ht _ Hx) as (p & ->). exists k. simpl.
      repeat split; eauto. lia. }
  destruct g as [d n|d pid p it|]; simpl in Hb.
  - destruct n as [n|]; simpl in Hb; [|discriminate]. inversion Hb; subst; clear Hb.
    unfold next in H.
    apply bind_inv in H as [(me & e1 & H1 & H)|(ex & H1 & ->)]; [|discriminate].
    inversion H1; subst; clear H1.
    destruct (if bool_decide (d = FetchDirection.newer)
              then head_id (self e1) else tail_id (self e1)) as [pid|].
    + apply bind_inv in H as [(p & e2 & H2 & H)|(ex & H2 & ->)].
      * apply get_post_document_spec in H2 as (_ & Hr2 & _).
        destruct (next_post d p) as [nid|].
        -- apply Hturn in H as (Hr & Hx). split; [lia|].
           intros [[post|] g'] Hok; specialize (Hx _ Hok); simpl in Hx; [|exact Hx].
           destruct Hx as (k' & Hk & Ha & Hy & Hr'). exists k'. simpl. rewrite Hk.
           repeat split; auto. lia.
        -- inversion H; subst. split; [lia|]. intros x Hx. inversion Hx; subst. reflexivity.
      * apply get_post_document_spec in H2 as (_ & Hr2 & _).
        split; [lia|]. intros x Hx. discriminate.
    + apply bind_inv in H as [(fc & e2 & H2 & H)|(ex & H2 & ->)].
      * apply get_fanclub_document_spec in H2 as (_ & Hr2).
        destruct (Fanclub.recent_posts fc) as [|pid rest].
        -- inversion H; subst. split; [lia|]. intros x Hx. inversion Hx; subst. reflexivity.
        -- apply bind_inv in H as [([] & e3 & H3 & H)|(ex & H3 & ->)]; [|discriminate].
           apply bind_inv in H as [([] & e4 & H4 & H)|(ex & H4 & ->)]; [|discriminate].
           inversion H3; subst; clear H3. inversion H4; subst; clear H4. simpl in H.
           apply Hturn in H as (Hr & Hx). simpl in Hr. split; [lia|].
           intros [[post|] g'] Hok; specialize (Hx _ Hok); simpl in Hx; [|exact Hx].
           destruct Hx as (k' & Hk & Ha & Hy & Hr'). exists k'. simpl in *. rewrite Hk.
           repeat split; auto. lia.
      * apply get_fanclub_document_spec in H2 as (_ & Hr2).
        split; [lia|]. intros x Hx. discriminate.
  - subst it. unfold next in H.
    apply bind_inv in H as [([] & e1 & H1 & H)|(ex & H1 & ->)].
    + assert (core e1 = core e) as Hc by (destruct d; inversion H1; reflexivity).
      destruct (next_post d p) as [nid|].
      * apply Hturn in H as (Hr & Hx). rewrite Hc in *. split; [lia|].
        intros [[post|] g'] Hok; specialize (Hx _ Hok); simpl in Hx; [|exact Hx].
        destruct Hx as (k' & Hk & Ha & Hy & Hr'). exists k'. simpl. rewrite Hk.
        repeat split; auto. lia.
      * inversion H; subst. rewrite Hc. split; [lia|].
        intros x Hx. inversion Hx; subst. reflexivity.
    + destruct d; inversion H1.
  - inversion Hb; subst. inversion H; subst. split; [lia|].
    intros x Hx. inversion Hx; subst. reflexivity.
Qed.

(** Draining a generator with a limit: the records stay within what
    the limit allows, and so do the requests; a generator that is not
    finished used every call of [next] to yield. *)
Lemma drain_budget (fuel : nat) : forall (g : generator) yielded (e : Env) r e' b k,
  drain W fuel g yielded e = (r, e') ->
  budget g = Some b ->
  allowance g = Some k ->
  (requests (trace (core e')) <= requests (trace (core e)) + b)%nat /\
  forall posts g', r = Ok (posts, g') ->
    exists j, length posts = (length yielded + j)%nat /\ (j <= k)%nat /\
      (g' = Finished \/
       (j = fuel /\ allowance g' = Some (k - j)%nat /\
        ((0 < j)%nat -> exists d pid post it, g' = AtYield d pid post it))).
Proof.
  induction fuel as [|fuel IH]; intros g yielded e r e' b k H Hb Hk.
  - inversion H; subst. split; [lia|]. intros posts g' Hx. inversion Hx; subst.
    exists 0%nat. repeat split; try lia. right.
    repeat split; [rewrite Hk; f_equal; lia | lia].
  - simpl in H.
    apply bind_inv in H as [([[post|] g1] & e1 & H1 & H)|(ex & H1 & ->)].
    + destruct (next_budget _ _ _ _ _ H1 Hb) as (Hr1 & Hx1).
      destruct (Hx1 _ eq_refl) as (k1 & Hk1 & Hk1' & (d & pid & it & ->) & Hr1').
      simpl in Hk1'. subst it.
      assert (k = S k1) by congruence. subst k.
      destruct (IH _ _ _ _ _ k1 k1 H eq_refl eq_refl) as (Hr & Hx).
      split; [lia|]. intros posts g' Hok.
      destruct (Hx _ _ Hok) as (j & Hlen & Hj & Hg).
      rewrite length_app in Hlen. simpl in Hlen.
      exists (S j). repeat split; try lia.
      destruct Hg as [->|(-> & Ha & Hy)]; [left; reflexivity|right].
      repeat split; auto. intros _.
      destruct fuel as [|fuel'].
      * simpl in H. unfold ret in H. injection H as <- <-.
        injection Hok as <- <-. eauto.
      * apply Hy. lia.
    + destruct (next_budget _ _ _ _ _ H1 Hb) as (Hr1 & Hx1).
      specialize (Hx1 _ eq_refl). simpl in Hx1. subst g1.
      inversion H; subst. split; [lia|]. intros posts g' Hok. inversion Hok; subst.
      exists 0%nat. repeat split; try lia. left. reflexivity.
    + destruct (next_budget _ _ _ _ _ H1 Hb) as (Hr1 & _).
      split; [lia|]. intros posts g' Hok. discriminate.
Qed.

(** C7. With a limit [n >= 0], one run of the paginator makes at most
    [n + 1] requests and yields at most [n] records, and [n + 1] calls
    of [next] finish it; once it has yielded its [n]-th record, the next
    resumption finishes it without a request and without touching the
    session. *)
Theorem limit_bounds_run (direction : FetchDirection.t) (n : Z) (fuel : nat)
    (e : Env) r (e' : Env) :
  0 <= n ->
  drain W fuel (Created direction (Some n)) [] e = (r, e') ->
  (requests (trace (core e')) <= requests (trace (core e)) + Z.to_nat n + 1)%nat /\
  forall posts g', r = Ok (posts, g') ->
    (length posts <= Z.to_nat n)%nat /\
    ((Z.to_nat n < fuel)%nat -> g' = Finished) /\
    ((0 < length posts)%nat -> length posts = Z.to_nat n ->
     exists e'', next W g' e' = (Ok (None, Finished), e'') /\
                 core e'' = core e').
Proof.
  intros Hn H.
  destruct (drain_budget _ _ _ _ _ _ (S (Z.to_nat n)) (Z.to_nat n) H eq_refl eq_refl)
    as (Hr & Hx).
  split; [lia|]. intros posts g' Hok.
  destruct (Hx _ _ Hok) as (j & Hlen & Hj & Hg). simpl in Hlen. subst j.
  split; [exact Hj|]. split.
  - intros Hf. destruct Hg as [->|(Hfuel & _)]; [reflexivity|lia].
  - intros Hpos Heq. destruct Hg as [->|(_ & Ha & Hy)].
    + eexists. split; [apply next_finished|reflexivity].
    + destruct (Hy Hpos) as (d & pid & post & it & ->). simpl in Ha.
      rewrite Heq, Nat.sub_diag in Ha. subst it.
      eexists. split; [apply next_limit_reached|reflexivity].
Qed.

(** *** [fetch] *)

(** C8. When the iterator has no tail cursor, [fetch] replaces the
    direction by [older] before anything else: asked for [newer] or for
    [older], it gives the same posts and leaves the same iterator and
    the same session. *)
Theorem fresh_fetch_walks_older (fuel : nat) (n : option Z) (e : Env) :
  tail_id (self e) = None ->
  fetch W fuel FetchDirection.newer n e = fetch W fuel FetchDirection.older n e.
Proof.
  intros Ht. unfold fetch.
  rewrite !(bind_ok _ _ e (self e) e) by reflexivity.
  rewrite Ht. reflexivity.
Qed.

End PaginatorProps.

(** C6, witness: walking newer from record 122 with a limit of five,
    the iterator yields record 123, which has no next link. *)
Lemma absent_link_ends_sequence_witness :
  Paginator.walking (CreatorIterator.Created FetchDirection.newer (Some 5))
    = Some FetchDirection.newer /\
  (CreatorIterator.next Sample.world
     (CreatorIterator.Created FetchDirection.newer (Some 5)) Sample.resumed_env).1
    = Ok (Some Sample.post123,
          CreatorIterator.AtYield FetchDirection.newer 123 Sample.post123 (Some 4%nat)) /\
  CreatorIterator.next_post FetchDirection.newer Sample.post123 = None /\
  exists e'',
    CreatorIterator.next Sample.world
      (CreatorIterator.AtYield FetchDirection.newer 123 Sample.post123 (Some 4%nat))
      (CreatorIterator.next Sample.world
         (CreatorIterator.Created FetchDirection.newer (Some 5)) Sample.resumed_env).2
      = (Ok (None, CreatorIterator.Finished), e'').
Proof.
  assert (CreatorIterator.next Sample.world
            (CreatorIterator.Created FetchDirection.newer (Some 5)) Sample.resumed_env
          = (Ok (Some Sample.post123,
                 CreatorIterator.AtYield FetchDirection.newer 123 Sample.post123
                   (Some 4%nat)),
             (CreatorIterator.next Sample.world
                (CreatorIterator.Created FetchDirection.newer (Some 5))
                Sample.resumed_env).2)) as H
    by (vm_compute; reflexivity).
  split; [reflexivity|]. split; [vm_compute; reflexivity|]. split; [reflexivity|].
  destruct (absent_link_ends_sequence Sample.world FetchDirection.newer
              (CreatorIterator.Created FetchDirection.newer (Some 5))
              Sample.resumed_env Sample.post123 _ _ eq_refl H eq_refl)
    as (e'' & Hn & _).
  exists e''. exact Hn.
Defined.

(** C7, witness: a fresh subscription fetched with a limit of one. *)
Lemma limit_bounds_run_witness :
  0 <= 1 /\
  (CreatorIterator.drain Sample.world 5 (CreatorIterator.Created FetchDirection.newer (Some 1))
     [] Sample.fresh_env).1
    = Ok ([Sample.post123], CreatorIterator.Finished) /\
  (Paginator.requests
     (trace (CreatorIterator.core
        (CreatorIterator.drain Sample.world 5
           (CreatorIterator.Created FetchDirection.newer (Some 1%Z)) [] Sample.fresh_env).2))
   <= Paginator.requests (trace (CreatorIterator.core Sample.fresh_env)) + Z.to_nat 1%Z + 1)%nat.
Proof.
  split; [lia|]. split; [vm_compute; reflexivity|].
  exact (proj1 (limit_bounds_run Sample.world FetchDirection.newer 1 5 Sample.fresh_env
                  _ _ ltac:(lia) (surjective_pairing _))).
Defined.

(** C8, witness: the fresh subscription of the sample. *)
Lemma fresh_fetch_walks_older_witness :
  CreatorIterator.tail_id (CreatorIterator.self Sample.fresh_env) = None /\
  CreatorIterator.fetch Sample.world 5 FetchDirection.newer (Some 1) Sample.fresh_env
    = CreatorIterator.fetch Sample.world 5 FetchDirection.older (Some 1) Sample.fresh_env.
Proof.
  split; [reflexivity|].
  exact (fresh_fetch_walks_older Sample.world 5 (Some 1) Sample.fresh_env eq_refl).
Defined.

(** *** The normalizer: what every run keeps *)

Section Keeps.
Import Normalizer.

Lemma same_post_refl p : same_post p p.
Proof. repeat split. Qed.
Lemma same_post_trans p q r : same_post p q -> same_post q r -> same_post p r.
Proof. unfold same_post. intuition congruence. Qed.
Lemma same_file_refl f : same_file f f.
Proof. repeat split. Qed.
Lemma same_file_trans f g h : same_file f g -> same_file g h -> same_file f h.
Proof. unfold same_file. intuition congruence. Qed.

#[global] Instance extends_preorder : PreOrder extends.
Proof.
  split.
  - intros s. split; eauto using same_post_refl, same_file_refl.
  - intros s1 s2 s3 [Hs1 Hp1 Hf1] [Hs2 Hp2 Hf2]. split.
    + congruence.
    + intros h p Hh. destruct (Hp1 _ _ Hh) as (p' & Hh' & Hpp).
      destruct (Hp2 _ _ Hh') as (p'' & Hh'' & Hpp').
      eauto using same_post_trans.
    + intros h f Hh. destruct (Hf1 _ _ Hh) as (f' & Hh' & Hff).
      destruct (Hf2 _ _ Hh') as (f'' & Hh'' & Hff').
      eauto using same_file_trans.
Qed.

#[global] Instance stable_preorder : PreOrder stable.
Proof.
  split.
  - intros s. split; [reflexivity | reflexivity | reflexivity].
  - intros s1 s2 s3 [He1 Hp1 Hf1] [He2 Hp2 Hf2]. split.
    + etransitivity; eassumption.
    + congruence.
    + congruence.
Qed.

Lemma keeps_weaken (R R' : Store -> Store -> Prop) {A} (c : M Store A) :
  (forall s s', R s s' -> R' s s') -> keeps R c -> keeps R' c.
Proof. intros HR Hc s r s' H. eauto. Qed.

Lemma stable_keeps_extends {A} (c : M Store A) : keeps stable c -> keeps extends c.
Proof. apply keeps_weaken. intros s s' []. assumption. Qed.

Section Generic.
Context (R : Store -> Store -> Prop) `{!PreOrder R}.

Lemma keeps_ret {A} (a : A) : keeps R (ret a).
Proof. intros s r s' H. inversion H; subst. reflexivity. Qed.

Lemma keeps_raise {A} (e : exn) : keeps R (@raise Store A e).
Proof. intros s r s' H. inversion H; subst. reflexivity. Qed.

Lemma keeps_gets {A} (f : Store -> A) : keeps R (gets f).
Proof. intros s r s' H. inversion H; subst. reflexivity. Qed.

Lemma keeps_bind {A B} (c : M Store A) (k : A -> M Store B) :
  keeps R c -> (forall a, keeps R (k a)) -> keeps R (bind c k).
Proof.
  intros Hc Hk s r s' H.
  apply bind_inv in H as [(a & s1 & H1 & H2)|(e & H1 & _)].
  - etransitivity; [eapply Hc | eapply Hk]; eassumption.
  - eapply Hc; eassumption.
Qed.

Lemma keeps_foldM {A B} (f : B -> A -> M Store B) (xs : list A) :
  (forall acc x, keeps R (f acc x)) -> forall acc, keeps R (foldM f xs acc).
Proof.
  intros Hf. induction xs as [|x xs IH]; intros acc; simpl.
  - apply keeps_ret.
  - apply keeps_bind; auto.
Qed.

Lemma keeps_for_each {A} (xs : list A) (body : A -> M Store unit) :
  (forall x, keeps R (body x)) -> keeps R (for_each xs body).
Proof. intros Hb. unfold for_each. apply keeps_foldM. auto. Qed.

Lemma keeps_one_or_none {A} (rows : list A) : keeps R (one_or_none rows).
Proof.
  destruct rows as [|x [|y rows]]; simpl;
    [apply keeps_ret | apply keeps_ret | apply keeps_raise].
Qed.

Lemma keeps_flush : keeps R flush.
Proof. apply keeps_ret. Qed.

Lemma keeps_when_needed {A} (cond : bool) (c : M Store A) :
  keeps R c -> keeps R (Fantia.when_needed cond c).
Proof.
  intros Hc. unfold Fantia.when_needed. destruct cond.
  - apply keeps_bind; [assumption | intros a; apply keeps_ret].
  - apply keeps_ret.
Qed.

End Generic.

(** Changing the trace only. *)
Lemma stable_with_trace s tr : stable s (with_trace tr s).
Proof.
  split; [split|..]; simpl; eauto using same_post_refl, same_file_refl.
Qed.

Lemma keeps_emit ev : keeps stable (emit ev).
Proof. intros s r s' H. inversion H; subst. apply stable_with_trace. Qed.

Lemma keeps_log level format : keeps stable (log level format).
Proof. apply keeps_emit. Qed.

Lemma keeps_commit : keeps stable commit.
Proof. apply keeps_emit. Qed.

Lemma keeps_get_post h : keeps stable (get_post h).
Proof.
  intros s r s' H. unfold get_post in H.
  destruct (remote_posts s !! h); inversion H; subst; reflexivity.
Qed.

Lemma keeps_get_file h : keeps stable (get_file h).
Proof.
  intros s r s' H. unfold get_file in H.
  destruct (files s !! h); inversion H; subst; reflexivity.
Qed.

Lemma keeps_get_tag h : keeps stable (get_tag h).
Proof.
  intros s r s' H. unfold get_tag in H.
  destruct (remote_tags s !! h); inversion H; subst; reflexivity.
Qed.

Lemma keeps_query_remote_post original_id : keeps stable (query_remote_post original_id).
Proof. intros s r s' H. unfold query_remote_post in H. eapply keeps_one_or_none; [typeclasses eauto|eassumption]. Qed.

Lemma keeps_query_related a b : keeps stable (query_related a b).
Proof. intros s r s' H. unfold query_related in H. eapply keeps_one_or_none; [typeclasses eauto|eassumption]. Qed.

Lemma stable_with_related s v : stable s (with_related v s).
Proof.
  split; [split|..]; simpl; eauto using same_post_refl, same_file_refl.
Qed.

Lemma stable_with_remote_tags s v : stable s (with_remote_tags v s).
Proof.
  split; [split|..]; simpl; eauto using same_post_refl, same_file_refl.
Qed.

Lemma keeps_append_related remote_post content_post :
  keeps stable (append_related remote_post content_post).
Proof.
  unfold append_related.
  apply keeps_bind; [typeclasses eauto | apply keeps_get_post | intros p].
  apply keeps_bind; [typeclasses eauto | apply keeps_get_post | intros c].
  intros s r s' H. inversion H; subst. apply stable_with_related.
Qed.

Lemma keeps_get_remote_tag category name : keeps stable (get_remote_tag category name).
Proof.
  intros s r s' H. unfold get_remote_tag in H.
  destruct (select _ (remote_tags s)) as [|[h g] rest]; inversion H; subst.
  - apply stable_with_remote_tags.
  - reflexivity.
Qed.

Lemma keeps_update_tag h f : keeps stable (update_tag h f).
Proof. intros s r s' H. inversion H; subst. apply stable_with_remote_tags. Qed.

Lemma stable_alter_post s h f :
  (forall p, same_post p (f p)) ->
  stable s (with_remote_posts (alter f h (remote_posts s)) s).
Proof.
  intros Hf. split; [split|..]; simpl; eauto using same_file_refl.
  - intros h' p Hh. destruct (decide (h = h')) as [->|Hne].
    + rewrite list_lookup_alter_eq, Hh. simpl. eauto.
    + rewrite list_lookup_alter_ne by assumption. eauto using same_post_refl.
  - apply length_alter.
Qed.

Lemma keeps_update_post h f :
  (forall p, same_post p (f p)) -> keeps stable (update_post h f).
Proof. intros Hf s r s' H. inversion H; subst. apply stable_alter_post, Hf. Qed.

Lemma stable_alter_file s h f :
  (forall x, same_file x (f x)) ->
  stable s (with_files (alter f h (files s)) s).
Proof.
  intros Hf. split; [split|..]; simpl; eauto using same_post_refl.
  - intros h' x Hh. destruct (decide (h = h')) as [->|Hne].
    + rewrite list_lookup_alter_eq, Hh. simpl. eauto.
    + rewrite list_lookup_alter_ne by assumption. eauto using same_file_refl.
  - apply length_alter.
Qed.

Lemma keeps_import_file file orig thumb : keeps stable (import_file file orig thumb).
Proof.
  unfold import_file.
  apply keeps_bind; [typeclasses eauto | apply keeps_emit | intros _].
  intros s r s' H. inversion H; subst. apply stable_alter_file.
  intros x. split; reflexivity.
Qed.

(** The two operations that make the session grow. *)
Lemma keeps_add_new_post p : keeps extends (add_new_post p).
Proof.
  intros s r s' H. inversion H; subst. split; simpl; eauto using same_file_refl.
  intros h q Hh. exists q. split; [|apply same_post_refl].
  rewrite lookup_app_l; [assumption | eapply lookup_lt_Some; eassumption].
Qed.

Lemma keeps_add_new_file f : keeps extends (add_new_file f).
Proof.
  intros s r s' H. inversion H; subst. split; simpl; eauto using same_post_refl.
  intros h q Hh. exists q. split; [|apply same_file_refl].
  rewrite lookup_app_l; [assumption | eapply lookup_lt_Some; eassumption].
Qed.

End Keeps.

Create HintDb keeps.

#[global] Hint Resolve keeps_emit keeps_log keeps_commit keeps_get_post keeps_get_file
  keeps_get_tag keeps_query_remote_post keeps_query_related keeps_append_related
  keeps_get_remote_tag keeps_update_tag keeps_import_file
  keeps_add_new_post keeps_add_new_file : keeps.
#[global] Hint Resolve same_post_refl : keeps.

(** One step through the structure of a computation. *)
Ltac keeps_step R :=
  first
    [ solve [eauto with keeps]
    | solve [apply stable_keeps_extends; eauto with keeps]
    | apply (keeps_ret R)
    | apply (keeps_raise R)
    | apply (keeps_gets R)
    | apply (keeps_flush R)
    | apply (keeps_one_or_none R)
    | apply (keeps_when_needed R)
    | apply (keeps_bind R); [|intros ?]
    | apply (keeps_foldM R); intros ? ?
    | apply (keeps_for_each R); intros ?
    | match goal with
      | |- Normalizer.keeps _ (match ?x with _ => _ end) => destruct x
      | |- Normalizer.keeps _ (if ?b then _ else _) => destruct b
      end ].

Ltac keeps_all R := repeat (cbv zeta; keeps_step R).

Section KeepsPlugin.
Import Normalizer.
Context (W : World).

Lemma keeps_download_file url filename : keeps stable (Fantia._download_file W url filename).
Proof. unfold Fantia._download_file. keeps_all stable. Qed.

Lemma keeps_post_time_of post : keeps stable (Fantia.post_time_of W post).
Proof. unfold Fantia.post_time_of. keeps_all stable. Qed.

Lemma keeps_attach_tags post p : keeps stable (Fantia.attach_tags post p).
Proof. unfold Fantia.attach_tags. keeps_all stable. Qed.

Lemma keeps_resolve_file file preview orig_url thumb_url :
  keeps stable (Fantia.resolve_file W file preview orig_url thumb_url).
Proof.
  unfold Fantia.resolve_file. keeps_all stable.
Qed.

Lemma keeps_thumb_attr post attr name : keeps stable (Fantia.thumb_attr post attr name).
Proof. unfold Fantia.thumb_attr. keeps_all stable. Qed.

Lemma keeps_py_split v sep : keeps stable (@Fantia.py_split Store v sep).
Proof. unfold Fantia.py_split. keeps_all stable. Qed.

Lemma keeps_set_type v : forall p, same_post p (RemotePost.set_type v p).
Proof. intros p. repeat split. Qed.

Lemma keeps_set_comment v : forall p, same_post p (RemotePost.set_comment v p).
Proof. intros p. repeat split. Qed.

End KeepsPlugin.

#[global] Hint Resolve keeps_download_file keeps_post_time_of keeps_attach_tags
  keeps_resolve_file keeps_thumb_attr keeps_py_split : keeps.
#[global] Hint Resolve keeps_update_post keeps_set_type keeps_set_comment : keeps.

Section ExtendsPlugin.
Import Normalizer.
Context (W : World).

Lemma extends_current_or_new_file remote_post current_files order :
  keeps extends (Fantia.current_or_new_file remote_post current_files order).
Proof. unfold Fantia.current_or_new_file. keeps_all extends. Qed.
Hint Resolve extends_current_or_new_file : keeps.

Lemma extends_gallery_photo remote_post current_files preview photo :
  keeps extends (Fantia.gallery_photo W remote_post current_files preview photo).
Proof. unfold Fantia.gallery_photo. keeps_all extends. Qed.
Hint Resolve extends_gallery_photo : keeps.

Lemma extends_blog_section remote_post current_files preview blog section :
  keeps extends (Fantia.blog_section W remote_post current_files preview blog section).
Proof. unfold Fantia.blog_section. keeps_all extends. Qed.
Hint Resolve extends_blog_section : keeps.

Lemma extends_find_or_create_content_post post content post_time :
  keeps extends (Fantia.find_or_create_content_post post content post_time).
Proof. unfold Fantia.find_or_create_content_post. keeps_all extends. Qed.
Hint Resolve extends_find_or_create_content_post : keeps.

Lemma extends_content_to_post post content remote_post preview :
  keeps extends (Fantia._content_to_post W post content remote_post preview).
Proof. unfold Fantia._content_to_post. keeps_all extends. Qed.
Hint Resolve extends_content_to_post : keeps.

Lemma extends_update_existing post remote_post preview :
  keeps extends (Fantia.update_existing W post remote_post preview).
Proof. unfold Fantia.update_existing. keeps_all extends. Qed.
Hint Resolve extends_update_existing : keeps.

Lemma extends_find_or_create_collection_post post post_time :
  keeps extends (Fantia.find_or_create_collection_post post post_time).
Proof. unfold Fantia.find_or_create_collection_post. keeps_all extends. Qed.
Hint Resolve extends_find_or_create_collection_post : keeps.

Lemma extends_collection_thumbnail post remote_post preview :
  keeps extends (Fantia.collection_thumbnail W post remote_post preview).
Proof. unfold Fantia.collection_thumbnail. keeps_all extends. Qed.
Hint Resolve extends_collection_thumbnail : keeps.

Lemma extends_content_step post remote_post preview remote_posts content :
  keeps extends (Fantia.content_step W post remote_post preview remote_posts content).
Proof. unfold Fantia.content_step. keeps_all extends. Qed.
Hint Resolve extends_content_step : keeps.

Lemma extends_to_remote_posts post remote_post preview :
  keeps extends (Fantia._to_remote_posts W post remote_post preview).
Proof. unfold Fantia._to_remote_posts. keeps_all extends. Qed.

End ExtendsPlugin.

#[global] Hint Resolve extends_current_or_new_file extends_gallery_photo
  extends_blog_section extends_find_or_create_content_post extends_content_to_post
  extends_update_existing extends_find_or_create_collection_post
  extends_collection_thumbnail extends_content_step extends_to_remote_posts : keeps.

(** *** Unknown categories and unknown blog segments *)

Section Unknown.
Import Normalizer.
Context (W : World).

Lemma always_raises_bind {A B} (c : M Store A) (k : A -> M Store B) :
  (forall a, always_raises (k a)) -> always_raises (bind c k).
Proof.
  intros Hk s. unfold bind. destruct (c s) as [[a|e] s1]; simpl.
  - apply Hk.
  - eauto.
Qed.

Lemma always_raises_bind_l {A B} (c : M Store A) (k : A -> M Store B) :
  always_raises c -> always_raises (bind c k).
Proof.
  intros Hc s. destruct (Hc s) as [e He]. unfold bind.
  destruct (c s) as [[a|e'] s1]; simpl in *; [discriminate | eauto].
Qed.

Lemma known_category_false category :
  known_category category = false ->
  String.eqb category "file" = false /\
  String.eqb category "photo_gallery" = false /\
  String.eqb category "text" = false /\
  String.eqb category "blog" = false.
Proof.
  unfold known_category. intros H.
  repeat (apply orb_false_elim in H as [H ?]). auto.
Qed.

Lemma content_to_post_unknown_category post content remote_post preview :
  known_category (Content.category content) = false ->
  always_raises (Fantia._content_to_post W post content remote_post preview).
Proof.
  intros Hc. apply known_category_false in Hc as (H1 & H2 & H3 & H4).
  unfold Fantia._content_to_post.
  apply always_raises_bind; intros post_time.
  apply always_raises_bind; intros _.
  apply always_raises_bind; intros h.
  apply always_raises_bind_l.
  rewrite H1, H2, H3, H4. intros s. eexists. reflexivity.
Qed.

Lemma blog_section_entry remote_post current_files preview blog section s blog' s' :
  Fantia.blog_section W remote_post current_files preview blog section s = (Ok blog', s') ->
  blog' = blog ++ option_list (entry_of section).
Proof.
  destruct section as [[text|[image|]|]|e]; simpl; intros H.
  - inversion H; subst. reflexivity.
  - apply bind_inv in H as [(file & s1 & _ & H)|(e & _ & ?)]; [|discriminate].
    apply bind_inv in H as [([] & s2 & _ & H)|(e & _ & ?)]; [|discriminate].
    inversion H; subst. reflexivity.
  - inversion H; subst. rewrite app_nil_r. reflexivity.
  - inversion H; subst. rewrite app_nil_r. reflexivity.
  - discriminate H.
Qed.

Lemma blog_sections_entries remote_post current_files preview sections :
  forall blog s blog' s',
    foldM (Fantia.blog_section W remote_post current_files preview) sections blog s
      = (Ok blog', s') ->
    blog' = blog ++ omap entry_of sections.
Proof.
  induction sections as [|section sections IH]; intros blog s blog' s' H; simpl in *.
  - inversion H; subst. rewrite app_nil_r. reflexivity.
  - apply bind_inv in H as [(blog1 & s1 & H1 & H)|(e & _ & ?)]; [|discriminate].
    apply blog_section_entry in H1. apply IH in H. subst.
    destruct (entry_of section); simpl; rewrite <- ?app_assoc; reflexivity.
Qed.

(** A segment whose [insert] has no known form contributes nothing and
    raises nothing.  Only the object without [fantiaImage] leaves a
    warning; for any other value the loop body has no branch at all. *)
Lemma unknown_insert_dropped (remote_post : nat) (current_files : gmap Z nat)
    (preview : bool) (blog : list blog_entry) (insert : insert) (st : Store) :
  unknown_form insert ->
  Fantia.blog_section W remote_post current_files preview blog (Segment insert) st =
    (Ok blog,
     match insert with
     | InsertDynamic None =>
         with_trace (trace st ++ [Log LWarning "unknown blog insert: %s"]) st
     | _ => st
     end).
Proof.
  intros Hu. destruct insert as [text|[image|]|]; try discriminate Hu; reflexivity.
Qed.

End Unknown.

(** C9. A visible blog item whose document is the text "hello", one
    more segment, and the text "bye".  When the [insert] of that
    segment is a number, the item is normalized to the entries "hello"
    and "bye" and the run leaves no warning: the segment is dropped
    without being logged.  When it is an object without [fantiaImage],
    the same run leaves the warning [unknown blog insert]. *)
Theorem unknown_segment_not_logged :
  let item := Sample.content 48 "blog" "visible" in
  let run := fun section =>
    Fantia._content_to_post
      (Sample.world_with_ops
         [Segment (InsertStr "hello"); section; Segment (InsertStr "bye")])
      (Sample.post 123 [item] None None) item None false Sample.empty_store in
  (run (Segment InsertOther)).1 = Ok 0%nat /\
  RemotePost.comment <$> remote_posts (run (Segment InsertOther)).2 !! 0%nat
    = Some (BlogJson [BlogText "hello"; BlogText "bye"]) /\
  Normalizer.warnings (trace (run (Segment InsertOther)).2) = [] /\
  (run (Segment (InsertDynamic None))).1 = Ok 0%nat /\
  RemotePost.comment <$> remote_posts (run (Segment (InsertDynamic None))).2 !! 0%nat
    = Some (BlogJson [BlogText "hello"; BlogText "bye"]) /\
  Normalizer.warnings (trace (run (Segment (InsertDynamic None))).2)
    = ["unknown blog insert: %s"].
Proof. vm_compute. repeat split. Qed.

(** *** Updating an existing sub-content post *)

Section Anchor.
Import Normalizer.
Context (W : World).

(** An anchor whose primary key is an integer: the method stops at
    [remote_post.id.split('-')], before it looks at the record. *)
Lemma anchor_with_integer_id_raises post (remote_post : nat) preview (st : Store) p n :
  remote_posts st !! remote_post = Some p ->
  RemotePost.id p = PyInt n ->
  is_Some (parse_time W (Post.posted_at post)) ->
  (Fantia._to_remote_posts W post (Some remote_post) preview st).1 =
    Raise (AttributeError "'int' object has no attribute 'split'").
Proof.
  intros Hp Hid [t Ht].
  unfold Fantia._to_remote_posts, Fantia.post_time_of. rewrite Ht.
  unfold bind at 1. simpl. unfold bind at 1. simpl.
  unfold bind at 1. unfold Fantia.update_existing.
  unfold bind at 1. unfold get_post. simpl. rewrite Hp.
  unfold bind at 1. rewrite Hid. reflexivity.
Qed.

(** Were the primary key the text "{record_id}-{content_id}", the same
    statements would give the anchor back untouched when the content is
    missing or hidden. *)
Lemma anchor_with_textual_id_kept post (remote_post : nat) preview (st : Store) p s a b n :
  remote_posts st !! remote_post = Some p ->
  RemotePost.id p = PyStr s ->
  split "-" s = [a; b] ->
  int_of_str b = Some n ->
  match List.find (fun c => Z.eqb (Content.id c) n) (Post.post_contents post) with
  | Some content => visible content = false
  | None => True
  end ->
  Fantia.update_existing W post remote_post preview st = (Ok (Some [remote_post]), st).
Proof.
  intros Hp Hid Hs Hn Hc. unfold Fantia.update_existing.
  rewrite (bind_ok _ _ st p st) by (unfold get_post; rewrite Hp; reflexivity).
  rewrite Hid. simpl. rewrite (bind_ok _ _ st [a; b] st) by (rewrite Hs; reflexivity).
  rewrite Hn. rewrite (bind_ok _ _ st n st) by reflexivity.
  destruct (List.find _ _) as [content|]; [|reflexivity].
  unfold visible in Hc. rewrite Hc. reflexivity.
Qed.

End Anchor.

(** C3. The sub-content post "123-45" of the sample session (handle 1,
    primary key 2), re-normalized against record 123 once content 45
    has been removed: the method raises [AttributeError] instead of
    returning the post. *)
Theorem update_of_removed_content_raises :
  Normalizer.identity Sample.store123 1 = Some (1, "123-45") /\
  RemotePost.id <$> remote_posts Sample.store123 !! 1%nat = Some (PyInt 2) /\
  List.find (fun c => Z.eqb (Content.id c) 45)
            (Post.post_contents Sample.post123_without_45) = None /\
  (Fantia._to_remote_posts Sample.world Sample.post123_without_45 (Some 1%nat) false
     Sample.store123).1
    = Raise (AttributeError "'int' object has no attribute 'split'").
Proof. vm_compute. repeat split. Qed.

(** *** Queries and the objects they find *)

Section Select.
Context {A : Type} (P : A -> bool).

Lemma elem_of_select_from (l : list A) : forall i h x,
  (h, x) ∈ select_from P i l <->
  (i <= h)%nat /\ l !! (h - i)%nat = Some x /\ P x = true.
Proof.
  induction l as [|y l IH]; intros i h x; simpl.
  - split; [intros H; inversion H | intros (_ & H & _); discriminate].
  - destruct (P y) eqn:HP.
    + rewrite elem_of_cons, IH. split.
      * intros [Heq|(Hle & Hl & Hx)].
        -- inversion Heq; subst. rewrite Nat.sub_diag. auto.
        -- replace (h - i)%nat with (S (h - S i)) by lia. auto with lia.
      * intros (Hle & Hl & Hx). destruct (decide (h = i)) as [->|Hne].
        -- rewrite Nat.sub_diag in Hl. inversion Hl; subst. auto.
        -- right. replace (h - i)%nat with (S (h - S i)) in Hl by lia.
           auto with lia.
    + rewrite IH. split.
      * intros (Hle & Hl & Hx).
        replace (h - i)%nat with (S (h - S i)) by lia. auto with lia.
      * intros (Hle & Hl & Hx). destruct (decide (h = i)) as [->|Hne].
        -- rewrite Nat.sub_diag in Hl. inversion Hl; subst. congruence.
        -- replace (h - i)%nat with (S (h - S i)) in Hl by lia. auto with lia.
Qed.

Lemma elem_of_select (l : list A) h x :
  (h, x) ∈ select P l <-> l !! h = Some x /\ P x = true.
Proof.
  unfold select. rewrite elem_of_select_from, Nat.sub_0_r.
  split; [tauto | auto with lia].
Qed.

End Select.

Section Monotone.
Import Normalizer.

Lemma is_post_extends s s' h original_id :
  extends s s' -> is_post s h original_id -> is_post s' h original_id.
Proof.
  intros [Hs Hp _] (p & Hh & Hsrc & Hid).
  destruct (Hp _ _ Hh) as (p' & Hh' & _ & Hsrc' & Hid').
  exists p'. split; [assumption|]. split; congruence.
Qed.

Lemma has_file_extends s s' h order :
  extends s s' -> has_file s h order -> has_file s' h order.
Proof.
  intros [_ _ Hf] (fh & f & Hh & Hr & Ho).
  destruct (Hf _ _ Hh) as (f' & Hh' & Hr' & Ho').
  exists fh, f'. split; [assumption|]. split; congruence.
Qed.

Lemma owns_file_extends s s' h :
  extends s s' -> owns_file s h -> owns_file s' h.
Proof.
  intros [_ _ Hf] (fh & f & Hh & Hr).
  destruct (Hf _ _ Hh) as (f' & Hh' & Hr' & _).
  exists fh, f'. split; [assumption|]. congruence.
Qed.

Lemma content_files_extends W content s s' h :
  extends s s' -> content_files W content s h -> content_files W content s' h.
Proof.
  intros He. unfold content_files.
  destruct (String.eqb (Content.category content) "file");
    [apply owns_file_extends; assumption|].
  destruct (String.eqb (Content.category content) "photo_gallery");
    [intros H photo Hin; eapply has_file_extends; eauto|].
  destruct (String.eqb (Content.category content) "text"); [auto|].
  destruct (String.eqb (Content.category content) "blog"); [|auto].
  intros H ops image Hops Hin. eapply has_file_extends; eauto.
Qed.

Lemma materialised_extends W post content s s' h :
  extends s s' -> materialised W post s content h -> materialised W post s' content h.
Proof.
  intros He [Hp Hf]. split;
    eauto using is_post_extends, content_files_extends.
Qed.

(** A state that holds no post and no file more has the same posts
    and the same files, by identity. *)
Lemma stable_keys s s' :
  stable s s' -> post_keys s' = post_keys s /\ file_keys s' = file_keys s.
Proof.
  intros [[_ Hp Hf] Hlp Hlf]. unfold post_keys, file_keys. split.
  - apply list_eq. intros i. rewrite !list_lookup_fmap.
    destruct (remote_posts s !! i) as [p|] eqn:Hi.
    + destruct (Hp _ _ Hi) as (p' & -> & _ & Hsrc & Hid). simpl. congruence.
    + apply lookup_ge_None in Hi. rewrite <- Hlp in Hi.
      apply lookup_ge_None in Hi. rewrite Hi. reflexivity.
  - apply list_eq. intros i. rewrite !list_lookup_fmap.
    destruct (files s !! i) as [f|] eqn:Hi.
    + destruct (Hf _ _ Hi) as (f' & -> & Hr & Ho). simpl. congruence.
    + apply lookup_ge_None in Hi. rewrite <- Hlf in Hi.
      apply lookup_ge_None in Hi. rewrite Hi. reflexivity.
Qed.

End Monotone.

Section Queries.
Import Normalizer.

Lemma one_or_none_state {A} (rows : list A) (s : Store) r s' :
  one_or_none rows s = (r, s') -> s' = s.
Proof.
  destruct rows as [|x [|y rows]]; simpl; intros H; inversion H; reflexivity.
Qed.

Lemma elem_of_posts_by_original_id original_id s h :
  is_post s h original_id <->
  exists p, (h, p) ∈ posts_by_original_id original_id s.
Proof.
  unfold is_post, posts_by_original_id. split.
  - intros (p & Hh & Hsrc & Hid). exists p. apply elem_of_select.
    split; [assumption|]. apply andb_true_intro. split.
    + apply Z.eqb_eq. assumption.
    + apply String.eqb_eq. assumption.
  - intros (p & Hin). apply elem_of_select in Hin as (Hh & HP).
    apply andb_prop in HP as [H1 H2].
    apply Z.eqb_eq in H1. apply String.eqb_eq in H2. eauto.
Qed.

(** A post the query gives back is a post of that identity. *)
Lemma query_remote_post_found original_id s h s' :
  query_remote_post original_id s = (Ok (Some h), s') ->
  s' = s /\ is_post s h original_id.
Proof.
  unfold query_remote_post. intros H.
  split; [eapply one_or_none_state; eassumption|].
  destruct (posts_by_original_id original_id s) as [|[h1 p1] [|hp2 rows]] eqn:Hq;
    simpl in H; inversion H; subst.
  apply elem_of_posts_by_original_id. exists p1. rewrite Hq. apply list_elem_of_here.
Qed.

(** The query for the identity of a post the session holds gives that
    post, unless it finds several. *)
Lemma query_remote_post_of_is_post original_id s h r s' :
  is_post s h original_id ->
  query_remote_post original_id s = (r, s') ->
  s' = s /\ (r = Ok (Some h) \/ r = Raise MultipleResultsFound).
Proof.
  intros Hp H. split; [eapply one_or_none_state; exact H|].
  apply elem_of_posts_by_original_id in Hp as (p & Hin).
  unfold query_remote_post in H.
  destruct (posts_by_original_id original_id s) as [|[h1 p1] [|hp2 rows]] eqn:Hq;
    simpl in H; inversion H; subst.
  - inversion Hin.
  - left. apply list_elem_of_singleton in Hin. inversion Hin; subst. reflexivity.
  - right. reflexivity.
Qed.

End Queries.

(** *** The first normalization of a record: what it leaves in the session *)

Tactic Notation "ok_bind" hyp(H) "as" simple_intropattern(a) ident(s1) ident(H1) :=
  apply bind_inv in H as [(a & s1 & H1 & H)|(? & _ & ?)]; [|discriminate].

Section FirstRun.
Import Normalizer.
Context (W : World).

Lemma indexes_extends current_files s s' h :
  extends s s' -> indexes current_files s h -> indexes current_files s' h.
Proof.
  intros [_ _ Hf] Hi order file Hl.
  destruct (Hi _ _ Hl) as (f & Hh & Hr & Ho).
  destruct (Hf _ _ Hh) as (f' & Hh' & Hr' & Ho').
  exists f'. split; [assumption|]. split; congruence.
Qed.

Lemma elem_of_post_files s h fh f :
  (fh, f) ∈ post_files h s <-> files s !! fh = Some f /\ File.remote f = h.
Proof.
  unfold post_files. rewrite elem_of_select, Nat.eqb_eq. reflexivity.
Qed.

Lemma current_files_of_indexes s h : indexes (Fantia.current_files_of h s) s h.
Proof.
  intros order file Hl. unfold Fantia.current_files_of in Hl.
  apply elem_of_list_to_map_2 in Hl.
  apply elem_of_reverse, list_elem_of_fmap in Hl as ([fh f] & Heq & Hin).
  simpl in Heq. inversion Heq; subst.
  apply elem_of_post_files in Hin as [Hh Hr]. eauto.
Qed.

Lemma current_files_of_complete s h order :
  has_file s h order -> is_Some (Fantia.current_files_of h s !! order).
Proof.
  intros (fh & f & Hh & Hr & Ho).
  destruct (Fantia.current_files_of h s !! order) as [x|] eqn:Hl; [eauto|].
  exfalso. unfold Fantia.current_files_of in Hl.
  apply not_elem_of_list_to_map_2 in Hl. apply Hl.
  apply list_elem_of_fmap. exists (order, fh). split; [reflexivity|].
  apply elem_of_reverse, list_elem_of_fmap. exists (fh, f).
  split; [simpl; congruence|]. apply elem_of_post_files. auto.
Qed.

Lemma post_files_nil s h : post_files h s = [] -> ~ owns_file s h.
Proof.
  intros Hn (fh & f & Hh & Hr).
  assert ((fh, f) ∈ post_files h s) as Hin by (apply elem_of_post_files; auto).
  rewrite Hn in Hin. inversion Hin.
Qed.

Lemma post_files_cons s h fh f rest :
  post_files h s = (fh, f) :: rest -> files s !! fh = Some f /\ File.remote f = h.
Proof.
  intros Hc. apply elem_of_post_files. rewrite Hc. apply list_elem_of_here.
Qed.

Lemma add_new_file_spec f s fh s' :
  add_new_file f s = (Ok fh, s') ->
  files s' !! fh = Some f /\ extends s s'.
Proof.
  intros H. split; [|eapply keeps_add_new_file; eassumption].
  inversion H; subst. simpl. apply list_lookup_middle. reflexivity.
Qed.

(** The tags change nothing of the identity of the post built. *)
Lemma attach_tags_same_post post p s p' s' :
  Fantia.attach_tags post p s = (Ok p', s') -> same_post p p'.
Proof.
  unfold Fantia.attach_tags. cbv zeta. intros H.
  ok_bind H as creator_tag s1 H1.
  ok_bind H as metadata s2 H2.
  ok_bind H as u s3 H3.
  ok_bind H as q s4 H4.
  assert (Hfold : forall names p0 s0 q0 s0',
    foldM (fun p name =>
             remote_tag <- get_remote_tag TagCategory.general name ;;
             ret {| RemotePost.id := RemotePost.id p;
                    RemotePost.source_id := RemotePost.source_id p;
                    RemotePost.original_id := RemotePost.original_id p;
                    RemotePost.url := RemotePost.url p;
                    RemotePost.title := RemotePost.title p;
                    RemotePost.comment := RemotePost.comment p;
                    RemotePost.type := RemotePost.type p;
                    RemotePost.post_time := RemotePost.post_time p;
                    RemotePost.metadata_ := RemotePost.metadata_ p;
                    RemotePost.favorite := RemotePost.favorite p;
                    RemotePost.tags := RemotePost.tags p ++ [remote_tag] |})
          names p0 s0 = (Ok q0, s0') -> same_post p0 q0).
  { induction names as [|name names IH]; intros p0 s0 q0 s0' Hf; simpl in Hf.
    - inversion Hf; subst. apply same_post_refl.
    - ok_bind Hf as p1 s1' Hf1. ok_bind Hf1 as t s1'' Hf1'.
      inversion Hf1; subst. apply IH in Hf.
      eapply same_post_trans; [|exact Hf]. repeat split. }
  apply Hfold in H4.
  assert (same_post p q) as Hpq
    by (eapply same_post_trans; [|exact H4]; repeat split).
  destruct (String.eqb (Post.rating post) "adult").
  - ok_bind H as nsfw s5 H5. inversion H; subst.
    eapply same_post_trans; [exact Hpq|]. repeat split.
  - inversion H; subst. exact Hpq.
Qed.

Lemma add_new_post_is_post p s h s' :
  add_new_post p s = (Ok h, s') ->
  RemotePost.source_id p = core_source_id s ->
  is_post s' h (RemotePost.original_id p).
Proof.
  intros H Hsrc. inversion H; subst.
  exists (set_id (fresh_id s) p). simpl.
  split; [apply list_lookup_middle; reflexivity|]. auto.
Qed.

Lemma find_or_create_content_post_is_post post content post_time s h s' :
  Fantia.find_or_create_content_post post content post_time s = (Ok h, s') ->
  is_post s' h (Fantia.content_original_id post content).
Proof.
  unfold Fantia.find_or_create_content_post. cbv zeta. intros H.
  ok_bind H as found s1 H1. destruct found as [h1|].
  - inversion H; subst. apply query_remote_post_found in H1 as [-> Hp]. exact Hp.
  - ok_bind H as u s2 H2. ok_bind H as src s3 H3. ok_bind H as rp s4 H4.
    inversion H3; subst.
    pose proof (attach_tags_same_post _ _ _ _ _ H4) as (_ & Hsrc & Hid).
    pose proof (keeps_attach_tags _ _ _ _ _ H4) as [[Hcs _ _] _ _].
    simpl in Hsrc, Hid. rewrite <- Hid.
    eapply add_new_post_is_post; [exact H|]. congruence.
Qed.

Lemma find_or_create_collection_post_is_post post post_time s h s' :
  Fantia.find_or_create_collection_post post post_time s = (Ok h, s') ->
  is_post s' h (pretty (Post.id post)).
Proof.
  unfold Fantia.find_or_create_collection_post. cbv zeta. intros H.
  ok_bind H as found s1 H1. destruct found as [h1|].
  - inversion H; subst. apply query_remote_post_found in H1 as [-> Hp]. exact Hp.
  - ok_bind H as u s2 H2. ok_bind H as src s3 H3. ok_bind H as rp s4 H4.
    inversion H3; subst.
    pose proof (attach_tags_same_post _ _ _ _ _ H4) as (_ & Hsrc & Hid).
    pose proof (keeps_attach_tags _ _ _ _ _ H4) as [[Hcs _ _] _ _].
    simpl in Hsrc, Hid. rewrite <- Hid.
    eapply add_new_post_is_post; [exact H|]. congruence.
Qed.

Lemma current_or_new_file_has_file h current_files order s fh s' :
  indexes current_files s h ->
  Fantia.current_or_new_file h current_files order s = (Ok fh, s') ->
  has_file s' h order /\ extends s s'.
Proof.
  intros Hi H. split; [|eapply extends_current_or_new_file; eassumption].
  unfold Fantia.current_or_new_file in H.
  destruct (current_files !! order) as [file|] eqn:Hl.
  - inversion H; subst. destruct (Hi _ _ Hl) as (f & Hh & Hr & Ho).
    exists fh, f. auto.
  - ok_bind H as file s1 H1. ok_bind H as u s2 H2. ok_bind H as u' s3 H3.
    inversion H; subst. inversion H2; subst.
    apply add_new_file_spec in H1 as [Hh He].
    eapply has_file_extends; [eapply keeps_log; exact H3|].
    exists fh, (Fantia.new_file h order None). auto.
Qed.

Lemma gallery_photos_have_files h current_files preview photos :
  forall s s',
    for_each photos (Fantia.gallery_photo W h current_files preview) s = (Ok tt, s') ->
    indexes current_files s h ->
    forall photo, photo ∈ photos -> has_file s' h (Photo.id photo).
Proof.
  unfold for_each.
  induction photos as [|x photos IH]; intros s s' H Hi photo Hin.
  - inversion Hin.
  - simpl in H. ok_bind H as u s1 H1. destruct u.
    assert (extends s1 s') as He'
      by (eapply (keeps_foldM extends); [|exact H];
          intros; apply extends_gallery_photo).
    unfold Fantia.gallery_photo in H1. cbv zeta in H1.
    ok_bind H1 as fh s0 H0.
    destruct (current_or_new_file_has_file _ _ _ _ _ _ Hi H0) as [Hf He0].
    assert (extends s0 s1) as He1 by (eapply keeps_resolve_file; exact H1).
    apply elem_of_cons in Hin as [->|Hin].
    + eapply has_file_extends; [|exact Hf]. etransitivity; eassumption.
    + eapply IH; [exact H| |exact Hin].
      eapply indexes_extends; [|exact Hi]. etransitivity; eassumption.
Qed.

Lemma blog_sections_have_files h current_files preview sections :
  forall blog s blog' s',
    foldM (Fantia.blog_section W h current_files preview) sections blog s = (Ok blog', s') ->
    indexes current_files s h ->
    forall image, Segment (InsertDynamic (Some image)) ∈ sections ->
                  has_file s' h (FantiaImage.id image).
Proof.
  induction sections as [|x sections IH]; intros blog s blog' s' H Hi image Hin.
  - inversion Hin.
  - simpl in H. ok_bind H as blog1 s1 H1.
    assert (extends s1 s') as He'
      by (eapply (keeps_foldM extends); [|exact H];
          intros; apply extends_blog_section).
    assert (extends s s1) as He1 by (eapply extends_blog_section; exact H1).
    apply elem_of_cons in Hin as [<-|Hin].
    + simpl in H1. ok_bind H1 as fh s0 H0.
      destruct (current_or_new_file_has_file _ _ _ _ _ _ Hi H0) as [Hf He0].
      ok_bind H1 as u s2 H2.
      assert (extends s0 s2) as He2 by (eapply keeps_resolve_file; exact H2).
      inversion H1; subst.
      eapply has_file_extends; [|exact Hf]. etransitivity; eassumption.
    + eapply IH; [exact H| |exact Hin].
      eapply indexes_extends; eassumption.
Qed.

End FirstRun.

Section FirstRunRecord.
Import Normalizer.
Context (W : World).

(** The steps of a computation still to run keep what [R] says. *)
Ltac rest_keeps R H He :=
  match type of H with
  | ?c ?s = (_, ?s') =>
      assert (R s s') as He
        by (let K := fresh in
            assert (keeps R c) as K by (keeps_all R); exact (K _ _ _ H))
  end.

Lemma content_to_post_materialises post content preview s h s' :
  Fantia._content_to_post W post content None preview s = (Ok h, s') ->
  materialised W post s' content h.
Proof.
  unfold Fantia._content_to_post. intros H.
  ok_bind H as post_time s1 H1. ok_bind H as u s2 H2. ok_bind H as rp s3 H3.
  ok_bind H as u' s4 H4. inversion H; subst. destruct u'.
  apply find_or_create_content_post_is_post in H3.
  rest_keeps extends H4 He.
  split; [eapply is_post_extends; eassumption|].
  unfold content_files.
  destruct (String.eqb (Content.category content) "file").
  { ok_bind H4 as fs s5 H5. inversion H5; subst.
    destruct (post_files h s5) as [|[fh f] rest] eqn:Hpf.
    - ok_bind H4 as fh s6 H6. ok_bind H6 as fh' s7 H7.
      apply add_new_file_spec in H7 as [Hh He7].
      ok_bind H6 as u3 s8 H8. ok_bind H6 as u4 s9 H9. inversion H6; subst.
      inversion H8; subst.
      rest_keeps extends H4 He4.
      eapply owns_file_extends; [exact He4|].
      eapply owns_file_extends; [eapply stable_extends, keeps_log; exact H9|].
      exists fh, (Fantia.new_file h 0 (Some (Content.filename content))). auto.
    - apply post_files_cons in Hpf as [Hh Hr].
      eapply owns_file_extends; [exact He|]. exists fh, f. auto. }
  destruct (String.eqb (Content.category content) "photo_gallery").
  { ok_bind H4 as cf s5 H5. inversion H5; subst.
    eapply gallery_photos_have_files; [exact H4|].
    apply current_files_of_indexes. }
  destruct (String.eqb (Content.category content) "text"); [exact I|].
  destruct (String.eqb (Content.category content) "blog"); [|exact I].
  ok_bind H4 as cf s5 H5. inversion H5; subst.
  intros ops image Hops Hin. rewrite Hops in H4.
  ok_bind H4 as sections s6 H6. inversion H6; subst.
  ok_bind H4 as entries s7 H7.
  rest_keeps extends H4 He4.
  eapply has_file_extends; [exact He4|].
  eapply blog_sections_have_files; [exact H7| |exact Hin].
  apply current_files_of_indexes.
Qed.

Lemma collection_thumbnail_owns_file post h0 preview s s' :
  Fantia.collection_thumbnail W post h0 preview s = (Ok tt, s') ->
  Post.thumb post <> None -> owns_file s' h0.
Proof.
  unfold Fantia.collection_thumbnail. intros H Ht.
  ok_bind H as fs s1 H1. inversion H1; subst.
  destruct (post_files h0 s1) as [|[fh f] rest] eqn:Hpf.
  - destruct (Post.thumb post) as [t|]; [|congruence].
    ok_bind H as file s2 H2. ok_bind H2 as fh s3 H3. ok_bind H2 as u s4 H4.
    inversion H2; subst. inversion H4; subst.
    apply add_new_file_spec in H3 as [Hh He3].
    rest_keeps extends H He.
    eapply owns_file_extends; [exact He|].
    exists fh, (Fantia.new_file h0 0 None). auto.
  - apply post_files_cons in Hpf as [Hh Hr].
    rest_keeps extends H He.
    eapply owns_file_extends; [exact He|].
    exists fh, f. auto.
Qed.

Lemma content_step_spec post h0 preview acc content s acc' s' :
  Fantia.content_step W post h0 preview acc content s = (Ok acc', s') ->
  extends s s' /\
  if visible content
  then exists h, acc' = acc ++ [h] /\ materialised W post s' content h
  else acc' = acc.
Proof.
  intros H. split; [eapply extends_content_step; exact H|].
  unfold Fantia.content_step in H. unfold visible.
  destruct (String.eqb (Content.visible_status content) "visible").
  - ok_bind H as h s1 H1. cbv zeta in H.
    apply content_to_post_materialises in H1.
    rest_keeps extends H He.
    ok_bind H as u s2 H2. ok_bind H as p s3 H3. ok_bind H as c s4 H4.
    ok_bind H as rel s5 H5.
    exists h. split; [|eapply materialised_extends; eassumption].
    destruct rel.
    + inversion H; reflexivity.
    + ok_bind H as u' s6 H6. inversion H; reflexivity.
  - inversion H; reflexivity.
Qed.

Lemma content_steps_spec post h0 preview contents :
  forall acc s posts s',
    foldM (Fantia.content_step W post h0 preview) contents acc s = (Ok posts, s') ->
    exists hs, posts = acc ++ hs /\
               Forall2 (materialised W post s') (List.filter visible contents) hs.
Proof.
  induction contents as [|c contents IH]; intros acc s posts s' H; simpl in H.
  - inversion H; subst. exists []. rewrite app_nil_r. split; [reflexivity|constructor].
  - ok_bind H as acc1 s1 H1.
    assert (extends s1 s') as He
      by (eapply (keeps_foldM extends); [|exact H];
          intros; apply extends_content_step).
    apply content_step_spec in H1 as [_ H1].
    destruct (IH _ _ _ _ H) as (hs & -> & Hall). simpl.
    destruct (visible c).
    + destruct H1 as (h & -> & Hm). exists (h :: hs).
      rewrite <- app_assoc. split; [reflexivity|].
      constructor; [eapply materialised_extends; eassumption | exact Hall].
    + subst acc1. exists hs. auto.
Qed.

(** What a completed normalization without anchor leaves. *)
Lemma to_remote_posts_recorded post preview s posts s' :
  Fantia._to_remote_posts W post None preview s = (Ok posts, s') ->
  recorded W post s' posts.
Proof.
  unfold Fantia._to_remote_posts. intros H.
  ok_bind H as post_time s1 H1. ok_bind H as u s2 H2.
  ok_bind H as returned s3 H3. inversion H3; subst.
  ok_bind H as h0 s4 H4. ok_bind H as u' s5 H5. destruct u'.
  apply find_or_create_collection_post_is_post in H4.
  pose proof (extends_collection_thumbnail _ _ _ _ _ _ _ H5) as He5.
  assert (extends s5 s') as He
    by (eapply (keeps_foldM extends); [|exact H];
        intros; apply extends_content_step).
  apply content_steps_spec in H as (hs & -> & Hall).
  exists h0, hs. split; [reflexivity|]. split; [|split].
  - eapply is_post_extends; [|exact H4]. etransitivity; eassumption.
  - intros Ht. eapply owns_file_extends; [exact He|].
    eapply collection_thumbnail_owns_file; eassumption.
  - exact Hall.
Qed.

End FirstRunRecord.

(** *** Decomposition of a record *)

Section Decomposition.
Import Normalizer.
Context (W : World).

Lemma is_post_identity s h original_id :
  is_post s h original_id -> identity s h = Some (core_source_id s, original_id).
Proof.
  intros (p & Hh & Hsrc & Hid). unfold identity. rewrite Hh. simpl. congruence.
Qed.

Lemma materialised_identities post s items hs :
  Forall2 (materialised W post s) items hs ->
  map (identity s) hs =
  map (fun c => Some (core_source_id s, Fantia.content_original_id post c)) items.
Proof.
  induction 1 as [|c h items hs [Hp _] _ IH]; simpl; [reflexivity|].
  rewrite IH. f_equal. apply is_post_identity. exact Hp.
Qed.

Lemma always_raises_bind_ret {A B} (a : A) (k : A -> M Store B) :
  always_raises (k a) -> always_raises (bind (ret a) k).
Proof. intros Hk s. exact (Hk s). Qed.

Lemma content_steps_unknown_category post h0 preview contents content :
  content ∈ contents ->
  visible content = true ->
  known_category (Content.category content) = false ->
  forall acc, always_raises (foldM (Fantia.content_step W post h0 preview) contents acc).
Proof.
  intros Hin Hv Hk. induction contents as [|x contents IH]; [inversion Hin|].
  intros acc. simpl. apply elem_of_cons in Hin as [<-|Hin].
  - apply always_raises_bind_l. unfold Fantia.content_step.
    unfold visible in Hv. rewrite Hv.
    apply always_raises_bind_l, content_to_post_unknown_category. exact Hk.
  - apply always_raises_bind. intros acc1. apply IH. exact Hin.
Qed.

(** C1 (as amended). Whenever the normalization of a record without
    anchor completes, it returns exactly [1 + K] posts, [K] being the
    number of items of the record whose visibility is "visible": first
    the post whose identity is the record id, then, in the order of
    [post.post_contents], the posts whose identities are those of the
    visible items; the hidden items contribute nothing.  It never
    completes for a record with a visible item of a category other than
    the four known ones. *)
Theorem decomposition_of_record (post : Post.t) (preview : bool) (st : Store) :
  let items := List.filter visible (Post.post_contents post) in
  (forall posts st',
     Fantia._to_remote_posts W post None preview st = (Ok posts, st') ->
     length posts = (1 + length items)%nat /\
     map (identity st') posts =
       Some (core_source_id st, pretty (Post.id post))
       :: map (fun c => Some (core_source_id st, Fantia.content_original_id post c))
              items) /\
  ((exists content, content ∈ items /\
                    known_category (Content.category content) = false) ->
   exists e, (Fantia._to_remote_posts W post None preview st).1 = Raise e).
Proof.
  intros items. split.
  - intros posts st' H.
    pose proof (extends_to_remote_posts _ _ _ _ _ _ _ H) as [Hsrc _ _].
    apply to_remote_posts_recorded in H as (h0 & hs & -> & Hp & _ & Hall).
    fold items in Hall. split.
    + simpl. f_equal. symmetry. eapply Forall2_length. exact Hall.
    + simpl. rewrite (is_post_identity _ _ _ Hp), (materialised_identities _ _ _ _ Hall).
      rewrite Hsrc. reflexivity.
  - intros (content & Hin & Hk).
    apply list_elem_of_In, filter_In in Hin as [Hin Hv].
    apply list_elem_of_In in Hin.
    revert st. change (always_raises (Fantia._to_remote_posts W post None preview)).
    unfold Fantia._to_remote_posts.
    apply always_raises_bind; intros post_time.
    apply always_raises_bind; intros _.
    apply always_raises_bind_ret.
    apply always_raises_bind; intros h0.
    apply always_raises_bind; intros _.
    eapply content_steps_unknown_category; eassumption.
Qed.

End Decomposition.

(** C1, witness: the sample record 123, with three visible items and
    one hidden, normalized in an empty session. *)
Lemma decomposition_of_record_witness :
  Fantia._to_remote_posts Sample.world Sample.post123 None false Sample.empty_store
    = (Ok [0; 1; 2; 3]%nat, Sample.store123) /\
  length [0; 1; 2; 3]%nat
    = (1 + length (List.filter Normalizer.visible (Post.post_contents Sample.post123)))%nat /\
  map (Normalizer.identity Sample.store123) [0; 1; 2; 3]%nat
    = [Some (1, "123"); Some (1, "123-45"); Some (1, "123-47"); Some (1, "123-48")].
Proof.
  assert (Fantia._to_remote_posts Sample.world Sample.post123 None false Sample.empty_store
            = (Ok [0; 1; 2; 3]%nat, Sample.store123)) as H
    by (vm_compute; reflexivity).
  split; [exact H|].
  exact (proj1 (decomposition_of_record Sample.world Sample.post123 false
                  Sample.empty_store) [0; 1; 2; 3]%nat Sample.store123 H).
Defined.

(** C1, counterexample: record 200 has one visible item ([K = 1]), of
    category "video"; its normalization returns no list of two posts,
    it raises. *)
Lemma unknown_category_record_not_decomposed :
  length (List.filter Normalizer.visible (Post.post_contents Sample.post200)) = 1%nat /\
  (Fantia._to_remote_posts Sample.world Sample.post200 None false Sample.empty_store).1
    = Raise (ValueError "unknown content category: video") /\
  ~ (exists posts st',
       Fantia._to_remote_posts Sample.world Sample.post200 None false Sample.empty_store
         = (Ok posts, st') /\ length posts = (1 + 1)%nat).
Proof.
  assert ((Fantia._to_remote_posts Sample.world Sample.post200 None false
             Sample.empty_store).1
          = Raise (ValueError "unknown content category: video")) as H
    by (vm_compute; reflexivity).
  split; [reflexivity|]. split; [exact H|].
  intros (posts & st' & Hrun & _). rewrite Hrun in H. discriminate.
Qed.

(** *** The second normalization of a record *)

Section Yields.
Import Normalizer.
Context (R : Store -> Store -> Prop) `{!PreOrder R}.

Lemma yields_keeps {A} (c : M Store A) s : keeps R c -> yields R (fun _ => True) c s.
Proof. intros Hc r s' H. split; [eapply Hc; exact H | auto]. Qed.

Lemma yields_ret {A} (P : A -> Prop) (a : A) s : P a -> yields R P (ret a) s.
Proof. intros Ha r s' H. inversion H; subst. split; [reflexivity|]. congruence. Qed.

Lemma yields_raise {A} (P : A -> Prop) e s : yields R P (raise e) s.
Proof. intros r s' H. inversion H; subst. split; [reflexivity|]. discriminate. Qed.

Lemma yields_bind {A B} (P : A -> Prop) (Q : B -> Prop) (c : M Store A)
    (k : A -> M Store B) s :
  yields R P c s ->
  (forall a s1, P a -> R s s1 -> yields R Q (k a) s1) ->
  yields R Q (bind c k) s.
Proof.
  intros Hc Hk r s' H.
  apply bind_inv in H as [(a & s1 & H1 & H2)|(e & H1 & ->)].
  - destruct (Hc _ _ H1) as [HR HP].
    destruct (Hk a s1 (HP _ eq_refl) HR _ _ H2) as [HR' HQ].
    split; [etransitivity; eassumption | exact HQ].
  - destruct (Hc _ _ H1) as [HR _]. split; [exact HR | discriminate].
Qed.

Lemma yields_weaken {A} (P P' : A -> Prop) (c : M Store A) s :
  (forall a, P a -> P' a) -> yields R P c s -> yields R P' c s.
Proof. intros HP Hc r s' H. destruct (Hc _ _ H) as [HR Ha]. split; eauto. Qed.

End Yields.

Section SecondRun.
Import Normalizer.
Context (W : World).

Lemma query_remote_post_again original_id s h :
  is_post s h original_id ->
  yields stable (fun found => found = Some h) (query_remote_post original_id) s.
Proof.
  intros Hp r s' H.
  destruct (query_remote_post_of_is_post _ _ _ _ _ Hp H) as [-> [->| ->]].
  - split; [reflexivity|]. congruence.
  - split; [reflexivity|]. discriminate.
Qed.

Lemma find_or_create_content_post_again post content post_time s h :
  is_post s h (Fantia.content_original_id post content) ->
  yields stable (fun h' => h' = h)
         (Fantia.find_or_create_content_post post content post_time) s.
Proof.
  intros Hp. unfold Fantia.find_or_create_content_post. cbv zeta.
  eapply yields_bind; [typeclasses eauto | apply query_remote_post_again; exact Hp |].
  intros found s1 Hfound _. simpl in Hfound. subst found. apply yields_ret; [typeclasses eauto | reflexivity].
Qed.

Lemma find_or_create_collection_post_again post post_time s h :
  is_post s h (pretty (Post.id post)) ->
  yields stable (fun h' => h' = h)
         (Fantia.find_or_create_collection_post post post_time) s.
Proof.
  intros Hp. unfold Fantia.find_or_create_collection_post. cbv zeta.
  eapply yields_bind; [typeclasses eauto | apply query_remote_post_again; exact Hp |].
  intros found s1 Hfound _. simpl in Hfound. subst found. apply yields_ret; [typeclasses eauto | reflexivity].
Qed.

Lemma current_or_new_file_again h current_files order :
  is_Some (current_files !! order) ->
  keeps stable (Fantia.current_or_new_file h current_files order).
Proof.
  intros [file Hl]. unfold Fantia.current_or_new_file. rewrite Hl.
  apply keeps_ret. typeclasses eauto.
Qed.

Lemma gallery_photos_again h current_files preview photos :
  (forall photo, photo ∈ photos -> is_Some (current_files !! Photo.id photo)) ->
  keeps stable (for_each photos (Fantia.gallery_photo W h current_files preview)).
Proof.
  unfold for_each. induction photos as [|x photos IH]; intros Hc; simpl.
  - apply keeps_ret. typeclasses eauto.
  - apply keeps_bind; [typeclasses eauto | |].
    + unfold Fantia.gallery_photo.
      apply keeps_bind; [typeclasses eauto | |intros file; apply keeps_resolve_file].
      apply current_or_new_file_again, Hc, list_elem_of_here.
    + intros []. apply IH. intros photo Hin. apply Hc. apply elem_of_cons. auto.
Qed.

Lemma blog_sections_again h current_files preview sections :
  (forall image, Segment (InsertDynamic (Some image)) ∈ sections ->
                 is_Some (current_files !! FantiaImage.id image)) ->
  forall blog, keeps stable (foldM (Fantia.blog_section W h current_files preview)
                                   sections blog).
Proof.
  induction sections as [|x sections IH]; intros Hc blog; simpl.
  - apply keeps_ret. typeclasses eauto.
  - apply keeps_bind; [typeclasses eauto | |].
    + destruct x as [[text|[image|]|]|e]; simpl.
      * apply keeps_ret. typeclasses eauto.
      * apply keeps_bind; [typeclasses eauto | |].
        -- apply current_or_new_file_again, Hc, list_elem_of_here.
        -- intros file. keeps_all stable.
      * keeps_all stable.
      * apply keeps_ret. typeclasses eauto.
      * apply keeps_raise. typeclasses eauto.
    + intros blog1. apply IH. intros image Hin. apply Hc. apply elem_of_cons. auto.
Qed.

(** The branch of [_content_to_post] for the category of a content
    item, on the post of an item that is already in the session. *)
Lemma content_to_post_again post content preview s h :
  materialised W post s content h ->
  yields stable (fun h' => h' = h)
         (Fantia._content_to_post W post content None preview) s.
Proof.
  intros [Hp Hf]. unfold Fantia._content_to_post.
  eapply yields_bind; try typeclasses eauto.
  { apply yields_keeps; try typeclasses eauto. apply keeps_post_time_of. }
  intros post_time s1 _ Hs1.
  eapply yields_bind; try typeclasses eauto.
  { apply yields_keeps; try typeclasses eauto. apply keeps_log. }
  intros u s2 _ Hs2.
  assert (extends s s2) as He2
    by (etransitivity; [apply stable_extends; exact Hs1
                       |apply stable_extends; exact Hs2]).
  eapply yields_bind; try typeclasses eauto.
  { apply find_or_create_content_post_again. eapply is_post_extends; eassumption. }
  intros rp s3 Hrp Hs3. simpl in Hrp. subst rp.
  assert (extends s s3) as He3
    by (etransitivity; [exact He2 | apply stable_extends; exact Hs3]).
  apply (content_files_extends _ _ _ _ _ He3) in Hf.
  eapply (yields_bind _ (fun _ => True)); try typeclasses eauto;
    [|intros; apply yields_ret; [typeclasses eauto | reflexivity]].
  intros r0 s4 H. split; [|auto]. revert r0 s4 H.
  unfold content_files in Hf.
  destruct (String.eqb (Content.category content) "file").
  { intros r0 s4 H. apply bind_inv in H as [(fs & s5 & H5 & H)|(e & H5 & _)];
      [|inversion H5].
    inversion H5; subst.
    destruct (post_files h s5) as [|[fh f] rest] eqn:Hpf.
    - exfalso. eapply post_files_nil; eassumption.
    - match type of H with
      | ?c ?s = _ => assert (keeps stable c) as K by (keeps_all stable)
      end.
      eapply K; exact H. }
  destruct (String.eqb (Content.category content) "photo_gallery").
  { intros r0 s4 H. apply bind_inv in H as [(cf & s5 & H5 & H)|(e & H5 & _)];
      [|inversion H5].
    inversion H5; subst.
    eapply gallery_photos_again; [|exact H].
    intros photo Hin. apply current_files_of_complete. auto. }
  destruct (String.eqb (Content.category content) "text").
  { intros r0 s4 H. eapply keeps_update_post; [|exact H]. apply keeps_set_type. }
  destruct (String.eqb (Content.category content) "blog").
  { intros r0 s4 H. apply bind_inv in H as [(cf & s5 & H5 & H)|(e & H5 & _)];
      [|inversion H5].
    inversion H5; subst.
    destruct (json_ops W (Content.comment content)) as [ops|] eqn:Hops.
    - rewrite (bind_ok _ _ _ ops s5) in H by reflexivity.
      match type of H with
      | ?c ?s = _ => assert (keeps stable c) as K
      end.
      { apply keeps_bind; [typeclasses eauto | |intros; keeps_all stable].
        apply blog_sections_again. intros image Hin.
        apply current_files_of_complete. eapply Hf; [reflexivity | exact Hin]. }
      eapply K; exact H.
    - apply bind_inv in H as [(x & s6 & H6 & H)|(e & H6 & _)]; inversion H6; subst.
      reflexivity. }
  intros r0 s4 H. inversion H; subst. reflexivity.
Qed.

Lemma collection_thumbnail_again post h0 preview s :
  (Post.thumb post <> None -> owns_file s h0) ->
  yields stable (fun _ => True) (Fantia.collection_thumbnail W post h0 preview) s.
Proof.
  intros Ho r s' H. split; [|auto].
  unfold Fantia.collection_thumbnail in H.
  rewrite (bind_ok _ _ _ (post_files h0 s) s) in H by reflexivity.
  destruct (post_files h0 s) as [|[fh f] rest] eqn:Hpf.
  - destruct (Post.thumb post) as [t|] eqn:Ht.
    + exfalso. eapply post_files_nil; [exact Hpf|]. apply Ho. discriminate.
    + inversion H; subst. reflexivity.
  - match type of H with
    | ?c ?s = _ => assert (keeps stable c) as K by (keeps_all stable)
    end.
    eapply K; exact H.
Qed.

Lemma content_step_again post h0 preview acc content s h :
  (visible content = true -> materialised W post s content h) ->
  yields stable
         (fun acc' => acc' = if visible content then acc ++ [h] else acc)
         (Fantia.content_step W post h0 preview acc content) s.
Proof.
  intros Hm. unfold Fantia.content_step, visible in *.
  destruct (String.eqb (Content.visible_status content) "visible").
  - eapply yields_bind; try typeclasses eauto.
    { apply content_to_post_again. apply Hm. reflexivity. }
    intros h' s1 Hh' Hs1. simpl in Hh'. subst h'. cbv zeta.
    eapply (yields_bind _ (fun _ => True)); try typeclasses eauto.
    { apply yields_keeps; try typeclasses eauto. apply keeps_flush. typeclasses eauto. }
    intros u s2 _ Hs2.
    eapply (yields_bind _ (fun _ => True)); try typeclasses eauto.
    { apply yields_keeps; try typeclasses eauto. apply keeps_get_post. }
    intros p s3 _ Hs3.
    eapply (yields_bind _ (fun _ => True)); try typeclasses eauto.
    { apply yields_keeps; try typeclasses eauto. apply keeps_get_post. }
    intros c s4 _ Hs4.
    eapply (yields_bind _ (fun _ => True)); try typeclasses eauto.
    { apply yields_keeps; try typeclasses eauto. apply keeps_query_related. }
    intros rel s5 _ Hs5.
    destruct rel.
    + apply yields_ret; [typeclasses eauto | reflexivity].
    + eapply (yields_bind _ (fun _ => True)); try typeclasses eauto.
      { apply yields_keeps; try typeclasses eauto. apply keeps_append_related. }
      intros. apply yields_ret; [typeclasses eauto | reflexivity].
  - apply yields_ret; [typeclasses eauto | reflexivity].
Qed.

Lemma content_steps_again post h0 preview contents :
  forall acc s hs,
    Forall2 (materialised W post s) (List.filter visible contents) hs ->
    yields stable (fun posts => posts = acc ++ hs)
           (foldM (Fantia.content_step W post h0 preview) contents acc) s.
Proof.
  induction contents as [|c contents IH]; intros acc s hs Hall; simpl in *.
  - inversion Hall; subst. apply yields_ret; [typeclasses eauto|].
    rewrite app_nil_r. reflexivity.
  - destruct (visible c) eqn:Hv.
    + inversion Hall as [|c' h items hs' Hm Hall']; subst.
      eapply yields_bind; try typeclasses eauto.
      { apply (content_step_again _ _ _ _ _ _ h). intros _. exact Hm. }
      intros acc1 s1 Hacc Hs1. simpl in Hacc. rewrite Hv in Hacc. subst acc1.
      eapply yields_weaken; [|apply (IH _ _ hs')].
      * intros posts ->. rewrite <- app_assoc. reflexivity.
      * eapply Forall2_impl; [exact Hall'|].
        intros c0 h1. apply materialised_extends, stable_extends. exact Hs1.
    + eapply yields_bind; try typeclasses eauto.
      { apply (content_step_again _ _ _ _ _ _ 0%nat). intros H. congruence. }
      intros acc1 s1 Hacc Hs1. simpl in Hacc. rewrite Hv in Hacc. subst acc1.
      apply IH.
      eapply Forall2_impl; [exact Hall|].
      intros c0 h1. apply materialised_extends, stable_extends. exact Hs1.
Qed.

(** Normalizing again a record whose posts and files are in the
    session: no post and no file more, and the same posts back. *)
Lemma to_remote_posts_again post preview s posts :
  recorded W post s posts ->
  yields stable (fun posts' => posts' = posts)
         (Fantia._to_remote_posts W post None preview) s.
Proof.
  intros (h0 & hs & -> & Hp & Ho & Hall). unfold Fantia._to_remote_posts.
  eapply (yields_bind _ (fun _ => True)); try typeclasses eauto.
  { apply yields_keeps; try typeclasses eauto. apply keeps_post_time_of. }
  intros post_time s1 _ Hs1.
  eapply (yields_bind _ (fun _ => True)); try typeclasses eauto.
  { apply yields_keeps; try typeclasses eauto. apply keeps_log. }
  intros u s2 _ Hs2.
  eapply (yields_bind _ (fun returned => returned = None)); try typeclasses eauto.
  { apply yields_ret; [typeclasses eauto | reflexivity]. }
  intros returned s3 Hret Hs3. simpl in Hret. subst returned.
  assert (extends s s3) as He3.
  { etransitivity; [apply stable_extends; exact Hs1|].
    etransitivity; [apply stable_extends; exact Hs2|].
    apply stable_extends; exact Hs3. }
  eapply yields_bind; try typeclasses eauto.
  { apply find_or_create_collection_post_again. eapply is_post_extends; eassumption. }
  intros h s4 Hh Hs4. simpl in Hh. subst h.
  assert (extends s s4) as He4
    by (etransitivity; [exact He3 | apply stable_extends; exact Hs4]).
  eapply yields_bind; try typeclasses eauto.
  { apply collection_thumbnail_again. intros Ht.
    eapply owns_file_extends; [exact He4 | auto]. }
  intros u' s5 _ Hs5.
  eapply yields_weaken; [|apply (content_steps_again _ _ _ _ _ _ hs)].
  - intros posts' ->. reflexivity.
  - eapply Forall2_impl; [exact Hall|].
    intros c h1. apply materialised_extends.
    etransitivity; [exact He4 | apply stable_extends; exact Hs5].
Qed.

(** C5. Once a record has been normalized, normalizing it again from
    the session the first run left creates no post and no file: the
    identities of the posts and the (post, remote_order) pairs of the
    files are, handle by handle, those the first run left, whether the
    second run completes or is interrupted; when it completes it gives
    back the very posts of the first run, found by their identity. *)
Theorem second_normalization_creates_nothing (post : Post.t) (preview preview' : bool)
    (st : Store) (posts : list nat) (st1 : Store) r (st2 : Store) :
  Fantia._to_remote_posts W post None preview st = (Ok posts, st1) ->
  Fantia._to_remote_posts W post None preview' st1 = (r, st2) ->
  post_keys st2 = post_keys st1 /\
  file_keys st2 = file_keys st1 /\
  length (remote_posts st2) = length (remote_posts st1) /\
  length (files st2) = length (files st1) /\
  (forall posts', r = Ok posts' -> posts' = posts).
Proof.
  intros H1 H2.
  apply to_remote_posts_recorded in H1.
  destruct (to_remote_posts_again _ preview' _ _ H1 _ _ H2) as [Hs Hr].
  destruct (stable_keys _ _ Hs) as [Hpk Hfk].
  destruct Hs as [_ Hlp Hlf]. auto.
Qed.



End SecondRun.

(** Within one run the dictionary of the files of a post is built
    before the loop and not updated in it: a gallery that lists the same
    photo id twice gets two files of that order the first time it is
    normalized (and none more the second time, as shown above). *)
Remark repeated_photo_two_files :
  Normalizer.file_keys
    (Fantia._content_to_post Sample.world (Sample.post 300 [] None None)
       Sample.repeated_gallery None false Sample.empty_store).2
  = [(0%nat, 5); (0%nat, 5)].
Proof. vm_compute. reflexivity. Qed.

(** C5, witness: the sample record 123 normalized twice. *)
Lemma second_normalization_creates_nothing_witness :
  Fantia._to_remote_posts Sample.world Sample.post123 None false Sample.empty_store
    = (Ok [0; 1; 2; 3]%nat, Sample.store123) /\
  (Fantia._to_remote_posts Sample.world Sample.post123 None false Sample.store123).1
    = Ok [0; 1; 2; 3]%nat /\
  Normalizer.post_keys
    (Fantia._to_remote_posts Sample.world Sample.post123 None false Sample.store123).2
    = Normalizer.post_keys Sample.store123 /\
  Normalizer.file_keys
    (Fantia._to_remote_posts Sample.world Sample.post123 None false Sample.store123).2
    = Normalizer.file_keys Sample.store123.
Proof.
  assert (Fantia._to_remote_posts Sample.world Sample.post123 None false Sample.empty_store
            = (Ok [0; 1; 2; 3]%nat, Sample.store123)) as H1
    by (vm_compute; reflexivity).
  split; [exact H1|]. split; [vm_compute; reflexivity|].
  pose proof (second_normalization_creates_nothing Sample.world Sample.post123
                false false Sample.empty_store [0; 1; 2; 3]%nat Sample.store123
                _ _ H1 (surjective_pairing _)) as (Hp & Hf & _).
  split; [exact Hp | exact Hf].
Defined.

(** *** Preview runs *)

Section Preview.
Import Normalizer.

#[global] Instance thumbs_only_preorder : PreOrder thumbs_only.
Proof.
  split.
  - intros s. exists []. rewrite app_nil_r. split; [reflexivity|constructor].
  - intros s1 s2 s3 (e1 & H1 & F1) (e2 & H2 & F2). exists (e1 ++ e2).
    rewrite H2, H1, app_assoc. split; [reflexivity|]. apply Forall_app. auto.
Qed.

Lemma thumbs_only_same_trace s s' : trace s' = trace s -> thumbs_only s s'.
Proof. intros H. exists []. rewrite app_nil_r. split; [exact H|constructor]. Qed.

Lemma thumbs_emit ev : imports_original ev = false -> keeps thumbs_only (emit ev).
Proof.
  intros Hev s r s' H. inversion H; subst. exists [ev]. simpl.
  split; [reflexivity|]. constructor; [exact Hev|constructor].
Qed.

Lemma thumbs_log level format : keeps thumbs_only (log level format).
Proof. apply thumbs_emit. reflexivity. Qed.

Lemma thumbs_get_post h : keeps thumbs_only (get_post h).
Proof.
  intros s r s' H. unfold get_post in H.
  destruct (remote_posts s !! h); inversion H; subst; reflexivity.
Qed.

Lemma thumbs_get_file h : keeps thumbs_only (get_file h).
Proof.
  intros s r s' H. unfold get_file in H.
  destruct (files s !! h); inversion H; subst; reflexivity.
Qed.

Lemma thumbs_get_tag h : keeps thumbs_only (get_tag h).
Proof.
  intros s r s' H. unfold get_tag in H.
  destruct (remote_tags s !! h); inversion H; subst; reflexivity.
Qed.

Lemma thumbs_query_remote_post original_id : keeps thumbs_only (query_remote_post original_id).
Proof.
  intros s r s' H. apply one_or_none_state in H. subst. reflexivity.
Qed.

Lemma thumbs_query_related a b : keeps thumbs_only (query_related a b).
Proof.
  intros s r s' H. apply one_or_none_state in H. subst. reflexivity.
Qed.

Lemma thumbs_append_related remote_post content_post :
  keeps thumbs_only (append_related remote_post content_post).
Proof.
  unfold append_related.
  apply keeps_bind; [typeclasses eauto | apply thumbs_get_post | intros p].
  apply keeps_bind; [typeclasses eauto | apply thumbs_get_post | intros c].
  intros s r s' H. inversion H; subst. apply thumbs_only_same_trace. reflexivity.
Qed.

Lemma thumbs_get_remote_tag category name : keeps thumbs_only (get_remote_tag category name).
Proof.
  intros s r s' H. unfold get_remote_tag in H.
  destruct (select _ (remote_tags s)) as [|[h g] rest]; inversion H; subst;
    apply thumbs_only_same_trace; reflexivity.
Qed.

Lemma thumbs_update_tag h f : keeps thumbs_only (update_tag h f).
Proof. intros s r s' H. inversion H; subst. apply thumbs_only_same_trace. reflexivity. Qed.

Lemma thumbs_update_post h f : keeps thumbs_only (update_post h f).
Proof. intros s r s' H. inversion H; subst. apply thumbs_only_same_trace. reflexivity. Qed.

Lemma thumbs_add_new_post p : keeps thumbs_only (add_new_post p).
Proof. intros s r s' H. inversion H; subst. apply thumbs_only_same_trace. reflexivity. Qed.

Lemma thumbs_add_new_file f : keeps thumbs_only (add_new_file f).
Proof. intros s r s' H. inversion H; subst. apply thumbs_only_same_trace. reflexivity. Qed.

Lemma thumbs_import_file file thumb : keeps thumbs_only (import_file file None thumb).
Proof.
  unfold import_file.
  apply keeps_bind; [typeclasses eauto | apply thumbs_emit; reflexivity | intros _].
  intros s r s' H. inversion H; subst. apply thumbs_only_same_trace. reflexivity.
Qed.

Lemma keeps_bind_ret R {A B} (a : A) (k : A -> M Store B) :
  keeps R (k a) -> keeps R (bind (ret a) k).
Proof. intros Hk s r s' H. eapply Hk. exact H. Qed.

Lemma need_orig_preview f : Fantia.need_orig f true = false.
Proof. unfold Fantia.need_orig. apply andb_false_r. Qed.

End Preview.

Create HintDb thumbs.

#[global] Hint Resolve thumbs_log thumbs_get_post thumbs_get_file thumbs_get_tag
  thumbs_query_remote_post thumbs_query_related thumbs_append_related
  thumbs_get_remote_tag thumbs_update_tag thumbs_update_post thumbs_add_new_post
  thumbs_add_new_file thumbs_import_file : thumbs.

Ltac thumbs_step :=
  first
    [ solve [eauto with thumbs]
    | apply (keeps_ret Normalizer.thumbs_only)
    | apply (keeps_raise Normalizer.thumbs_only)
    | apply (keeps_gets Normalizer.thumbs_only)
    | apply (keeps_flush Normalizer.thumbs_only)
    | apply (keeps_when_needed Normalizer.thumbs_only)
    | apply (keeps_bind Normalizer.thumbs_only); [|intros ?]
    | apply (keeps_foldM Normalizer.thumbs_only); intros ? ?
    | apply (keeps_for_each Normalizer.thumbs_only); intros ?
    | match goal with
      | |- Normalizer.keeps _ (match ?x with _ => _ end) => destruct x
      | |- Normalizer.keeps _ (if ?b then _ else _) => destruct b
      end ].

Ltac thumbs_all := repeat (cbv zeta; thumbs_step).

Section PreviewPlugin.
Import Normalizer.
Context (W : World).

Lemma thumbs_download_file url filename :
  keeps thumbs_only (Fantia._download_file W url filename).
Proof.
  unfold Fantia._download_file.
  apply keeps_bind; [typeclasses eauto | apply thumbs_log | intros _].
  apply keeps_bind; [typeclasses eauto | apply thumbs_emit; reflexivity | intros _].
  thumbs_all.
Qed.
Hint Resolve thumbs_download_file : thumbs.

Lemma thumbs_post_time_of post : keeps thumbs_only (Fantia.post_time_of W post).
Proof. unfold Fantia.post_time_of. thumbs_all. Qed.
Hint Resolve thumbs_post_time_of : thumbs.

Lemma thumbs_attach_tags post p : keeps thumbs_only (Fantia.attach_tags post p).
Proof. unfold Fantia.attach_tags. thumbs_all. Qed.
Hint Resolve thumbs_attach_tags : thumbs.

Lemma thumbs_thumb_attr post attr name : keeps thumbs_only (Fantia.thumb_attr post attr name).
Proof. unfold Fantia.thumb_attr. thumbs_all. Qed.
Hint Resolve thumbs_thumb_attr : thumbs.

Lemma thumbs_py_split v sep : keeps thumbs_only (@Fantia.py_split Store v sep).
Proof. unfold Fantia.py_split. thumbs_all. Qed.
Hint Resolve thumbs_py_split : thumbs.

Lemma thumbs_current_or_new_file h current_files order :
  keeps thumbs_only (Fantia.current_or_new_file h current_files order).
Proof. unfold Fantia.current_or_new_file. thumbs_all. Qed.
Hint Resolve thumbs_current_or_new_file : thumbs.

Lemma thumbs_find_or_create_content_post post content post_time :
  keeps thumbs_only (Fantia.find_or_create_content_post post content post_time).
Proof. unfold Fantia.find_or_create_content_post. thumbs_all. Qed.
Hint Resolve thumbs_find_or_create_content_post : thumbs.

Lemma thumbs_find_or_create_collection_post post post_time :
  keeps thumbs_only (Fantia.find_or_create_collection_post post post_time).
Proof. unfold Fantia.find_or_create_collection_post. thumbs_all. Qed.
Hint Resolve thumbs_find_or_create_collection_post : thumbs.

(** In a preview, the resolution of a file of a gallery or of a blog
    hands no original to the import. *)
Lemma thumbs_resolve_file file orig_url thumb_url :
  keeps thumbs_only (Fantia.resolve_file W file true orig_url thumb_url).
Proof.
  unfold Fantia.resolve_file.
  apply keeps_bind; [typeclasses eauto | apply thumbs_get_file | intros f].
  cbv zeta. rewrite need_orig_preview.
  destruct (Fantia.need_thumb f || false); [|apply keeps_ret; typeclasses eauto].
  apply keeps_bind; [typeclasses eauto | apply thumbs_log | intros _].
  apply keeps_bind_ret. thumbs_all.
Qed.
Hint Resolve thumbs_resolve_file : thumbs.

Lemma thumbs_gallery_photo h current_files photo :
  keeps thumbs_only (Fantia.gallery_photo W h current_files true photo).
Proof. unfold Fantia.gallery_photo. thumbs_all. Qed.
Hint Resolve thumbs_gallery_photo : thumbs.

Lemma thumbs_blog_section h current_files blog section :
  keeps thumbs_only (Fantia.blog_section W h current_files true blog section).
Proof. unfold Fantia.blog_section. thumbs_all. Qed.
Hint Resolve thumbs_blog_section : thumbs.

Lemma thumbs_content_to_post post content remote_post :
  keeps thumbs_only (Fantia._content_to_post W post content remote_post true).
Proof.
  unfold Fantia._content_to_post.
  apply keeps_bind; [typeclasses eauto | apply thumbs_post_time_of | intros post_time].
  apply keeps_bind; [typeclasses eauto | apply thumbs_log | intros _].
  apply keeps_bind; [typeclasses eauto | thumbs_all | intros h].
  apply keeps_bind; [typeclasses eauto | | intros _; apply keeps_ret; typeclasses eauto].
  destruct (String.eqb (Content.category content) "file"); [|thumbs_all].
  apply keeps_bind; [typeclasses eauto | apply keeps_gets; typeclasses eauto | intros fs].
  apply keeps_bind; [typeclasses eauto | thumbs_all | intros file].
  apply keeps_bind; [typeclasses eauto | apply thumbs_get_file | intros f].
  cbv zeta. rewrite need_orig_preview.
  destruct (false || Fantia.need_thumb f); [|apply keeps_ret; typeclasses eauto].
  apply keeps_bind; [typeclasses eauto | apply thumbs_log | intros _].
  apply keeps_bind_ret. thumbs_all.
Qed.
Hint Resolve thumbs_content_to_post : thumbs.

Lemma thumbs_collection_thumbnail post h :
  keeps thumbs_only (Fantia.collection_thumbnail W post h true).
Proof.
  unfold Fantia.collection_thumbnail.
  apply keeps_bind; [typeclasses eauto | apply keeps_gets; typeclasses eauto | intros fs].
  apply keeps_bind; [typeclasses eauto | thumbs_all | intros [file|]];
    [|apply keeps_ret; typeclasses eauto].
  apply keeps_bind; [typeclasses eauto | apply thumbs_get_file | intros f].
  cbv zeta. rewrite need_orig_preview.
  destruct (false || Fantia.need_thumb f); [|apply keeps_ret; typeclasses eauto].
  apply keeps_bind; [typeclasses eauto | apply thumbs_log | intros _].
  apply keeps_bind_ret. thumbs_all.
Qed.
Hint Resolve thumbs_collection_thumbnail : thumbs.

Lemma thumbs_update_existing post h :
  keeps thumbs_only (Fantia.update_existing W post h true).
Proof. unfold Fantia.update_existing. thumbs_all. Qed.
Hint Resolve thumbs_update_existing : thumbs.

Lemma thumbs_content_step post h acc content :
  keeps thumbs_only (Fantia.content_step W post h true acc content).
Proof. unfold Fantia.content_step. thumbs_all. Qed.
Hint Resolve thumbs_content_step : thumbs.


End PreviewPlugin.

(** *** Asset resolution *)

Section AssetResolution.
Import Normalizer.
Context (W : World).



End AssetResolution.

(** ** Further properties *)

(** *** The paginator: seeding, cursors, order *)

Section WalkProps.
Import CreatorIterator Paginator Walk.
Context (W : World).

Lemma in_core_self {A} (c : M Store A) (e : Env) r e' :
  in_core c e = (r, e') -> self e' = self e.
Proof.
  unfold in_core. destruct (c (core e)) as [r0 st]. intros H. inversion H. reflexivity.
Qed.

Lemma for_turn_self direction post_id it (e : Env) r e' :
  for_turn W direction post_id it e = (r, e') -> self e' = self e.
Proof. intros H. apply for_turn_spec in H as [Hs _]. exact Hs. Qed.

(** One turn of the loop that yields: the record is the document of
    the id asked for. *)
Lemma for_turn_yields direction post_id it (e : Env) post g e' :
  for_turn W direction post_id it e = (Ok (Some post, g), e') ->
  api_post W (POST_GET_URL (pretty post_id)) = Some post /\
  g = AtYield direction post_id post (Nat.pred <$> it).
Proof.
  unfold for_turn. intros H.
  assert (Hgen :
    (post0 <- in_core (Fantia.get_post_document W (pretty post_id)) ;;
     in_core (log LDebug "post: %s") ;;
     ret (Some post0, AtYield direction post_id post0 (Nat.pred <$> it))) e
      = (Ok (Some post, g), e') ->
    api_post W (POST_GET_URL (pretty post_id)) = Some post /\
    g = AtYield direction post_id post (Nat.pred <$> it)).
  { clear H. intros H.
    apply bind_inv in H as [(p & e1 & H1 & H)|(ex & _ & ?)]; [|discriminate].
    apply get_post_document_spec in H1 as (_ & _ & Hp).
    apply bind_inv in H as [([] & e2 & H2 & H)|(ex & _ & ?)]; [|discriminate].
    inversion H; subst. split; [apply Hp; reflexivity | reflexivity]. }
  destruct it as [[|k]|]; [inversion H | apply Hgen, H | apply Hgen, H].
Qed.

(** Resuming a suspended generator: the cursor of the direction takes
    the id of the record just yielded, and nothing else of the iterator
    changes, whether the next request succeeds or not. *)
Lemma next_at_yield_self direction post_id post it (e : Env) r e' :
  next W (AtYield direction post_id post it) e = (r, e') ->
  self e' = set_cursor direction post_id (self e).
Proof.
  unfold next. intros H.
  apply bind_inv in H as [([] & e1 & H1 & H)|(ex & H1 & _)].
  - assert (self e1 = set_cursor direction post_id (self e)) as Hs
      by (destruct direction; inversion H1; reflexivity).
    destruct (next_post direction post) as [nid|].
    + apply for_turn_self in H. congruence.
    + inversion H; subst. exact Hs.
  - destruct direction; inversion H1.
Qed.

Lemma next_at_yield_yields direction post_id post it (e : Env) post' g e' :
  next W (AtYield direction post_id post it) e = (Ok (Some post', g), e') ->
  exists next_id,
    next_post direction post = Some next_id /\
    api_post W (POST_GET_URL (pretty next_id)) = Some post' /\
    g = AtYield direction next_id post' (Nat.pred <$> it).
Proof.
  unfold next. intros H.
  apply bind_inv in H as [([] & e1 & H1 & H)|(ex & _ & ?)]; [|discriminate].
  destruct (next_post direction post) as [nid|]; [|inversion H].
  apply for_turn_yields in H as [Hp Hg]. eauto.
Qed.

Lemma other_cursor_set_cursor direction post_id it :
  other_cursor direction (set_cursor direction post_id it) = other_cursor direction it /\
  subscription (set_cursor direction post_id it) = subscription it /\
  state (set_cursor direction post_id it) = state it /\
  creator_id (set_cursor direction post_id it) = creator_id it /\
  cursor direction (set_cursor direction post_id it) = Some post_id.
Proof. destruct direction; repeat split. Qed.

(** Draining a suspended generator. *)
Lemma drain_at_yield (fuel : nat) :
  forall direction post_id post it yielded (e : Env) r e',
    drain W fuel (AtYield direction post_id post it) yielded e = (r, e') ->
    other_cursor direction (self e') = other_cursor direction (self e) /\
    subscription (self e') = subscription (self e) /\
    state (self e') = state (self e) /\
    creator_id (self e') = creator_id (self e) /\
    forall posts g, r = Ok (posts, g) ->
      exists new, posts = yielded ++ new /\
        (new = [] \/
         exists next_id, next_post direction post = Some next_id /\
                         chain W direction next_id new).
Proof.
  induction fuel as [|fuel IH]; intros direction post_id post it yielded e r e' H.
  - inversion H; subst. repeat split. intros posts g Hx. inversion Hx; subst.
    exists []. rewrite app_nil_r. auto.
  - simpl in H.
    apply bind_inv in H as [([[post'|] g1] & e1 & H1 & H)|(ex & H1 & ->)].
    + pose proof (next_at_yield_self _ _ _ _ _ _ _ H1) as Hs.
      destruct (next_at_yield_yields _ _ _ _ _ _ _ _ H1) as (nid & Hl & Hp & ->).
      destruct (IH _ _ _ _ _ _ _ _ H) as (Ho & Hsub & Hst & Hc & Hx).
      destruct (other_cursor_set_cursor direction post_id (self e))
        as (Ho' & Hsub' & Hst' & Hc' & _).
      rewrite Hs in Ho, Hsub, Hst, Hc.
      repeat split; try congruence.
      intros posts g Hok. destruct (Hx _ _ Hok) as (new & -> & Hnew).
      exists (post' :: new). rewrite <- app_assoc. split; [reflexivity|].
      right. exists nid. split; [exact Hl|]. simpl. split; [exact Hp|].
      destruct Hnew as [->|Hnew]; [left; reflexivity | right; exact Hnew].
    + pose proof (next_at_yield_self _ _ _ _ _ _ _ H1) as Hs.
      destruct (other_cursor_set_cursor direction post_id (self e))
        as (Ho' & Hsub' & Hst' & Hc' & _).
      inversion H; subst. rewrite Hs. repeat split; try assumption.
      intros posts g Hok. inversion Hok; subst.
      exists []. rewrite app_nil_r. auto.
    + pose proof (next_at_yield_self _ _ _ _ _ _ _ H1) as Hs.
      destruct (other_cursor_set_cursor direction post_id (self e))
        as (Ho' & Hsub' & Hst' & Hc' & _).
      rewrite Hs. repeat split; try assumption.
      intros posts g Hok. discriminate.
Qed.

End WalkProps.

Section WalkFromCursor.
Import CreatorIterator Paginator Walk.
Context (W : World).

Lemma cursor_bool_decide direction (it : t) :
  (if bool_decide (direction = FetchDirection.newer) then head_id it else tail_id it)
  = cursor direction it.
Proof. destruct direction; reflexivity. Qed.

(** The first resumption of a generator whose direction has a cursor:
    the record of the cursor is requested for its link only. *)
Lemma next_created_from_cursor direction n (e : Env) cursor_id r e' :
  cursor direction (self e) = Some cursor_id ->
  next W (Created direction n) e = (r, e') ->
  self e' = self e /\
  forall x, r = Ok x ->
    match x with
    | (Some post, g) =>
        exists post0 next_id,
          api_post W (POST_GET_URL (pretty cursor_id)) = Some post0 /\
          next_post direction post0 = Some next_id /\
          api_post W (POST_GET_URL (pretty next_id)) = Some post /\
          g = AtYield direction next_id post (Nat.pred <$> iterations n)
    | (None, g) => g = Finished
    end.
Proof.
  intros Hc H. unfold next in H.
  rewrite (bind_ok _ _ e (self e) e) in H by reflexivity.
  rewrite cursor_bool_decide, Hc in H.
  apply bind_inv in H as [(post0 & e1 & H1 & H)|(ex & H1 & ->)].
  - pose proof (in_core_self _ _ _ _ H1) as Hs1.
    apply get_post_document_spec in H1 as (_ & _ & Hp0). specialize (Hp0 _ eq_refl).
    destruct (next_post direction post0) as [nid|] eqn:Hl.
    + pose proof (for_turn_self _ _ _ _ _ _ _ H) as Hs. split; [congruence|].
      intros [[post|] g] Hx; subst r.
      * apply for_turn_yields in H as [Hp ->]. eauto 8.
      * apply for_turn_spec in H as (_ & H). destruct (iterations n) as [[|k]|].
        -- destruct H as [H _]. inversion H. reflexivity.
        -- destruct H as (_ & H). destruct (H _ eq_refl) as (p & Hp). discriminate.
        -- destruct H as (_ & H). destruct (H _ eq_refl) as (p & Hp). discriminate.
    + inversion H; subst. split; [exact Hs1|]. intros x Hx. inversion Hx; subst.
      reflexivity.
  - pose proof (in_core_self _ _ _ _ H1) as Hs1. split; [exact Hs1|].
    intros x Hx. discriminate.
Qed.

Lemma drain_created_from_cursor fuel direction n (e : Env) cursor_id r e' :
  cursor direction (self e) = Some cursor_id ->
  drain W fuel (Created direction n) [] e = (r, e') ->
  other_cursor direction (self e') = other_cursor direction (self e) /\
  subscription (self e') = subscription (self e) /\
  state (self e') = state (self e) /\
  creator_id (self e') = creator_id (self e) /\
  forall posts g, r = Ok (posts, g) ->
    posts = [] \/
    exists post0 next_id,
      api_post W (POST_GET_URL (pretty cursor_id)) = Some post0 /\
      next_post direction post0 = Some next_id /\
      chain W direction next_id posts.
Proof.
  intros Hc H. destruct fuel as [|fuel].
  - inversion H; subst. repeat split. intros posts g Hx. inversion Hx; subst. auto.
  - simpl in H.
    apply bind_inv in H as [([[post|] g1] & e1 & H1 & H)|(ex & H1 & ->)].
    + destruct (next_created_from_cursor _ _ _ _ _ _ Hc H1) as [Hs Hx].
      destruct (Hx _ eq_refl) as (post0 & nid & Hp0 & Hl & Hp & ->).
      destruct (drain_at_yield _ _ _ _ _ _ _ _ _ _ H) as (Ho & Hsub & Hst & Hcr & Hd).
      rewrite Hs in Ho, Hsub, Hst, Hcr. repeat split; try assumption.
      intros posts g Hok. destruct (Hd _ _ Hok) as (new & -> & Hnew).
      right. exists post0, nid. split; [exact Hp0|]. split; [exact Hl|].
      simpl. split; [exact Hp|].
      destruct Hnew as [->|Hnew]; [left; reflexivity | right; exact Hnew].
    + destruct (next_created_from_cursor _ _ _ _ _ _ Hc H1) as [Hs _].
      inversion H; subst. rewrite Hs. repeat split.
      intros posts g Hok. inversion Hok; subst. auto.
    + destruct (next_created_from_cursor _ _ _ _ _ _ Hc H1) as [Hs _].
      rewrite Hs. repeat split. intros posts g Hok. discriminate.
Qed.

(** X1. A run that starts from an existing cursor never touches the
    cursor of the other direction, nor the subscription, the saved
    state or the creator id of the iterator, however it ends. *)
Theorem walk_keeps_other_cursor (fuel : nat) (direction : FetchDirection.t)
    (n : option Z) (e : Env) (cursor_id : Z) r (e' : Env) :
  cursor direction (self e) = Some cursor_id ->
  drain W fuel (Created direction n) [] e = (r, e') ->
  other_cursor direction (self e') = other_cursor direction (self e) /\
  subscription (self e') = subscription (self e) /\
  state (self e') = state (self e) /\
  creator_id (self e') = creator_id (self e).
Proof.
  intros Hc H.
  destruct (drain_created_from_cursor _ _ _ _ _ _ _ Hc H) as (H1 & H2 & H3 & H4 & _).
  auto.
Qed.

(** X2. The records of a run that starts from a cursor are met in
    pagination order: the record of the cursor is requested only for
    its link, the first record yielded is the document that link names,
    and every further one is the document named by the link of the
    record before it. *)
Theorem walk_follows_links (fuel : nat) (direction : FetchDirection.t)
    (n : option Z) (e : Env) (cursor_id : Z) (posts : list Post.t)
    (g : generator) (e' : Env) :
  cursor direction (self e) = Some cursor_id ->
  drain W fuel (Created direction n) [] e = (Ok (posts, g), e') ->
  posts = [] \/
  exists post0 next_id,
    api_post W (POST_GET_URL (pretty cursor_id)) = Some post0 /\
    next_post direction post0 = Some next_id /\
    chain W direction next_id posts.
Proof.
  intros Hc H.
  destruct (drain_created_from_cursor _ _ _ _ _ _ _ Hc H) as (_ & _ & _ & _ & Hx).
  eauto.
Qed.

End WalkFromCursor.

(** X1, witness: walking newer from record 122. *)
Lemma walk_keeps_other_cursor_witness :
  Walk.cursor FetchDirection.newer (CreatorIterator.self Sample.resumed_env) = Some 122 /\
  Walk.other_cursor FetchDirection.newer
    (CreatorIterator.self
       (CreatorIterator.drain Sample.world 5
          (CreatorIterator.Created FetchDirection.newer None) [] Sample.resumed_env).2)
  = Some 122.
Proof.
  split; [reflexivity|].
  exact (proj1 (walk_keeps_other_cursor Sample.world 5 FetchDirection.newer None
                  Sample.resumed_env 122 _ _ eq_refl (surjective_pairing _))).
Defined.

(** X2, witness: the same walk yields record 123, the next of 122. *)
Lemma walk_follows_links_witness :
  Walk.cursor FetchDirection.newer (CreatorIterator.self Sample.resumed_env) = Some 122 /\
  (CreatorIterator.drain Sample.world 5
     (CreatorIterator.Created FetchDirection.newer None) [] Sample.resumed_env).1
    = Ok ([Sample.post123], CreatorIterator.Finished) /\
  ([Sample.post123] = [] \/
   exists post0 next_id,
     api_post Sample.world (POST_GET_URL (pretty 122)) = Some post0 /\
     CreatorIterator.next_post FetchDirection.newer post0 = Some next_id /\
     Walk.chain Sample.world FetchDirection.newer next_id [Sample.post123]).
Proof.
  assert (CreatorIterator.drain Sample.world 5
            (CreatorIterator.Created FetchDirection.newer None) [] Sample.resumed_env
          = (Ok ([Sample.post123], CreatorIterator.Finished),
             (CreatorIterator.drain Sample.world 5
                (CreatorIterator.Created FetchDirection.newer None) []
                Sample.resumed_env).2)) as H
    by (vm_compute; reflexivity).
  split; [reflexivity|]. split; [vm_compute; reflexivity|].
  exact (walk_follows_links Sample.world 5 FetchDirection.newer None
           Sample.resumed_env 122 _ _ _ eq_refl H).
Defined.

(** *** The paginator: a creator seen for the first time *)

Section Bootstrap.
Import CreatorIterator Paginator Walk.
Context (W : World).

(** The first resumption of a generator whose direction has no cursor
    yet, for a creator with posts: both cursors take the id of the most
    recent post before that post is requested. *)
Lemma next_created_seed direction n (e : Env) fanclub post_id rest r e' :
  cursor direction (self e) = None ->
  api_fanclub W (FANCLUB_GET_URL (creator_id (self e))) = Some fanclub ->
  Fanclub.recent_posts fanclub = post_id :: rest ->
  next W (Created direction n) e = (r, e') ->
  self e' = set_tail_id (Some post_id) (set_head_id (Some post_id) (self e)) /\
  forall x, r = Ok x ->
    match x with
    | (Some post, g) =>
        api_post W (POST_GET_URL (pretty post_id)) = Some post /\
        g = AtYield direction post_id post (Nat.pred <$> iterations n)
    | (None, g) => g = Finished /\ iterations n = Some O /\
                   core e' = with_trace (trace (core e) ++
                               [HttpGet (FANCLUB_GET_URL (creator_id (self e)))]) (core e)
    end.
Proof.
  intros Hc Hf Hr H. unfold next in H.
  rewrite (bind_ok _ _ e (self e) e) in H by reflexivity.
  rewrite cursor_bool_decide, Hc in H.
  assert (in_core (get_fanclub_document W (creator_id (self e))) e
          = (Ok fanclub,
             {| self := self e;
                core := with_trace (trace (core e) ++
                          [HttpGet (FANCLUB_GET_URL (creator_id (self e)))]) (core e) |}))
    as Hget.
  { unfold in_core, get_fanclub_document, bind, emit, modify. simpl.
    rewrite Hf. reflexivity. }
  rewrite (bind_ok _ _ _ _ _ Hget) in H. rewrite Hr in H.
  rewrite (bind_ok _ _ _ _ _ (update_self_spec _ _)) in H.
  rewrite (bind_ok _ _ _ _ _ (update_self_spec _ _)) in H. simpl in H.
  pose proof (for_turn_self _ _ _ _ _ _ _ H) as Hs. simpl in Hs.
  split; [exact Hs|].
  intros [[post|] g] Hx; subst r.
  - apply for_turn_yields in H. exact H.
  - apply for_turn_spec in H as (_ & H). destruct (iterations n) as [[|k]|].
    + destruct H as [H He]. inversion H. subst e'. auto.
    + destruct H as (_ & H). destruct (H _ eq_refl) as (p & Hp). discriminate.
    + destruct H as (_ & H). destruct (H _ eq_refl) as (p & Hp). discriminate.
Qed.

(** X3. The first run for a creator with posts walks from the most
    recent post: the records yielded are the chain that starts at the
    first id of the fanclub's recent posts, and once the generator has
    been resumed the cursor of the other direction is that id. *)
Theorem bootstrap_walks_from_newest (fuel : nat) (direction : FetchDirection.t)
    (n : option Z) (e : Env) (fanclub : Fanclub.t) (post_id : Z) (rest : list Z)
    (posts : list Post.t) (g : generator) (e' : Env) :
  cursor direction (self e) = None ->
  api_fanclub W (FANCLUB_GET_URL (creator_id (self e))) = Some fanclub ->
  Fanclub.recent_posts fanclub = post_id :: rest ->
  drain W (S fuel) (Created direction n) [] e = (Ok (posts, g), e') ->
  chain W direction post_id posts /\
  other_cursor direction (self e') = Some post_id.
Proof.
  intros Hc Hf Hr H. simpl in H.
  apply bind_inv in H as [([[post|] g1] & e1 & H1 & H)|(ex & _ & ?)]; [| |discriminate].
  - destruct (next_created_seed _ _ _ _ _ _ _ _ Hc Hf Hr H1) as [Hs Hx].
    destruct (Hx _ eq_refl) as [Hp ->].
    destruct (drain_at_yield _ _ _ _ _ _ _ _ _ _ H) as (Ho & _ & _ & _ & Hd).
    destruct (Hd _ _ eq_refl) as (new & -> & Hnew). split.
    + simpl. split; [exact Hp|].
      destruct Hnew as [->|Hnew]; [left; reflexivity | right; exact Hnew].
    + rewrite Ho, Hs. destruct direction; reflexivity.
  - destruct (next_created_seed _ _ _ _ _ _ _ _ Hc Hf Hr H1) as [Hs _].
    inversion H; subst. split; [exact I|]. rewrite Hs. destruct direction; reflexivity.
Qed.

End Bootstrap.

(** X3, witness: the fresh subscription of the sample. *)
Lemma bootstrap_walks_from_newest_witness :
  Walk.cursor FetchDirection.older (CreatorIterator.self Sample.fresh_env) = None /\
  Fanclub.recent_posts {| Fanclub.recent_posts := [123; 122] |} = 123 :: [122] /\
  (CreatorIterator.drain Sample.world 4
     (CreatorIterator.Created FetchDirection.older None) [] Sample.fresh_env).1
    = Ok ([Sample.post123; Sample.post122], CreatorIterator.Finished) /\
  Walk.chain Sample.world FetchDirection.older 123 [Sample.post123; Sample.post122].
Proof.
  assert (CreatorIterator.drain Sample.world 4
            (CreatorIterator.Created FetchDirection.older None) [] Sample.fresh_env
          = (Ok ([Sample.post123; Sample.post122], CreatorIterator.Finished),
             (CreatorIterator.drain Sample.world 4
                (CreatorIterator.Created FetchDirection.older None) []
                Sample.fresh_env).2)) as H
    by (vm_compute; reflexivity).
  split; [reflexivity|]. split; [reflexivity|]. split; [vm_compute; reflexivity|].
  exact (proj1 (bootstrap_walks_from_newest Sample.world 3 FetchDirection.older None
                  Sample.fresh_env {| Fanclub.recent_posts := [123; 122] |} 123 [122]
                  _ _ _ eq_refl eq_refl eq_refl H)).
Defined.

(** *** [fetch]: the first fetch of a subscription *)

Section FirstFetch.
Import CreatorIterator Paginator Walk.
Context (W : World).

Lemma next_created_empty direction n (e : Env) fanclub :
  cursor direction (self e) = None ->
  api_fanclub W (FANCLUB_GET_URL (creator_id (self e))) = Some fanclub ->
  Fanclub.recent_posts fanclub = [] ->
  next W (Created direction n) e
  = (Ok (None, Finished),
     {| self := self e;
        core := with_trace (trace (core e) ++
                  [HttpGet (FANCLUB_GET_URL (creator_id (self e)))]) (core e) |}).
Proof.
  intros Hc Hf Hr. unfold next.
  rewrite (bind_ok _ _ e (self e) e) by reflexivity.
  rewrite cursor_bool_decide, Hc.
  erewrite bind_ok
    by (unfold in_core, get_fanclub_document, bind, emit, modify; simpl;
        rewrite Hf; reflexivity).
  rewrite Hr. reflexivity.
Qed.

(** X4. The first fetch for a creator who has no post yet: whatever the
    direction and the limit asked for, one request is made (the fanclub
    document), nothing is yielded, normalized or committed, the cursor
    stays absent and the state saved is the empty cursor the iterator
    started with. *)
Theorem fetch_of_creator_without_posts (fuel : nat) (direction : FetchDirection.t)
    (n : option Z) (e : Env) (fanclub : Fanclub.t) :
  tail_id (self e) = None ->
  api_fanclub W (FANCLUB_GET_URL (creator_id (self e))) = Some fanclub ->
  Fanclub.recent_posts fanclub = [] ->
  let out := fetch W (S fuel) direction n e in
  out.1 = Ok ([], true) /\
  head_id (self out.2) = head_id (self e) /\
  tail_id (self out.2) = None /\
  state (self out.2) = {| Cursor.head_id := head_id (self e); Cursor.tail_id := None |} /\
  trace (core out.2)
  = trace (core e)
    ++ HttpGet (FANCLUB_GET_URL (creator_id (self e)))
       :: match subscription (self e) with
          | Some _ => [AddSubscription]
          | None => []
          end /\
  remote_posts (core out.2) = remote_posts (core e) /\
  files (core out.2) = files (core e).
Proof.
  intros Ht Hf Hr out. subst out. unfold fetch.
  rewrite (bind_ok _ _ e (self e) e) by reflexivity. rewrite Ht.
  assert (fetch_loop W (S fuel) (Created FetchDirection.older n) [] e
          = (Ok ([], Finished),
             {| self := self e;
                core := with_trace (trace (core e) ++
                          [HttpGet (FANCLUB_GET_URL (creator_id (self e)))]) (core e) |}))
    as Hloop.
  { pose proof (next_created_empty FetchDirection.older n e fanclub Ht Hf Hr) as Hn.
    cbn [fetch_loop]. rewrite (bind_ok _ _ _ _ _ Hn). reflexivity. }
  rewrite (bind_ok _ _ _ _ _ Hloop).
  unfold _save_state. rewrite (bind_ok _ _ _ _ _ (update_self_spec _ _)).
  erewrite bind_ok by reflexivity. simpl.
  destruct (subscription (self e)) as [sub|]; simpl; rewrite ?Ht;
    repeat split; rewrite <- ?app_assoc; reflexivity.
Qed.

(** X5. The first fetch of a subscription with a limit of zero (or
    less) yields nothing and requests no record, yet it completes and
    saves, as both cursors, the id of the creator's most recent post:
    that post is recorded as seen without having been fetched. *)
Theorem first_fetch_with_zero_limit (fuel : nat) (direction : FetchDirection.t)
    (n : Z) (e : Env) (fanclub : Fanclub.t) (post_id : Z) (rest : list Z) :
  n <= 0 ->
  tail_id (self e) = None ->
  api_fanclub W (FANCLUB_GET_URL (creator_id (self e))) = Some fanclub ->
  Fanclub.recent_posts fanclub = post_id :: rest ->
  let out := fetch W (S fuel) direction (Some n) e in
  out.1 = Ok ([], true) /\
  state (self out.2)
  = {| Cursor.head_id := Some post_id; Cursor.tail_id := Some post_id |} /\
  head_id (self out.2) = Some post_id /\
  tail_id (self out.2) = Some post_id /\
  requests (trace (core out.2)) = S (requests (trace (core e))) /\
  remote_posts (core out.2) = remote_posts (core e).
Proof.
  intros Hn Ht Hf Hr out. subst out. unfold fetch.
  rewrite (bind_ok _ _ e (self e) e) by reflexivity. rewrite Ht.
  destruct (next W (Created FetchDirection.older (Some n)) e) as [r1 e1] eqn:H1.
  destruct (next_created_seed W FetchDirection.older (Some n) e fanclub post_id rest
              r1 e1 Ht Hf Hr H1) as [Hs Hx].
  assert (iterations (Some n) = Some O) as Hit
    by (unfold iterations; simpl; f_equal; lia).
  assert (r1 = Ok (None, Finished) /\
          core e1 = with_trace (trace (core e) ++
                      [HttpGet (FANCLUB_GET_URL (creator_id (self e)))]) (core e))
    as [-> Hcore].
  { clear Hx. unfold next in H1.
    rewrite (bind_ok _ _ e (self e) e) in H1 by reflexivity.
    rewrite cursor_bool_decide in H1. unfold cursor in H1. rewrite Ht in H1.
    erewrite bind_ok in H1
      by (unfold in_core, get_fanclub_document, bind, emit, modify; simpl;
          rewrite Hf; reflexivity).
    rewrite Hr in H1.
    rewrite (bind_ok _ _ _ _ _ (update_self_spec _ _)) in H1.
    rewrite (bind_ok _ _ _ _ _ (update_self_spec _ _)) in H1.
    unfold for_turn in H1. rewrite Hit in H1. inversion H1; subst. auto. }
  assert (fetch_loop W (S fuel) (Created FetchDirection.older (Some n)) [] e
          = (Ok ([], Finished), e1)) as Hloop.
  { cbn [fetch_loop]. rewrite (bind_ok _ _ _ _ _ H1). reflexivity. }
  rewrite (bind_ok _ _ _ _ _ Hloop).
  unfold _save_state. rewrite (bind_ok _ _ _ _ _ (update_self_spec _ _)).
  erewrite bind_ok by reflexivity. simpl. rewrite Hs. simpl.
  destruct (subscription (self e)) as [sub|]; simpl; rewrite Hcore; simpl;
    rewrite ?requests_app; simpl; repeat split; lia.
Qed.

End FirstFetch.

(** X4, witness: a creator without posts. *)
Lemma fetch_of_creator_without_posts_witness :
  CreatorIterator.tail_id (CreatorIterator.self Sample.fresh_env) = None /\
  (CreatorIterator.fetch
     {| api_post := fun _ => None;
        api_fanclub := fun _ => Some {| Fanclub.recent_posts := [] |};
        stream_ok := fun _ => true; parse_time := fun _ => None;
        json_ops := fun _ => None |}
     1 FetchDirection.newer None Sample.fresh_env).1 = Ok ([], true).
Proof.
  split; [reflexivity|].
  exact (proj1 (fetch_of_creator_without_posts
                  {| api_post := fun _ => None;
                     api_fanclub := fun _ => Some {| Fanclub.recent_posts := [] |};
                     stream_ok := fun _ => true; parse_time := fun _ => None;
                     json_ops := fun _ => None |}
                  0 FetchDirection.newer None Sample.fresh_env
                  {| Fanclub.recent_posts := [] |} eq_refl eq_refl eq_refl)).
Defined.

(** X5, witness: the fresh subscription of the sample, limit zero. *)
Lemma first_fetch_with_zero_limit_witness :
  0 <= 0 /\
  CreatorIterator.tail_id (CreatorIterator.self Sample.fresh_env) = None /\
  (CreatorIterator.fetch Sample.world 1 FetchDirection.newer (Some 0) Sample.fresh_env).1
    = Ok ([], true) /\
  CreatorIterator.state
    (CreatorIterator.self
       (CreatorIterator.fetch Sample.world 1 FetchDirection.newer (Some 0)
          Sample.fresh_env).2)
  = {| Cursor.head_id := Some 123; Cursor.tail_id := Some 123 |}.
Proof.
  split; [lia|]. split; [reflexivity|].
  pose proof (first_fetch_with_zero_limit Sample.world 0 FetchDirection.newer 0
                Sample.fresh_env {| Fanclub.recent_posts := [123; 122] |} 123 [122]
                ltac:(lia) eq_refl eq_refl eq_refl) as (H1 & H2 & _).
  split; [exact H1 | exact H2].
Defined.

(** *** [fetch]: feed, saved state, preview *)

Section FetchProps.
Import CreatorIterator Paginator Walk Fetching.
Context (W : World).

Lemma same_fields_refl it : same_fields it it.
Proof. repeat split. Qed.

Lemma same_fields_trans a b c : same_fields a b -> same_fields b c -> same_fields a c.
Proof. unfold same_fields. intuition congruence. Qed.

Lemma next_same_fields (g : generator) (e : Env) r e' :
  next W g e = (r, e') -> same_fields (self e) (self e').
Proof.
  destruct g as [d n|d pid post it|]; intros H.
  - unfold next in H.
    rewrite (bind_ok _ _ e (self e) e) in H by reflexivity.
    destruct (if bool_decide (d = FetchDirection.newer)
              then head_id (self e) else tail_id (self e)) as [pid|].
    + apply bind_inv in H as [(p & e1 & H1 & H)|(ex & H1 & _)];
        apply in_core_self in H1.
      * destruct (next_post d p) as [nid|].
        -- apply for_turn_self in H. rewrite H, H1. apply same_fields_refl.
        -- inversion H; subst. rewrite H1. apply same_fields_refl.
      * rewrite H1. apply same_fields_refl.
    + apply bind_inv in H as [(fc & e1 & H1 & H)|(ex & H1 & _)];
        apply in_core_self in H1.
      * destruct (Fanclub.recent_posts fc) as [|pid rest].
        -- inversion H; subst. rewrite H1. apply same_fields_refl.
        -- rewrite (bind_ok _ _ _ _ _ (update_self_spec _ _)) in H.
           rewrite (bind_ok _ _ _ _ _ (update_self_spec _ _)) in H.
           apply for_turn_self in H. rewrite H. simpl. rewrite H1. repeat split.
      * rewrite H1. apply same_fields_refl.
  - apply next_at_yield_self in H. rewrite H. destruct d; repeat split.
  - inversion H; subst. apply same_fields_refl.
Qed.

Lemma in_core_ok {A} (c : M Store A) (e : Env) a e' :
  in_core c e = (Ok a, e') -> c (core e) = (Ok a, core e').
Proof.
  unfold in_core. destruct (c (core e)) as [r st]. intros H. inversion H. reflexivity.
Qed.

Lemma next_some_not_finished (g : generator) (e : Env) post g' e' :
  next W g e = (Ok (Some post, g'), e') -> g' <> Finished.
Proof.
  intros H. destruct g as [d n|d pid p it|].
  - destruct (next_yield W _ _ _ _ _ d H eq_refl) as (pid & it & -> & _). discriminate.
  - destruct (next_yield W _ _ _ _ _ d H eq_refl) as (pid' & it' & -> & _). discriminate.
  - inversion H.
Qed.

Lemma for_turn_none_finished direction post_id it (e : Env) g' e' :
  for_turn W direction post_id it e = (Ok (None, g'), e') -> g' = Finished.
Proof.
  intros H. apply for_turn_spec in H as (_ & H). destruct it as [[|k]|].
  - destruct H as [H _]. inversion H. reflexivity.
  - destruct H as (_ & H). destruct (H _ eq_refl) as (p & Hp). discriminate.
  - destruct H as (_ & H). destruct (H _ eq_refl) as (p & Hp). discriminate.
Qed.

Lemma next_none_finished (g : generator) (e : Env) g' e' :
  next W g e = (Ok (None, g'), e') -> g' = Finished.
Proof.
  destruct g as [d n|d pid post it|]; intros H.
  - unfold next in H.
    rewrite (bind_ok _ _ e (self e) e) in H by reflexivity.
    destruct (if bool_decide (d = FetchDirection.newer)
              then head_id (self e) else tail_id (self e)) as [pid|].
    + apply bind_inv in H as [(p & e1 & H1 & H)|(ex & H1 & ?)]; [|discriminate].
      destruct (next_post d p) as [nid|].
      * eapply for_turn_none_finished. exact H.
      * inversion H. reflexivity.
    + apply bind_inv in H as [(fc & e1 & H1 & H)|(ex & H1 & ?)]; [|discriminate].
      destruct (Fanclub.recent_posts fc) as [|pid rest].
      * inversion H. reflexivity.
      * rewrite (bind_ok _ _ _ _ _ (update_self_spec _ _)) in H.
        rewrite (bind_ok _ _ _ _ _ (update_self_spec _ _)) in H.
        eapply for_turn_none_finished. exact H.
  - unfold next in H.
    apply bind_inv in H as [([] & e1 & H1 & H)|(ex & H1 & ?)]; [|discriminate].
    destruct (next_post d post) as [nid|].
    + eapply for_turn_none_finished. exact H.
    + inversion H. reflexivity.
  - inversion H. reflexivity.
Qed.

Lemma fetch_loop_step (fuel : nat) (g : generator) (yielded : list nat) :
  fetch_loop W (S fuel) g yielded =
  (r <- next W g ;;
   match r with
   | (Some post, g') =>
       me <- gets self ;;
       remote_posts <- in_core (Fantia._to_remote_posts W post None
                                  (bool_decide (subscription me = None))) ;;
       match fuel with
       | O => ret (yielded ++ remote_posts, g')
       | S _ =>
           update_self (append_feed remote_posts) ;;
           in_core commit ;;
           fetch_loop W fuel g' (yielded ++ remote_posts)
       end
   | (None, g') => ret (yielded, g')
   end).
Proof. reflexivity. Qed.

(** The loop of [fetch]: the saved state and the creator id stay.  The
    posts handed out are those appended to the feed of the
    subscription, if there is one, followed by those of the record at
    whose [yield] the consumer stopped, which are not appended yet. *)
Lemma fetch_loop_fields (fuel : nat) : forall g yielded (e : Env) r e',
  fetch_loop W fuel g yielded e = (r, e') ->
  state (self e') = state (self e) /\
  creator_id (self e') = creator_id (self e) /\
  (subscription (self e) = None -> subscription (self e') = None) /\
  forall posts g', r = Ok (posts, g') ->
    exists committed pending,
      posts = yielded ++ committed ++ pending /\
      subscription (self e') = fed committed <$> subscription (self e) /\
      (g' = Finished -> pending = []) /\
      (g' <> Finished ->
       fuel = O \/ exists post, Normalizer.recorded W post (core e') pending).
Proof.
  assert (Hfed0 : forall o : option Subscription.t, o = fed [] <$> o).
  { intros [[o s f]|]; simpl; [|reflexivity].
    unfold fed. simpl. rewrite app_nil_r. reflexivity. }
  induction fuel as [|fuel IH]; intros g yielded e r e' H.
  - inversion H; subst.
    split; [reflexivity|]. split; [reflexivity|]. split; [auto|].
    intros posts g' Hx. inversion Hx; subst.
    exists [], []. rewrite !app_nil_r.
    split; [reflexivity|]. split; [apply Hfed0|]. split; auto.
  - rewrite fetch_loop_step in H.
    apply bind_inv in H as [([[post|] g1] & e1 & H1 & H)|(ex & H1 & ->)].
    + pose proof (next_some_not_finished _ _ _ _ _ H1) as Hg1.
      apply next_same_fields in H1 as (Hsub1 & Hst1 & Hc1).
      rewrite (bind_ok _ _ e1 (self e1) e1) in H by reflexivity.
      apply bind_inv in H as [(ps & e2 & H2 & H)|(ex & H2 & ->)].
      * pose proof (in_core_ok _ _ _ _ H2) as Hrun.
        apply to_remote_posts_recorded in Hrun.
        apply in_core_self in H2.
        destruct fuel as [|fuel'].
        -- inversion H; subst. rewrite H2.
           split; [congruence|]. split; [congruence|]. split.
           ++ intros Hnone. congruence.
           ++ intros posts g' Hok. inversion Hok; subst.
              exists [], ps. split; [reflexivity|].
              split; [rewrite Hsub1; apply Hfed0|]. split; [contradiction|].
              intros _. right. exists post. exact Hrun.
        -- rewrite (bind_ok _ _ _ _ _ (update_self_spec _ _)) in H.
           apply bind_inv in H as [([] & e3 & H3 & H)|(ex & H3 & ->)].
           ++ apply in_core_self in H3. simpl in H3.
              destruct (IH _ _ _ _ _ H) as (Hst & Hc & Hn & Hx).
              rewrite H3 in Hst, Hc, Hn, Hx. simpl in Hst, Hc, Hn, Hx.
              rewrite H2 in Hst, Hc, Hn, Hx.
              split; [congruence|]. split; [congruence|]. split.
              ** intros Hnone. apply Hn. rewrite Hsub1, Hnone. reflexivity.
              ** intros posts g' Hok.
                 destruct (Hx _ _ Hok) as (committed & pending & -> & Hfeed & Hfin & Hrec).
                 exists (ps ++ committed), pending. rewrite <- !app_assoc.
                 split; [reflexivity|]. split; [|split].
                 --- rewrite Hfeed, Hsub1.
                     destruct (subscription (self e)) as [[o s f]|]; simpl; [|reflexivity].
                     unfold fed. simpl. rewrite <- app_assoc. reflexivity.
                 --- exact Hfin.
                 --- intros Hg. destruct (Hrec Hg) as [Hz|Hr]; [discriminate Hz|].
                     right. exact Hr.
           ++ apply in_core_self in H3. simpl in H3. rewrite H3. simpl. rewrite H2.
              split; [congruence|]. split; [congruence|]. split.
              ** intros Hnone. rewrite Hsub1, Hnone. reflexivity.
              ** intros posts g' Hok. discriminate.
      * apply in_core_self in H2. rewrite H2.
        split; [congruence|]. split; [congruence|]. split.
        -- intros Hnone. congruence.
        -- intros posts g' Hok. discriminate.
    + pose proof H1 as Hnext.
      apply next_same_fields in H1 as (Hsub1 & Hst1 & Hc1).
      inversion H; subst.
      split; [congruence|]. split; [congruence|]. split.
      * intros Hnone. congruence.
      * intros posts g' Hok. inversion Hok; subst. exists [], []. rewrite !app_nil_r.
        split; [reflexivity|]. split; [rewrite Hsub1; apply Hfed0|].
        split; [reflexivity|].
        intros Hg. exfalso. apply Hg. eapply next_none_finished. exact Hnext.
    + apply next_same_fields in H1 as (Hsub1 & Hst1 & Hc1).
      split; [congruence|]. split; [congruence|]. split.
      * intros Hnone. congruence.
      * intros posts g' Hok. discriminate.
Qed.

(** What [fetch] is, after its loop. *)
Lemma fetch_inv (fuel : nat) direction n (e : Env) yielded done e' :
  fetch W fuel direction n e = (Ok (yielded, done), e') ->
  exists direction' g e1,
    fetch_loop W fuel (Created direction' n) [] e = (Ok (yielded, g), e1) /\
    (tail_id (self e) = None -> direction' = FetchDirection.older) /\
    (tail_id (self e) <> None -> direction' = direction) /\
    if done
    then g = Finished /\
         self e' = {| subscription :=
                        match subscription (self e1) with
                        | Some sub =>
                            Some {| Subscription.options_creator_id :=
                                      Subscription.options_creator_id sub;
                                    Subscription.state := cursor_of (self e1);
                                    Subscription.feed := Subscription.feed sub |}
                        | None => None
                        end;
                      state := cursor_of (self e1);
                      creator_id := creator_id (self e1);
                      head_id := head_id (self e1);
                      tail_id := tail_id (self e1) |} /\
         trace (core e') = trace (core e1)
                           ++ match subscription (self e1) with
                              | Some _ => [AddSubscription]
                              | None => []
                              end
    else g <> Finished /\ e' = e1.
Proof.
  unfold fetch. intros H.
  rewrite (bind_ok _ _ e (self e) e) in H by reflexivity.
  match type of H with
  | bind (fetch_loop W fuel (Created ?d n) []) _ _ = _ => set (direction' := d) in *
  end.
  apply bind_inv in H as [([ys g] & e1 & H1 & H)|(ex & _ & ?)]; [|discriminate].
  exists direction', g, e1.
  assert (Hd1 : tail_id (self e) = None -> direction' = FetchDirection.older)
    by (intros Ht; subst direction'; rewrite Ht; reflexivity).
  assert (Hd2 : tail_id (self e) <> None -> direction' = direction)
    by (intros Ht; subst direction'; destruct (tail_id (self e)); congruence).
  destruct g as [d0 n0|d0 pid post it|].
  - inversion H; subst. repeat split; auto; discriminate.
  - inversion H; subst. repeat split; auto; discriminate.
  - unfold _save_state in H.
    rewrite (bind_ok _ _ _ _ _ (update_self_spec _ _)) in H.
    erewrite bind_ok in H by reflexivity. simpl in H.
    destruct (subscription (self e1)) as [sub|] eqn:Hsub; simpl in H.
    + inversion H; subst. simpl. rewrite ?Hsub. repeat split; auto.
    + inversion H; subst. simpl. rewrite ?Hsub, ?app_nil_r. repeat split; auto.
Qed.

(** X6. The posts of a record are appended to the feed only after
    they have all been handed to the consumer.  When [fetch] returns
    under a subscription, the feed is the feed it had followed by a
    prefix of the posts handed out, in their order, and the options are
    the same: all of them when the fetch was consumed to its end; when
    the consumer stopped early, all but the posts of the record it was
    being handed (the collection post of that record and the posts of
    its visible items, which are in the session but not in the feed).
    Without subscription the iterator still has none. *)
Theorem fetch_appends_to_feed (fuel : nat) (direction : FetchDirection.t)
    (n : option Z) (e : Env) (yielded : list nat) (done : bool) (e' : Env) :
  fetch W fuel direction n e = (Ok (yielded, done), e') ->
  exists committed pending,
    yielded = committed ++ pending /\
    (if done then pending = []
     else yielded = [] \/ exists post, Normalizer.recorded W post (core e') pending) /\
    match subscription (self e), subscription (self e') with
    | Some sub, Some sub' =>
        Subscription.feed sub' = Subscription.feed sub ++ committed /\
        Subscription.options_creator_id sub' = Subscription.options_creator_id sub
    | None, None => True
    | _, _ => False
    end.
Proof.
  intros H. apply fetch_inv in H as (d' & g & e1 & Hloop & _ & _ & Hdone).
  destruct (fetch_loop_fields _ _ _ _ _ _ Hloop) as (_ & _ & _ & Hx).
  destruct (Hx _ _ eq_refl) as (committed & pending & Hys & Hfeed & Hfin & Hrec).
  simpl in Hys. exists committed, pending. split; [exact Hys|].
  destruct done.
  - destruct Hdone as (Hg & Hs & _). split; [exact (Hfin Hg)|].
    rewrite Hs. simpl. rewrite Hfeed.
    destruct (subscription (self e)) as [sub|]; simpl; auto.
  - destruct Hdone as (Hg & ->). split.
    + destruct (Hrec Hg) as [Hz|Hr]; [|right; exact Hr].
      left. subst fuel. inversion Hloop. reflexivity.
    + rewrite Hfeed. destruct (subscription (self e)) as [sub|]; simpl; auto.
Qed.

(** X7. A fetch run to completion saves the cursor: the state of the
    iterator, and that of its subscription, are then the head and tail
    ids the iterator ends with.  A fetch that is not run to completion
    saves nothing: the state is the one the iterator started with, even
    though its cursor may have advanced. *)
Theorem fetch_saves_cursor_on_completion (fuel : nat) (direction : FetchDirection.t)
    (n : option Z) (e : Env) (yielded : list nat) (done : bool) (e' : Env) :
  fetch W fuel direction n e = (Ok (yielded, done), e') ->
  if done
  then state (self e') = cursor_of (self e') /\
       (forall sub', subscription (self e') = Some sub' ->
                     Subscription.state sub' = cursor_of (self e'))
  else state (self e') = state (self e) /\
       (forall sub', subscription (self e') = Some sub' ->
          exists sub, subscription (self e) = Some sub /\
                      Subscription.state sub' = Subscription.state sub).
Proof.
  intros H. apply fetch_inv in H as (d' & g & e1 & Hloop & _ & _ & Hdone).
  destruct (fetch_loop_fields _ _ _ _ _ _ Hloop) as (Hst & _ & _ & Hx).
  destruct (Hx _ _ eq_refl) as (committed & pending & _ & Hfeed & _).
  destruct done.
  - destruct Hdone as (_ & Hs & _). rewrite Hs. simpl. split; [reflexivity|].
    intros sub' Hsub'. destruct (subscription (self e1)); inversion Hsub'; reflexivity.
  - destruct Hdone as (_ & ->). split; [exact Hst|].
    intros sub' Hsub'. rewrite Hfeed in Hsub'.
    destruct (subscription (self e)) as [sub|]; inversion Hsub'. eauto.
Qed.

(** X8. A fetch run to completion under a subscription can be resumed
    from what it saved: an iterator built from the subscription it
    leaves ([get_iterator]) is the iterator it leaves. *)
Theorem iterator_restored_from_saved_state (fuel : nat) (direction : FetchDirection.t)
    (n : option Z) (e : Env) (sub : Subscription.t) (yielded : list nat) (e' : Env) :
  subscription (self e) = Some sub ->
  creator_id (self e) = Subscription.options_creator_id sub ->
  fetch W fuel direction n e = (Ok (yielded, true), e') ->
  __init__ (subscription (self e')) None = Ok (self e').
Proof.
  intros Hsub Hc H. apply fetch_inv in H as (d' & g & e1 & Hloop & _ & _ & Hdone).
  destruct Hdone as (_ & Hs & _).
  destruct (fetch_loop_fields _ _ _ _ _ _ Hloop) as (_ & Hcr & _ & Hx).
  destruct (Hx _ _ eq_refl) as (committed & pending & _ & Hfeed & _).
  rewrite Hsub in Hfeed. simpl in Hfeed.
  rewrite Hs. simpl. rewrite Hfeed. unfold __init__. simpl.
  rewrite Hcr, Hc. reflexivity.
Qed.

End FetchProps.

(** X6, witness: the first fetch of the sample's fresh subscription,
    stopped by the consumer after the posts of the first record: the
    four posts of record 123 have been handed out and the feed is
    still empty. *)
Lemma fetch_appends_to_feed_witness :
  let out := CreatorIterator.fetch Sample.world 1 FetchDirection.newer None
               Sample.fresh_env in
  out.1 = Ok ([0; 1; 2; 3]%nat, false) /\
  Subscription.feed <$> CreatorIterator.subscription (CreatorIterator.self out.2)
    = Some [] /\
  exists committed pending,
    [0; 1; 2; 3]%nat = committed ++ pending /\
    ([0; 1; 2; 3]%nat = [] \/
     exists post, Normalizer.recorded Sample.world post (CreatorIterator.core out.2)
                    pending) /\
    match CreatorIterator.subscription (CreatorIterator.self Sample.fresh_env),
          CreatorIterator.subscription (CreatorIterator.self out.2) with
    | Some sub, Some sub' =>
        Subscription.feed sub' = Subscription.feed sub ++ committed /\
        Subscription.options_creator_id sub' = Subscription.options_creator_id sub
    | None, None => True
    | _, _ => False
    end.
Proof.
  intros out.
  assert (Hrun : CreatorIterator.fetch Sample.world 1 FetchDirection.newer None
                   Sample.fresh_env = (Ok ([0; 1; 2; 3]%nat, false), out.2))
    by (vm_compute; reflexivity).
  split; [vm_compute; reflexivity|]. split; [vm_compute; reflexivity|].
  exact (fetch_appends_to_feed Sample.world 1 FetchDirection.newer None
           Sample.fresh_env [0; 1; 2; 3]%nat false out.2 Hrun).
Defined.

(** X7, witness: the same fetch saves the cursor it ends with. *)
Lemma fetch_saves_cursor_on_completion_witness :
  let out := CreatorIterator.fetch Sample.world 5 FetchDirection.newer None
               Sample.fresh_env in
  out.1 = Ok ([0; 1; 2; 3; 4]%nat, true) /\
  CreatorIterator.state (CreatorIterator.self out.2)
    = Fetching.cursor_of (CreatorIterator.self out.2).
Proof.
  intros out.
  assert (Hrun : CreatorIterator.fetch Sample.world 5 FetchDirection.newer None
                   Sample.fresh_env = (Ok ([0; 1; 2; 3; 4]%nat, true), out.2))
    by (vm_compute; reflexivity).
  split; [vm_compute; reflexivity|].
  exact (proj1 (fetch_saves_cursor_on_completion Sample.world 5 FetchDirection.newer
                  None Sample.fresh_env [0; 1; 2; 3; 4]%nat true out.2 Hrun)).
Defined.

(** X8, witness: the same fetch, resumed from its subscription. *)
Lemma iterator_restored_from_saved_state_witness :
  let out := CreatorIterator.fetch Sample.world 5 FetchDirection.newer None
               Sample.fresh_env in
  CreatorIterator.subscription (CreatorIterator.self Sample.fresh_env)
    = Some Sample.fresh_subscription /\
  CreatorIterator.creator_id (CreatorIterator.self Sample.fresh_env)
    = Subscription.options_creator_id Sample.fresh_subscription /\
  out.1 = Ok ([0; 1; 2; 3; 4]%nat, true) /\
  CreatorIterator.__init__
    (CreatorIterator.subscription (CreatorIterator.self out.2)) None
    = Ok (CreatorIterator.self out.2).
Proof.
  intros out.
  assert (Hrun : CreatorIterator.fetch Sample.world 5 FetchDirection.newer None
                   Sample.fresh_env = (Ok ([0; 1; 2; 3; 4]%nat, true), out.2))
    by (vm_compute; reflexivity).
  split; [reflexivity|]. split; [reflexivity|].
  split; [vm_compute; reflexivity|].
  exact (iterator_restored_from_saved_state Sample.world 5 FetchDirection.newer None
           Sample.fresh_env Sample.fresh_subscription [0; 1; 2; 3; 4]%nat out.2
           eq_refl eq_refl Hrun).
Defined.

(** *** What a whole [fetch] keeps of the session *)

Section FetchKeeps.
Import CreatorIterator Paginator Walk Fetching Normalizer.
Context (W : World).
Context (R : Store -> Store -> Prop) `{!PreOrder R}.
Context (Hemit : forall ev, imports_original ev = false -> keeps R (emit ev)).

Lemma in_core_keeps {A} (c : M Store A) (e : Env) r e' :
  keeps R c -> in_core c e = (r, e') -> R (core e) (core e').
Proof.
  intros Hc H. unfold in_core in H. destruct (c (core e)) as [r0 st] eqn:Hrun.
  inversion H; subst. simpl. eapply Hc. exact Hrun.
Qed.

Lemma get_post_document_keeps post_id : keeps R (Fantia.get_post_document W post_id).
Proof.
  unfold Fantia.get_post_document.
  apply keeps_bind; [typeclasses eauto | apply Hemit; reflexivity | intros _].
  destruct (api_post W _); [apply keeps_ret | apply keeps_raise]; typeclasses eauto.
Qed.

Lemma get_fanclub_document_keeps fanclub_id :
  keeps R (get_fanclub_document W fanclub_id).
Proof.
  unfold get_fanclub_document.
  apply keeps_bind; [typeclasses eauto | apply Hemit; reflexivity | intros _].
  destruct (api_fanclub W _); [apply keeps_ret | apply keeps_raise]; typeclasses eauto.
Qed.

Lemma for_turn_core_keeps direction post_id it (e : Env) r e' :
  for_turn W direction post_id it e = (r, e') -> R (core e) (core e').
Proof.
  unfold for_turn. intros H.
  assert (Hgen : forall k,
    (post <- in_core (Fantia.get_post_document W (pretty post_id)) ;;
     in_core (log LDebug "post: %s") ;;
     ret (Some post, AtYield direction post_id post k)) e = (r, e') ->
    R (core e) (core e')).
  { intros k Hk.
    apply bind_inv in Hk as [(p & e1 & H1 & Hk)|(ex & H1 & _)];
      apply in_core_keeps in H1; try apply get_post_document_keeps;
      [|exact H1].
    apply bind_inv in Hk as [([] & e2 & H2 & Hk)|(ex & H2 & _)];
      apply in_core_keeps in H2; try (apply Hemit; reflexivity).
    - inversion Hk; subst. etransitivity; eassumption.
    - etransitivity; eassumption. }
  destruct it as [[|k]|]; [inversion H; reflexivity | eapply Hgen, H | eapply Hgen, H].
Qed.

Lemma next_core_keeps (g : generator) (e : Env) r e' :
  next W g e = (r, e') -> R (core e) (core e').
Proof.
  destruct g as [d n|d pid post it|]; intros H.
  - unfold next in H.
    rewrite (bind_ok _ _ e (self e) e) in H by reflexivity.
    destruct (if bool_decide (d = FetchDirection.newer)
              then head_id (self e) else tail_id (self e)) as [pid|].
    + apply bind_inv in H as [(p & e1 & H1 & H)|(ex & H1 & _)];
        apply in_core_keeps in H1; try apply get_post_document_keeps;
        [|exact H1].
      destruct (next_post d p) as [nid|].
      * apply for_turn_core_keeps in H. etransitivity; eassumption.
      * inversion H; subst. exact H1.
    + apply bind_inv in H as [(fc & e1 & H1 & H)|(ex & H1 & _)];
        apply in_core_keeps in H1; try apply get_fanclub_document_keeps;
        [|exact H1].
      destruct (Fanclub.recent_posts fc) as [|pid rest].
      * inversion H; subst. exact H1.
      * rewrite (bind_ok _ _ _ _ _ (update_self_spec _ _)) in H.
        rewrite (bind_ok _ _ _ _ _ (update_self_spec _ _)) in H.
        apply for_turn_core_keeps in H. simpl in H. etransitivity; eassumption.
  - unfold next in H.
    apply bind_inv in H as [([] & e1 & H1 & H)|(ex & H1 & _)].
    + assert (core e1 = core e) as Hc by (destruct d; inversion H1; reflexivity).
      destruct (next_post d post) as [nid|].
      * apply for_turn_core_keeps in H. rewrite Hc in H. exact H.
      * inversion H; subst. rewrite Hc. reflexivity.
    + destruct d; inversion H1.
  - inversion H; subst. reflexivity.
Qed.

Context (preview : bool).
Context (Hnorm : forall post, keeps R (Fantia._to_remote_posts W post None preview)).

Lemma fetch_loop_keeps (fuel : nat) : forall g yielded (e : Env) r e',
  bool_decide (subscription (self e) = None) = preview ->
  fetch_loop W fuel g yielded e = (r, e') ->
  R (core e) (core e').
Proof.
  induction fuel as [|fuel IH]; intros g yielded e r e' Hprev H.
  - inversion H; subst. reflexivity.
  - rewrite fetch_loop_step in H.
    apply bind_inv in H as [([[post|] g1] & e1 & H1 & H)|(ex & H1 & _)].
    + pose proof (next_same_fields _ _ _ _ _ H1) as (Hsub1 & _ & _).
      apply next_core_keeps in H1.
      rewrite (bind_ok _ _ e1 (self e1) e1) in H by reflexivity.
      rewrite Hsub1, Hprev in H.
      apply bind_inv in H as [(ps & e2 & H2 & H)|(ex & H2 & _)].
      * pose proof (in_core_self _ _ _ _ H2) as Hs2.
        apply in_core_keeps in H2; [|apply Hnorm].
        destruct fuel as [|fuel'];
          [inversion H; subst; etransitivity; eassumption|].
        rewrite (bind_ok _ _ _ _ _ (update_self_spec _ _)) in H.
        apply bind_inv in H as [([] & e3 & H3 & H)|(ex & H3 & _)].
        -- pose proof (in_core_self _ _ _ _ H3) as Hs3. simpl in Hs3.
           apply in_core_keeps in H3; [|apply Hemit; reflexivity].
           simpl in H3.
           apply IH in H.
           ++ etransitivity; [exact H1|]. etransitivity; [exact H2|].
              etransitivity; eassumption.
           ++ rewrite Hs3. simpl. rewrite Hs2, Hsub1, <- Hprev.
              destruct (subscription (self e)); reflexivity.
        -- apply in_core_keeps in H3; [|apply Hemit; reflexivity].
           simpl in H3.
           etransitivity; [exact H1|]. etransitivity; eassumption.
      * apply in_core_keeps in H2; [|apply Hnorm].
        etransitivity; eassumption.
    + apply next_core_keeps in H1. inversion H; subst. exact H1.
    + apply next_core_keeps in H1. exact H1.
Qed.

Lemma fetch_keeps (fuel : nat) direction n (e : Env) r e' :
  bool_decide (subscription (self e) = None) = preview ->
  fetch W fuel direction n e = (r, e') ->
  R (core e) (core e').
Proof.
  intros Hprev H. unfold fetch in H.
  rewrite (bind_ok _ _ e (self e) e) in H by reflexivity.
  apply bind_inv in H as [([ys g] & e1 & H1 & H)|(ex & H1 & _)].
  - apply (fetch_loop_keeps _ _ _ _ _ _ Hprev) in H1.
    destruct g as [d0 n0|d0 pid post it|].
    + inversion H; subst. exact H1.
    + inversion H; subst. exact H1.
    + unfold _save_state in H.
      rewrite (bind_ok _ _ _ _ _ (update_self_spec _ _)) in H.
      erewrite bind_ok in H by reflexivity. simpl in H.
      destruct (subscription (self e1)) as [sub|].
      * apply bind_inv in H as [([] & e2 & H2 & H)|(ex & H2 & _)];
          apply in_core_keeps in H2; try (apply Hemit; reflexivity); simpl in H2.
        -- inversion H; subst. etransitivity; eassumption.
        -- etransitivity; eassumption.
      * inversion H; subst. exact H1.
  - apply (fetch_loop_keeps _ _ _ _ _ _ Hprev) in H1. exact H1.
Qed.

End FetchKeeps.

(** *** [fetch] without subscription *)

Section OneOffFetch.
Import CreatorIterator Paginator Walk Fetching Normalizer.
Context (W : World).

Hint Resolve thumbs_download_file thumbs_post_time_of thumbs_attach_tags
  thumbs_thumb_attr thumbs_py_split thumbs_current_or_new_file
  thumbs_find_or_create_content_post thumbs_find_or_create_collection_post
  thumbs_resolve_file thumbs_gallery_photo thumbs_blog_section
  thumbs_content_to_post thumbs_collection_thumbnail thumbs_update_existing
  thumbs_content_step : thumbs.

Lemma thumbs_to_remote_posts post anchor :
  keeps thumbs_only (Fantia._to_remote_posts W post anchor true).
Proof. unfold Fantia._to_remote_posts. thumbs_all. Qed.

(** X9. A fetch on an iterator without subscription (one made by
    [search]) is a preview: however it ends, it only adds to the trace
    and no import it makes is handed an original. *)
Theorem one_off_fetch_imports_no_original (fuel : nat) (direction : FetchDirection.t)
    (n : option Z) (e : Env) r (e' : Env) :
  subscription (self e) = None ->
  fetch W fuel direction n e = (r, e') ->
  exists evs, trace (core e') = trace (core e) ++ evs /\
    forall file orig thumb, ImportFile file orig thumb ∈ evs -> orig = None.
Proof.
  intros Hnone H.
  assert (thumbs_only (core e) (core e')) as (evs & Ht & Hall).
  { eapply (fetch_keeps W thumbs_only thumbs_emit true); [| |exact H].
    - intros post. apply thumbs_to_remote_posts.
    - rewrite Hnone. reflexivity. }
  exists evs. split; [exact Ht|]. intros file orig thumb Hin.
  rewrite Forall_forall in Hall. specialize (Hall _ Hin).
  destruct orig; [discriminate|reflexivity].
Qed.

End OneOffFetch.

(** X9, witness: a search for creator 9, fetched once. *)
Lemma one_off_fetch_imports_no_original_witness :
  let e := {| CreatorIterator.self :=
                {| CreatorIterator.subscription := None;
                   CreatorIterator.state := Cursor.empty;
                   CreatorIterator.creator_id := "9";
                   CreatorIterator.head_id := None;
                   CreatorIterator.tail_id := None |};
              CreatorIterator.core := Sample.empty_store |} in
  let out := CreatorIterator.fetch Sample.world 5 FetchDirection.newer None e in
  CreatorIterator.subscription (CreatorIterator.self e) = None /\
  exists evs,
    trace (CreatorIterator.core out.2) = trace (CreatorIterator.core e) ++ evs /\
    forall file orig thumb, ImportFile file orig thumb ∈ evs -> orig = None.
Proof.
  intros e out. split; [reflexivity|].
  exact (one_off_fetch_imports_no_original Sample.world 5 FetchDirection.newer None e
           out.1 out.2 eq_refl (surjective_pairing _)).
Defined.

(** *** What a normalization conserves *)

Section Conserves.
Import Normalizer Ledger.

Lemma same_columns_refl p : same_columns p p.
Proof. repeat split. Qed.
Lemma same_columns_trans p q r :
  same_columns p q -> same_columns q r -> same_columns p r.
Proof. unfold same_columns. intuition congruence. Qed.
Lemma same_file_columns_refl f : same_file_columns f f.
Proof. repeat split. Qed.
Lemma same_file_columns_trans f g h :
  same_file_columns f g -> same_file_columns g h -> same_file_columns f h.
Proof. unfold same_file_columns. intuition congruence. Qed.
Lemma same_tag_key_refl g : same_tag_key g g.
Proof. repeat split. Qed.
Lemma same_tag_key_trans f g h :
  same_tag_key f g -> same_tag_key g h -> same_tag_key f h.
Proof. unfold same_tag_key. intuition congruence. Qed.

Lemma grown_refl {A} (l : list A) : exists rows, l = l ++ rows.
Proof. exists []. rewrite app_nil_r. reflexivity. Qed.

Lemma kept_refl {A} (same : A -> A -> Prop) (l : list A) :
  (forall x, same x x) ->
  forall h x, l !! h = Some x -> exists x', l !! h = Some x' /\ same x x'.
Proof. intros Hrefl h x Hh. eauto. Qed.

Lemma kept_app {A} (same : A -> A -> Prop) (l more : list A) :
  (forall x, same x x) ->
  forall h x, l !! h = Some x -> exists x', (l ++ more) !! h = Some x' /\ same x x'.
Proof.
  intros Hrefl h x Hh. exists x. split; [|apply Hrefl].
  rewrite lookup_app_l; [assumption | eapply lookup_lt_Some; eassumption].
Qed.

Lemma kept_alter {A} (same : A -> A -> Prop) (l : list A) (f : A -> A) (i : nat) :
  (forall x, same x x) -> (forall x, same x (f x)) ->
  forall h x, l !! h = Some x -> exists x', alter f i l !! h = Some x' /\ same x x'.
Proof.
  intros Hrefl Hf h x Hh. destruct (decide (i = h)) as [->|Hne].
  - rewrite list_lookup_alter_eq, Hh. simpl. eauto.
  - rewrite list_lookup_alter_ne by assumption. eauto.
Qed.

#[global] Instance conserves_preorder : PreOrder conserves.
Proof.
  split.
  - intros s. split; eauto using kept_refl, same_columns_refl, same_file_columns_refl,
      same_tag_key_refl, grown_refl.
  - intros s1 s2 s3 [Hs1 Hp1 Hf1 Hg1 [r1 Hr1] [e1 He1]] [Hs2 Hp2 Hf2 Hg2 [r2 Hr2] [e2 He2]].
    split.
    + congruence.
    + intros h p Hh. destruct (Hp1 _ _ Hh) as (p' & Hh' & Hpp).
      destruct (Hp2 _ _ Hh') as (p'' & Hh'' & Hpp').
      eauto using same_columns_trans.
    + intros h f Hh. destruct (Hf1 _ _ Hh) as (f' & Hh' & Hff).
      destruct (Hf2 _ _ Hh') as (f'' & Hh'' & Hff').
      eauto using same_file_columns_trans.
    + intros h g Hh. destruct (Hg1 _ _ Hh) as (g' & Hh' & Hgg).
      destruct (Hg2 _ _ Hh') as (g'' & Hh'' & Hgg').
      eauto using same_tag_key_trans.
    + exists (r1 ++ r2). rewrite Hr2, Hr1, app_assoc. reflexivity.
    + exists (e1 ++ e2). rewrite He2, He1, app_assoc. reflexivity.
Qed.

Ltac conserves_intro :=
  split; simpl;
  eauto using kept_refl, kept_app, same_columns_refl, same_file_columns_refl,
    same_tag_key_refl, grown_refl.

Lemma conserves_emit ev : keeps conserves (emit ev).
Proof. intros s r s' H. inversion H; subst. conserves_intro. Qed.

Lemma conserves_log level format : keeps conserves (log level format).
Proof. apply conserves_emit. Qed.

Lemma conserves_commit : keeps conserves commit.
Proof. apply conserves_emit. Qed.

Lemma conserves_get_post h : keeps conserves (get_post h).
Proof.
  intros s r s' H. unfold get_post in H.
  destruct (remote_posts s !! h); inversion H; subst; reflexivity.
Qed.

Lemma conserves_get_file h : keeps conserves (get_file h).
Proof.
  intros s r s' H. unfold get_file in H.
  destruct (files s !! h); inversion H; subst; reflexivity.
Qed.

Lemma conserves_get_tag h : keeps conserves (get_tag h).
Proof.
  intros s r s' H. unfold get_tag in H.
  destruct (remote_tags s !! h); inversion H; subst; reflexivity.
Qed.

Lemma conserves_query_remote_post original_id :
  keeps conserves (query_remote_post original_id).
Proof. intros s r s' H. apply one_or_none_state in H. subst. reflexivity. Qed.

Lemma conserves_query_related a b : keeps conserves (query_related a b).
Proof. intros s r s' H. apply one_or_none_state in H. subst. reflexivity. Qed.

Lemma conserves_append_related remote_post content_post :
  keeps conserves (append_related remote_post content_post).
Proof.
  unfold append_related.
  apply keeps_bind; [typeclasses eauto | apply conserves_get_post | intros p].
  apply keeps_bind; [typeclasses eauto | apply conserves_get_post | intros c].
  intros s r s' H. inversion H; subst. conserves_intro.
Qed.

Lemma conserves_get_remote_tag category name :
  keeps conserves (get_remote_tag category name).
Proof.
  intros s r s' H. unfold get_remote_tag in H.
  destruct (select _ (remote_tags s)) as [|[h g] rest]; inversion H; subst.
  - conserves_intro.
  - reflexivity.
Qed.

Lemma conserves_update_tag h v :
  keeps conserves (update_tag h (RemoteTag.set_metadata_name v)).
Proof.
  intros s r s' H. inversion H; subst. conserves_intro.
  apply kept_alter; [apply same_tag_key_refl | intros g; split; reflexivity].
Qed.

Lemma conserves_update_post h f :
  (forall p, same_columns p (f p)) -> keeps conserves (update_post h f).
Proof.
  intros Hf s r s' H. inversion H; subst. conserves_intro.
  apply kept_alter; [apply same_columns_refl | exact Hf].
Qed.

Lemma conserves_set_type v : forall p, same_columns p (RemotePost.set_type v p).
Proof. intros p. repeat split. Qed.

Lemma conserves_set_comment v : forall p, same_columns p (RemotePost.set_comment v p).
Proof. intros p. repeat split. Qed.

Lemma conserves_add_new_post p : keeps conserves (add_new_post p).
Proof. intros s r s' H. inversion H; subst. conserves_intro. Qed.

Lemma conserves_add_new_file f : keeps conserves (add_new_file f).
Proof. intros s r s' H. inversion H; subst. conserves_intro. Qed.

Lemma conserves_import_file file orig thumb :
  keeps conserves (import_file file orig thumb).
Proof.
  unfold import_file.
  apply keeps_bind; [typeclasses eauto | apply conserves_emit | intros _].
  intros s r s' H. inversion H; subst. conserves_intro.
  apply kept_alter; [apply same_file_columns_refl | intros x; repeat split].
Qed.

End Conserves.

Create HintDb conserve.

#[global] Hint Resolve conserves_emit conserves_log conserves_commit conserves_get_post
  conserves_get_file conserves_get_tag conserves_query_remote_post
  conserves_query_related conserves_append_related conserves_get_remote_tag
  conserves_update_tag conserves_update_post conserves_set_type conserves_set_comment
  conserves_add_new_post conserves_add_new_file conserves_import_file : conserve.

Ltac conserves_step :=
  first
    [ solve [eauto with conserve]
    | apply (keeps_ret Ledger.conserves)
    | apply (keeps_raise Ledger.conserves)
    | apply (keeps_gets Ledger.conserves)
    | apply (keeps_flush Ledger.conserves)
    | apply (keeps_when_needed Ledger.conserves)
    | apply (keeps_bind Ledger.conserves); [|intros ?]
    | apply (keeps_foldM Ledger.conserves); intros ? ?
    | apply (keeps_for_each Ledger.conserves); intros ?
    | match goal with
      | |- Normalizer.keeps _ (match ?x with _ => _ end) => destruct x
      | |- Normalizer.keeps _ (if ?b then _ else _) => destruct b
      end ].

Ltac conserves_all := repeat (cbv zeta; conserves_step).

Section ConservesPlugin.
Import Normalizer Ledger.
Context (W : World).

Lemma conserves_download_file url filename :
  keeps conserves (Fantia._download_file W url filename).
Proof. unfold Fantia._download_file. conserves_all. Qed.
Hint Resolve conserves_download_file : conserve.

Lemma conserves_post_time_of post : keeps conserves (Fantia.post_time_of W post).
Proof. unfold Fantia.post_time_of. conserves_all. Qed.
Hint Resolve conserves_post_time_of : conserve.

Lemma conserves_attach_tags post p : keeps conserves (Fantia.attach_tags post p).
Proof. unfold Fantia.attach_tags. conserves_all. Qed.
Hint Resolve conserves_attach_tags : conserve.

Lemma conserves_thumb_attr post attr name :
  keeps conserves (Fantia.thumb_attr post attr name).
Proof. unfold Fantia.thumb_attr. conserves_all. Qed.
Hint Resolve conserves_thumb_attr : conserve.

Lemma conserves_py_split v sep : keeps conserves (@Fantia.py_split Store v sep).
Proof. unfold Fantia.py_split. conserves_all. Qed.
Hint Resolve conserves_py_split : conserve.

Lemma conserves_current_or_new_file h current_files order :
  keeps conserves (Fantia.current_or_new_file h current_files order).
Proof. unfold Fantia.current_or_new_file. conserves_all. Qed.
Hint Resolve conserves_current_or_new_file : conserve.

Lemma conserves_resolve_file file preview orig_url thumb_url :
  keeps conserves (Fantia.resolve_file W file preview orig_url thumb_url).
Proof. unfold Fantia.resolve_file. conserves_all. Qed.
Hint Resolve conserves_resolve_file : conserve.

Lemma conserves_gallery_photo h current_files preview photo :
  keeps conserves (Fantia.gallery_photo W h current_files preview photo).
Proof. unfold Fantia.gallery_photo. conserves_all. Qed.
Hint Resolve conserves_gallery_photo : conserve.

Lemma conserves_blog_section h current_files preview blog section :
  keeps conserves (Fantia.blog_section W h current_files preview blog section).
Proof. unfold Fantia.blog_section. conserves_all. Qed.
Hint Resolve conserves_blog_section : conserve.

Lemma conserves_find_or_create_content_post post content post_time :
  keeps conserves (Fantia.find_or_create_content_post post content post_time).
Proof. unfold Fantia.find_or_create_content_post. conserves_all. Qed.
Hint Resolve conserves_find_or_create_content_post : conserve.

Lemma conserves_find_or_create_collection_post post post_time :
  keeps conserves (Fantia.find_or_create_collection_post post post_time).
Proof. unfold Fantia.find_or_create_collection_post. conserves_all. Qed.
Hint Resolve conserves_find_or_create_collection_post : conserve.

Lemma conserves_content_to_post post content remote_post preview :
  keeps conserves (Fantia._content_to_post W post content remote_post preview).
Proof. unfold Fantia._content_to_post. conserves_all. Qed.
Hint Resolve conserves_content_to_post : conserve.

Lemma conserves_collection_thumbnail post h preview :
  keeps conserves (Fantia.collection_thumbnail W post h preview).
Proof. unfold Fantia.collection_thumbnail. conserves_all. Qed.
Hint Resolve conserves_collection_thumbnail : conserve.

Lemma conserves_update_existing post h preview :
  keeps conserves (Fantia.update_existing W post h preview).
Proof. unfold Fantia.update_existing. conserves_all. Qed.
Hint Resolve conserves_update_existing : conserve.

Lemma conserves_content_step post h preview acc content :
  keeps conserves (Fantia.content_step W post h preview acc content).
Proof. unfold Fantia.content_step. conserves_all. Qed.
Hint Resolve conserves_content_step : conserve.

Lemma conserves_to_remote_posts post anchor preview :
  keeps conserves (Fantia._to_remote_posts W post anchor preview).
Proof. unfold Fantia._to_remote_posts. conserves_all. Qed.

Lemma conserves_get_post_document post_id :
  keeps conserves (Fantia.get_post_document W post_id).
Proof. unfold Fantia.get_post_document. conserves_all. Qed.

(** X10. A normalization, with or without anchor, preview or not,
    completed or interrupted by an exception, never rewrites what the
    session holds: every post keeps its key, identity, url, title,
    time, metadata, favorite flag and tags (only [comment] and [type]
    are ever assigned again), every file its post, order and filename,
    every tag its category and name; links between posts and the trace
    are only added to. *)
Theorem normalization_conserves_session (post : Post.t) (anchor : option nat)
    (preview : bool) (st : Store) :
  conserves st (Fantia._to_remote_posts W post anchor preview st).2.
Proof.
  eapply conserves_to_remote_posts. apply surjective_pairing.
Qed.

End ConservesPlugin.

Section FetchConserves.
Import CreatorIterator Normalizer Ledger.
Context (W : World).

(** X11. A whole fetch, in either direction, with or without limit or
    subscription, however far it is consumed and however it ends,
    conserves the session: the posts, files and tags it held before
    are still there with the columns the plugin writes once, and links
    and trace have only been added to. *)
Theorem fetch_conserves_session (fuel : nat) (direction : FetchDirection.t)
    (n : option Z) (e : Env) :
  conserves (core e) (core (fetch W fuel direction n e).2).
Proof.
  eapply (fetch_keeps W conserves (fun ev _ => conserves_emit ev)
            (bool_decide (subscription (self e) = None))).
  - intros post. apply conserves_to_remote_posts.
  - reflexivity.
  - apply surjective_pairing.
Qed.

End FetchConserves.

(** *** Urls: [parse_url], [download] and the url a post is given *)

Section Matching.

Lemma head_flat_map {A B} (f : A -> list B) (l : list A) x y :
  head l = Some x -> head (f x) = Some y -> head (flat_map f l) = Some y.
Proof.
  destruct l as [|a l]; [discriminate|]. simpl. intros Hx Hy.
  inversion Hx; subst. destruct (f x) as [|b bs]; [discriminate|].
  simpl in *. exact Hy.
Qed.

Lemma re_match_head r s u g rest :
  head (run r s) = Some (u, g, rest) -> re_match r s = Some g.
Proof.
  unfold re_match. destruct (run r s) as [|[[u' g'] rest'] l]; [discriminate|].
  simpl. congruence.
Qed.

Lemma re_match_nil r s : run r s = [] -> re_match r s = None.
Proof. unfold re_match. intros ->. reflexivity. Qed.

Lemma head_run_seq r1 r2 s u1 g1 s1 u2 g2 s2 :
  head (run r1 s) = Some (u1, g1, s1) ->
  head (run r2 s1) = Some (u2, g2, s2) ->
  head (run (Seq r1 r2) s) = Some (u1 +:+ u2, g1 ++ g2, s2).
Proof.
  intros H1 H2. simpl. eapply head_flat_map; [exact H1|].
  simpl. destruct (run r2 s1) as [|x l]; [discriminate|].
  simpl in *. inversion H2; subst. reflexivity.
Qed.

Lemma head_run_lit l s rest :
  strip_prefix l s = Some rest -> head (run (Lit l) s) = Some (l, [], rest).
Proof. simpl. intros ->. reflexivity. Qed.

Lemma head_run_opt r s x : head (run r s) = Some x -> head (run (Opt r) s) = Some x.
Proof. simpl. destruct (run r s); [discriminate|]. simpl. auto. Qed.

Lemma head_run_opt_skip r s :
  run r s = [] -> head (run (Opt r) s) = Some (EmptyString, [], s).
Proof. simpl. intros ->. reflexivity. Qed.

Lemma head_run_named n r s u g rest :
  head (run r s) = Some (u, g, rest) ->
  head (run (Named n r) s) = Some (u, (n, u) :: g, rest).
Proof.
  simpl. destruct (run r s) as [|x l]; [discriminate|].
  simpl. intros H. inversion H; subst. reflexivity.
Qed.

Lemma cuts_all p s :
  all_chars p s = true -> exists rest, cuts p s = (s, EmptyString) :: rest.
Proof.
  induction s as [|c s IH]; simpl; intros H.
  - eauto.
  - apply andb_true_iff in H as [Hc Hs]. rewrite Hc.
    destruct (IH Hs) as (rest & ->). simpl. eauto.
Qed.

Lemma head_run_many1 p s :
  s <> EmptyString -> all_chars p s = true ->
  head (run (Many1 p) s) = Some (s, [], EmptyString).
Proof.
  intros Hne Hall. simpl. destruct (cuts_all _ _ Hall) as (rest & ->).
  rewrite filter_cons_True by exact Hne. reflexivity.
Qed.

Lemma all_chars_impl (p q : ascii -> bool) s :
  (forall c, p c = true -> q c = true) -> all_chars p s = true -> all_chars q s = true.
Proof.
  intros Hpq. induction s as [|c s IH]; simpl; [reflexivity|].
  intros H. apply andb_true_iff in H as [Hc Hs]. rewrite (Hpq _ Hc), (IH Hs). reflexivity.
Qed.

(** The post pattern on the url of a post. *)
Lemma post_regexp_post_format d :
  d <> EmptyString -> all_chars is_decimal d = true ->
  re_match POST_REGEXP (POST_FORMAT d) = Some [("post_id", d)].
Proof.
  intros Hne Hall.
  apply (re_match_head _ _
           ("http" +:+ "s" +:+ "://fantia.jp/posts/" +:+ d +:+ "" +:+ "" +:+ "")
           ([] ++ [] ++ [] ++ [("post_id", d)] ++ [] ++ [] ++ [])
           EmptyString).
  unfold POST_REGEXP, POST_FORMAT. cbn [PyStr.seq].
  apply (head_run_seq _ _ _ _ _ ("s://fantia.jp/posts/" +:+ d));
    [apply head_run_lit; reflexivity|].
  apply (head_run_seq _ _ _ _ _ ("://fantia.jp/posts/" +:+ d));
    [apply head_run_opt, head_run_lit; reflexivity|].
  apply (head_run_seq _ _ _ _ _ d); [apply head_run_lit; reflexivity|].
  apply (head_run_seq _ _ _ _ _ EmptyString);
    [apply head_run_named, head_run_many1; assumption|].
  apply (head_run_seq _ _ _ _ _ EmptyString); [apply head_run_opt_skip; reflexivity|].
  apply (head_run_seq _ _ _ _ _ EmptyString); [apply head_run_opt_skip; reflexivity|].
  reflexivity.
Qed.

Lemma isdigit_post_format d : isdigit (POST_FORMAT d) = false.
Proof. reflexivity. Qed.

Lemma is_decimal_pretty_N_char k : is_decimal (pretty_N_char k) = true.
Proof. unfold pretty_N_char. repeat (case_match; try reflexivity). Qed.

Lemma pretty_N_go_decimal x : forall s,
  s <> EmptyString /\ all_chars is_decimal s = true ->
  pretty_N_go x s <> EmptyString /\ all_chars is_decimal (pretty_N_go x s) = true.
Proof.
  induction (N.lt_wf_0 x) as [x _ IH]. intros s Hs.
  destruct (decide (x = 0)%N) as [->|Hx].
  - rewrite pretty_N_go_0. exact Hs.
  - rewrite pretty_N_go_step by lia. apply IH.
    + apply N.div_lt; lia.
    + split; [discriminate|]. simpl. rewrite is_decimal_pretty_N_char. apply Hs.
Qed.

(** [str(n)] of a natural number: a nonempty run of decimal digits. *)
Lemma pretty_Z_decimal (z : Z) :
  (0 <= z)%Z -> pretty z <> EmptyString /\ all_chars is_decimal (pretty z) = true.
Proof.
  intros Hz. destruct z as [|p|p]; [split; [discriminate|reflexivity] | | lia].
  unfold pretty, pretty_Z, pretty, pretty_positive, pretty, pretty_N.
  destruct (decide (N.pos p = 0%N)) as [|_]; [discriminate|].
  rewrite pretty_N_go_step by lia. apply pretty_N_go_decimal.
  split; [discriminate|]. simpl. rewrite is_decimal_pretty_N_char. reflexivity.
Qed.

Lemma split_hd sep a b :
  all_chars (fun c => negb (Ascii.eqb c sep)) a = true ->
  hd EmptyString (split sep (a +:+ String sep b)) = a.
Proof.
  induction a as [|c a IH]; simpl; intros H.
  - rewrite Ascii.eqb_refl. reflexivity.
  - apply andb_true_iff in H as [Hc Ha]. apply negb_true_iff in Hc. rewrite Hc.
    specialize (IH Ha). destruct (split sep (a +:+ String sep b)) as [|w ws]; simpl in *.
    + subst a. reflexivity.
    + subst w. reflexivity.
Qed.

Lemma split_hd_whole sep a :
  all_chars (fun c => negb (Ascii.eqb c sep)) a = true ->
  hd EmptyString (split sep a) = a.
Proof.
  induction a as [|c a IH]; simpl; intros H; [reflexivity|].
  apply andb_true_iff in H as [Hc Ha]. apply negb_true_iff in Hc. rewrite Hc.
  specialize (IH Ha). destruct (split sep a) as [|w ws]; simpl in *.
  - subst a. reflexivity.
  - subst w. reflexivity.
Qed.

Lemma decimal_no_dash d :
  all_chars is_decimal d = true ->
  all_chars (fun c => negb (Ascii.eqb c "-")) d = true.
Proof.
  apply all_chars_impl. intros c Hc.
  destruct (Ascii.eqb_spec c "-") as [->|_]; [discriminate Hc | reflexivity].
Qed.

End Matching.

Section Urls.
Import Normalizer Ledger.
Context (W : World).

(** X12. The url the normalizer gives the posts of a record parses
    back to the id of the record: for a record id that is not
    negative, [parse_url] of the formatted url returns the id as
    written. *)
Theorem recorded_url_parses_back {S} (post_id : Z) (s : S) :
  (0 <= post_id)%Z ->
  Fantia.parse_url (POST_FORMAT (pretty post_id)) s = (Ok (Fantia.RemoteId (pretty post_id)), s).
Proof.
  intros Hz. destruct (pretty_Z_decimal _ Hz) as [Hne Hall].
  unfold Fantia.parse_url.
  rewrite isdigit_post_format, (post_regexp_post_format _ Hne Hall). reflexivity.
Qed.

Lemma log_run level format (st : Store) :
  log level format st = (Ok tt, with_trace (trace st ++ [Log level format]) st).
Proof. reflexivity. Qed.

(** What [download] does once it has the id of the record. *)
Lemma download_tail_trace post_id anchor preview st r st' :
  (post <- Fantia.get_post_document W post_id ;;
   log LDebug "post json: %s" ;;
   remote_posts <- Fantia._to_remote_posts W post anchor preview ;;
   ret (head remote_posts)) st = (r, st') ->
  exists evs, trace st' = trace st ++ HttpGet (POST_GET_URL post_id) :: evs.
Proof.
  unfold Fantia.get_post_document. intros H.
  apply bind_inv in H as [(post & s1 & H1 & H)|(ex & H1 & _)].
  - apply bind_inv in H1 as [([] & s0 & H0 & H1)|(ex0 & H0 & _)]; [|discriminate H0].
    inversion H0; subst s0.
    assert (conserves s1 st') as [_ _ _ _ _ (evs & He)]
      by (assert (keeps conserves
                    (log LDebug "post json: %s" ;;
                     remote_posts <- Fantia._to_remote_posts W post anchor preview ;;
                     ret (head remote_posts))) as K
            by (pose proof (conserves_to_remote_posts W); conserves_all);
          exact (K _ _ _ H)).
    destruct (api_post W (POST_GET_URL post_id)); inversion H1; subst s1.
    exists evs. rewrite He. simpl. rewrite <- app_assoc. reflexivity.
  - apply bind_inv in H1 as [([] & s0 & H0 & H1)|(ex0 & H0 & _)]; [|discriminate H0].
    inversion H0; subst s0.
    destruct (api_post W (POST_GET_URL post_id)); inversion H1; subst.
    exists []. reflexivity.
Qed.

(** X13. [download] by url accepts exactly the urls for which
    [parse_url] returns a remote id, and asks the API for the record
    of that id.  For every other url (one of a fanclub, which
    [parse_url] turns into search options, or one [parse_url] fails
    on) it raises [ValueError], with the [repr] of the url in its
    message, after the log line and with no request. *)
Theorem download_agrees_with_parse_url (url : string) (preview : bool) (st : Store) :
  match (Fantia.parse_url url st).1 with
  | Ok (Fantia.RemoteId post_id) =>
      exists evs,
        trace (Fantia.download W (Some url) None preview st).2 =
        trace st ++ Log LInfo "download request for %s"
                 :: HttpGet (POST_GET_URL post_id) :: evs
  | _ =>
      Fantia.download W (Some url) None preview st =
      (Raise (ValueError ("unsupported url: " +:+ repr url)),
       with_trace (trace st ++ [Log LInfo "download request for %s"]) st)
  end.
Proof.
  assert (Haccepted : forall post_id,
    (log LInfo "download request for %s" ;;
     if isdigit url then ret url
     else match re_match POST_REGEXP url with
          | None => raise (ValueError ("unsupported url: " +:+ repr url))
          | Some m => ret (default "" (group "post_id" m))
          end) st
    = (Ok post_id, with_trace (trace st ++ [Log LInfo "download request for %s"]) st) ->
    exists evs,
      trace (Fantia.download W (Some url) None preview st).2 =
      trace st ++ Log LInfo "download request for %s"
               :: HttpGet (POST_GET_URL post_id) :: evs).
  { intros post_id Hid. unfold Fantia.download.
    rewrite (bind_ok _ _ _ _ _ Hid).
    match goal with |- context [trace (?c ?s).2] =>
      destruct (download_tail_trace post_id None preview s (c s).1 (c s).2
                  (surjective_pairing _)) as (evs & He)
    end.
    exists evs. rewrite He. simpl. rewrite <- app_assoc. reflexivity. }
  unfold Fantia.parse_url.
  destruct (isdigit url) eqn:Hd.
  - simpl. apply Haccepted. rewrite (bind_ok _ _ _ _ _ (log_run _ _ _)). reflexivity.
  - destruct (re_match POST_REGEXP url) as [m|] eqn:Hp.
    + simpl. apply Haccepted. rewrite (bind_ok _ _ _ _ _ (log_run _ _ _)). reflexivity.
    + assert (Fantia.download W (Some url) None preview st =
              (Raise (ValueError ("unsupported url: " +:+ repr url)),
               with_trace (trace st ++ [Log LInfo "download request for %s"]) st)) as Hno.
      { assert ((log LInfo "download request for %s" ;;
                 if isdigit url then ret url
                 else match re_match POST_REGEXP url with
                      | None => raise (ValueError ("unsupported url: " +:+ repr url))
                      | Some m => ret (default "" (group "post_id" m))
                      end) st
                = (Raise (ValueError ("unsupported url: " +:+ repr url)),
                   with_trace (trace st ++ [Log LInfo "download request for %s"]) st))
          as Hr by (rewrite (bind_ok _ _ _ _ _ (log_run _ _ _)), Hd, Hp; reflexivity).
        unfold Fantia.download. rewrite (bind_raise _ _ _ _ _ Hr). reflexivity. }
      destruct (re_match FANCLUB_REGEXP url); exact Hno.
Qed.

(** X14. A download by url that completes never returns [None]: it
    returns the collection post of the record the API answered with,
    and the identity of that post is the id written in the record,
    not the text the url carried. *)
Theorem download_returns_collection_post (url : string) (preview : bool)
    (st : Store) (r : option nat) (st' : Store) :
  Fantia.download W (Some url) None preview st = (Ok r, st') ->
  exists h post_id post,
    r = Some h /\
    (Fantia.parse_url url st).1 = Ok (Fantia.RemoteId post_id) /\
    api_post W (POST_GET_URL post_id) = Some post /\
    is_post st' h (pretty (Post.id post)).
Proof.
  unfold Fantia.download. intros H.
  ok_bind H as post_id s1 H1. ok_bind H as post s2 H2.
  ok_bind H as u s3 H3. ok_bind H as posts s4 H4. inversion H; subst.
  apply to_remote_posts_recorded in H4 as (h0 & hs & -> & Hpost & _).
  exists h0, post_id, post. split; [reflexivity|]. split; [|split; [|exact Hpost]].
  - ok_bind H1 as u1 s0 H0. change (default "" (Some url)) with url in H1.
    unfold Fantia.parse_url.
    destruct (isdigit url); [inversion H1; subst; reflexivity|].
    destruct (re_match POST_REGEXP url); inversion H1; subst; reflexivity.
  - unfold Fantia.get_post_document in H2. ok_bind H2 as u2 s0 H0.
    destruct (api_post W (POST_GET_URL post_id)); inversion H2; subst; reflexivity.
Qed.

(** X15. An update request ignores the url it is given and asks the
    API for the record the anchor belongs to: for the collection post
    of a record, and for the post of one of its content items, the
    request is for the record's own id. *)
Theorem update_requests_parent_document (url : option string) (h : nat)
    (p : RemotePost.t) (post : Post.t) (content : Content.t) (preview : bool)
    (st : Store) :
  remote_posts st !! h = Some p ->
  (0 <= Post.id post)%Z ->
  RemotePost.original_id p = pretty (Post.id post) \/
  RemotePost.original_id p = Fantia.content_original_id post content ->
  exists evs,
    trace (Fantia.download W url (Some h) preview st).2 =
    trace st ++ Log LInfo "update request for %s"
             :: HttpGet (POST_GET_URL (pretty (Post.id post))) :: evs.
Proof.
  intros Hp Hz Hid.
  destruct (pretty_Z_decimal _ Hz) as [_ Hall]. apply decimal_no_dash in Hall.
  assert (hd EmptyString (split "-" (RemotePost.original_id p)) = pretty (Post.id post))
    as Hhd.
  { destruct Hid as [-> | ->].
    - apply split_hd_whole, Hall.
    - unfold Fantia.content_original_id. apply split_hd, Hall. }
  assert (Fantia.download W url (Some h) preview st =
          (post0 <- Fantia.get_post_document W (pretty (Post.id post)) ;;
           log LDebug "post json: %s" ;;
           remote_posts <- Fantia._to_remote_posts W post0 (Some h) preview ;;
           ret (head remote_posts))
            (with_trace (trace st ++ [Log LInfo "update request for %s"]) st)) as ->.
  { unfold Fantia.download.
    assert ((p0 <- get_post h ;;
             log LInfo "update request for %s" ;;
             ret (hd EmptyString (split "-" (RemotePost.original_id p0)))) st
            = (Ok (pretty (Post.id post)),
               with_trace (trace st ++ [Log LInfo "update request for %s"]) st)) as Hrun.
    { rewrite (bind_ok _ _ st p st) by (unfold get_post; rewrite Hp; reflexivity).
      rewrite (bind_ok _ _ _ _ _ (log_run _ _ _)). rewrite Hhd. reflexivity. }
    destruct url; rewrite (bind_ok _ _ _ _ _ Hrun); reflexivity. }
  match goal with |- context [trace (?c ?s).2] =>
    destruct (download_tail_trace (pretty (Post.id post)) (Some h) preview s
                (c s).1 (c s).2 (surjective_pairing _)) as (evs & He)
  end.
  exists evs. rewrite He. simpl. rewrite <- app_assoc. reflexivity.
Qed.

End Urls.

(** X12, witness: record 123. *)
Lemma recorded_url_parses_back_witness :
  (0 <= 123)%Z /\
  Fantia.parse_url (POST_FORMAT (pretty 123%Z)) tt = (Ok (Fantia.RemoteId "123"), tt).
Proof.
  split; [lia|]. exact (recorded_url_parses_back 123 tt ltac:(lia)).
Defined.

(** X14, witness: the url of record 123 of the sample. *)
Lemma download_returns_collection_post_witness :
  let out := Fantia.download Sample.world (Some "https://fantia.jp/posts/123") None
               false Sample.empty_store in
  out.1 = Ok (Some 0%nat) /\
  exists h post_id post,
    Some 0%nat = Some h /\
    (Fantia.parse_url "https://fantia.jp/posts/123" Sample.empty_store).1
      = Ok (Fantia.RemoteId post_id) /\
    api_post Sample.world (POST_GET_URL post_id) = Some post /\
    Normalizer.is_post out.2 h (pretty (Post.id post)).
Proof.
  intros out.
  assert (Hrun : Fantia.download Sample.world (Some "https://fantia.jp/posts/123") None
                   false Sample.empty_store = (Ok (Some 0%nat), out.2))
    by (vm_compute; reflexivity).
  split; [vm_compute; reflexivity|].
  exact (download_returns_collection_post Sample.world "https://fantia.jp/posts/123"
           false Sample.empty_store (Some 0%nat) out.2 Hrun).
Defined.

(** X15, witness: the post of content 45 of record 123, with the url
    of another record. *)
Lemma update_requests_parent_document_witness :
  let p := Fantia.new_remote_post 1 "123-45" "https://fantia.jp/posts/123" "title"
             "comment" 0 None false in
  let st := with_remote_posts [p] Sample.empty_store in
  remote_posts st !! 0%nat = Some p /\
  RemotePost.original_id p
    = Fantia.content_original_id Sample.post123 (Sample.content 45 "file" "visible") /\
  exists evs,
    trace (Fantia.download Sample.world (Some "https://fantia.jp/posts/999")
             (Some 0%nat) false st).2 =
    trace st ++ Log LInfo "update request for %s"
             :: HttpGet (POST_GET_URL "123") :: evs.
Proof.
  intros p st. split; [reflexivity|]. split; [reflexivity|].
  exact (update_requests_parent_document Sample.world
           (Some "https://fantia.jp/posts/999") 0 p Sample.post123
           (Sample.content 45 "file" "visible") false st eq_refl
           ltac:(vm_compute; discriminate) (or_intror eq_refl)).
Defined.

(** *** Text and blog items *)

Section Fileless.
Import Normalizer Ledger.

#[global] Instance fileless_preorder : PreOrder fileless.
Proof.
  split.
  - intros s. split; [reflexivity|]. exists []. rewrite app_nil_r.
    split; [reflexivity|constructor].
  - intros s1 s2 s3 (Hf1 & e1 & H1 & F1) (Hf2 & e2 & H2 & F2).
    split; [congruence|]. exists (e1 ++ e2).
    rewrite H2, H1, app_assoc. split; [reflexivity|]. apply Forall_app. auto.
Qed.

Lemma fileless_same s s' : files s' = files s -> trace s' = trace s -> fileless s s'.
Proof.
  intros Hf Ht. split; [exact Hf|]. exists []. rewrite app_nil_r.
  split; [exact Ht|constructor].
Qed.

Lemma fileless_log level format : keeps fileless (log level format).
Proof.
  intros s r s' H. inversion H; subst. split; [reflexivity|].
  exists [Log level format]. split; [reflexivity|]. repeat constructor.
Qed.

Lemma fileless_get_post h : keeps fileless (get_post h).
Proof.
  intros s r s' H. unfold get_post in H.
  destruct (remote_posts s !! h); inversion H; subst; reflexivity.
Qed.

Lemma fileless_get_tag h : keeps fileless (get_tag h).
Proof.
  intros s r s' H. unfold get_tag in H.
  destruct (remote_tags s !! h); inversion H; subst; reflexivity.
Qed.

Lemma fileless_query_remote_post original_id :
  keeps fileless (query_remote_post original_id).
Proof. intros s r s' H. apply one_or_none_state in H. subst. reflexivity. Qed.

Lemma fileless_get_remote_tag category name :
  keeps fileless (get_remote_tag category name).
Proof.
  intros s r s' H. unfold get_remote_tag in H.
  destruct (select _ (remote_tags s)) as [|[h g] rest]; inversion H; subst;
    apply fileless_same; reflexivity.
Qed.

Lemma fileless_update_tag h f : keeps fileless (update_tag h f).
Proof. intros s r s' H. inversion H; subst. apply fileless_same; reflexivity. Qed.

Lemma fileless_update_post h f : keeps fileless (update_post h f).
Proof. intros s r s' H. inversion H; subst. apply fileless_same; reflexivity. Qed.

Lemma fileless_add_new_post p : keeps fileless (add_new_post p).
Proof. intros s r s' H. inversion H; subst. apply fileless_same; reflexivity. Qed.

End Fileless.

Create HintDb fileless.

#[global] Hint Resolve fileless_log fileless_get_post fileless_get_tag
  fileless_query_remote_post fileless_get_remote_tag fileless_update_tag
  fileless_update_post fileless_add_new_post : fileless.

Ltac fileless_step :=
  first
    [ solve [eauto with fileless]
    | apply (keeps_ret Ledger.fileless)
    | apply (keeps_raise Ledger.fileless)
    | apply (keeps_gets Ledger.fileless)
    | apply (keeps_bind Ledger.fileless); [|intros ?]
    | apply (keeps_foldM Ledger.fileless); intros ? ?
    | match goal with
      | |- Normalizer.keeps _ (match ?x with _ => _ end) => destruct x
      | |- Normalizer.keeps _ (if ?b then _ else _) => destruct b
      end ].

Ltac fileless_all := repeat (cbv zeta; fileless_step).

Section Categories.
Import Normalizer Ledger.
Context (W : World).

Lemma fileless_find_or_create_content_post post content post_time :
  keeps fileless (Fantia.find_or_create_content_post post content post_time).
Proof.
  unfold Fantia.find_or_create_content_post, Fantia.attach_tags. fileless_all.
Qed.

Lemma update_post_run h f (s : Store) :
  update_post h f s = (Ok tt, with_remote_posts (alter f h (remote_posts s)) s).
Proof. reflexivity. Qed.

(** X16. A text item has no file: normalizing it, however that ends,
    leaves the files of the session as they are and adds only log
    lines to the trace (no request, download or import); when it
    completes, the post it returns is the post of the item and has the
    type [set]. *)
Theorem text_item_has_no_file (post : Post.t) (content : Content.t) (preview : bool)
    (st : Store) r (st' : Store) :
  Content.category content = "text" ->
  Fantia._content_to_post W post content None preview st = (r, st') ->
  fileless st st' /\
  forall h, r = Ok h ->
    exists p, remote_posts st' !! h = Some p /\
              RemotePost.original_id p = Fantia.content_original_id post content /\
              RemotePost.type p = PostType.set.
Proof.
  intros Hc H. unfold Fantia._content_to_post in H. rewrite Hc in H.
  cbn [String.eqb Ascii.eqb Bool.eqb] in H. split.
  - refine (_ st r st' H).
    change (keeps fileless
              (post_time <- Fantia.post_time_of W post ;;
               log LInfo "getting post %s" ;;
               remote_post <- Fantia.find_or_create_content_post post content post_time ;;
               update_post remote_post (RemotePost.set_type PostType.set) ;;
               ret remote_post)).
    pose proof fileless_find_or_create_content_post.
    unfold Fantia.post_time_of. fileless_all.
  - intros h ->.
    ok_bind H as post_time s1 H1. ok_bind H as u s2 H2. ok_bind H as h0 s3 H3.
    ok_bind H as u' s4 H4. inversion H; subst.
    apply find_or_create_content_post_is_post in H3 as (p & Hp & _ & Hid).
    rewrite update_post_run in H4. inversion H4; subst. simpl.
    exists (RemotePost.set_type PostType.set p).
    rewrite list_lookup_alter_eq, Hp. auto.
Qed.

(** X17. A blog item that is normalized to completion leaves its post
    with the type [blog] and, as comment, the entries of the segments
    of known form of the item's document, in their order. *)
Theorem blog_item_result (post : Post.t) (content : Content.t) (preview : bool)
    (st : Store) (h : nat) (st' : Store) :
  Content.category content = "blog" ->
  Fantia._content_to_post W post content None preview st = (Ok h, st') ->
  exists ops p,
    json_ops W (Content.comment content) = Some ops /\
    remote_posts st' !! h = Some p /\
    RemotePost.original_id p = Fantia.content_original_id post content /\
    RemotePost.type p = PostType.blog /\
    RemotePost.comment p = BlogJson (omap entry_of ops).
Proof.
  intros Hc H. unfold Fantia._content_to_post in H. rewrite Hc in H.
  cbn [String.eqb Ascii.eqb Bool.eqb] in H.
  ok_bind H as post_time s1 H1. ok_bind H as u s2 H2. ok_bind H as h0 s3 H3.
  ok_bind H as u' s4 H4. inversion H; subst.
  apply find_or_create_content_post_is_post in H3.
  ok_bind H4 as current_files s5 H5. inversion H5; subst.
  destruct (json_ops W (Content.comment content)) as [ops|] eqn:Hops;
    [|ok_bind H4 as x s6 H6; discriminate H6].
  ok_bind H4 as sections s6 H6. inversion H6; subst.
  ok_bind H4 as blog s7 H7.
  assert (extends s6 s7) as He
    by (eapply (keeps_foldM extends); [|exact H7];
        intros; apply extends_blog_section).
  apply blog_sections_entries in H7. simpl in H7. subst blog.
  destruct (is_post_extends _ _ _ _ He H3) as (p & Hp & _ & Hid).
  ok_bind H4 as u1 s8 H8. rewrite update_post_run in H8. inversion H8; subst.
  rewrite update_post_run in H4. inversion H4; subst. simpl.
  exists sections,
    (RemotePost.set_type PostType.blog
       (RemotePost.set_comment (BlogJson (omap entry_of sections)) p)).
  split; [reflexivity|].
  rewrite !list_lookup_alter_eq, Hp. auto.
Qed.

End Categories.

(** X16, witness: a visible text item of record 123. *)
Lemma text_item_has_no_file_witness :
  let c := Sample.content 46 "text" "visible" in
  let out := Fantia._content_to_post Sample.world Sample.post123 c None false
               Sample.empty_store in
  Content.category c = "text" /\
  Ledger.fileless Sample.empty_store out.2.
Proof.
  intros c out. split; [reflexivity|].
  exact (proj1 (text_item_has_no_file Sample.world Sample.post123 c false
                  Sample.empty_store out.1 out.2 eq_refl (surjective_pairing _))).
Defined.

(** X17, witness: the blog item of record 123. *)
Lemma blog_item_result_witness :
  let c := Sample.content 48 "blog" "visible" in
  let out := Fantia._content_to_post Sample.world Sample.post123 c None false
               Sample.empty_store in
  Content.category c = "blog" /\
  out.1 = Ok 0%nat /\
  exists ops p,
    json_ops Sample.world (Content.comment c) = Some ops /\
    remote_posts out.2 !! 0%nat = Some p /\
    RemotePost.original_id p = Fantia.content_original_id Sample.post123 c /\
    RemotePost.type p = PostType.blog /\
    RemotePost.comment p = BlogJson (omap Normalizer.entry_of ops).
Proof.
  intros c out. split; [reflexivity|].
  assert (Hrun : Fantia._content_to_post Sample.world Sample.post123 c None false
                   Sample.empty_store = (Ok 0%nat, out.2))
    by (vm_compute; reflexivity).
  split; [vm_compute; reflexivity|].
  exact (blog_item_result Sample.world Sample.post123 c false Sample.empty_store
           0%nat out.2 eq_refl Hrun).
Defined.

(** *** The thumbnail of a record that has none any more *)

Section LostThumbnail.
Import Normalizer.
Context (W : World).

Lemma collection_thumbnail_without_thumb post h preview (st : Store) fh f rest :
  post_files h st = (fh, f) :: rest ->
  Post.thumb post = None ->
  Fantia.need_orig f preview || Fantia.need_thumb f = true ->
  (Fantia.collection_thumbnail W post h preview st).1 =
    Raise (AttributeError
             (if Fantia.need_orig f preview
              then "'NoneType' object has no attribute 'original'"
              else "'NoneType' object has no attribute 'medium'")).
Proof.
  intros Hfiles Hthumb Hneed.
  assert (files st !! fh = Some f) as Hf.
  { apply (elem_of_post_files st h fh f). rewrite Hfiles. apply list_elem_of_here. }
  unfold Fantia.collection_thumbnail.
  rewrite (bind_ok _ _ st ((fh, f) :: rest) st) by (unfold gets; rewrite Hfiles; reflexivity).
  rewrite (bind_ok _ _ st (Some fh) st) by reflexivity.
  rewrite (bind_ok _ _ st f st) by (unfold get_file; rewrite Hf; reflexivity).
  cbv zeta. rewrite Hneed.
  rewrite (bind_ok _ _ _ _ _ (log_run _ _ _)).
  unfold Fantia.thumb_attr. rewrite Hthumb.
  destruct (Fantia.need_orig f preview); simpl in Hneed.
  - reflexivity.
  - rewrite Hneed. reflexivity.
Qed.

(** X18. A record without thumbnail whose collection post already has
    a file that still needs something: the normalization raises
    [AttributeError], because [post.thumb.original] or
    [post.thumb.medium] is read from [None].  (The branch for file
    items tests [post.thumb] first; this one does not.) *)
Theorem record_without_thumb_raises (post : Post.t) (preview : bool) (st : Store)
    (t : Z) (h fh : nat) (f : File.t) (rest : list (nat * File.t)) :
  parse_time W (Post.posted_at post) = Some t ->
  fst <$> posts_by_original_id (pretty (Post.id post)) st = [h] ->
  post_files h st = (fh, f) :: rest ->
  Post.thumb post = None ->
  Fantia.need_orig f preview || Fantia.need_thumb f = true ->
  (Fantia._to_remote_posts W post None preview st).1 =
    Raise (AttributeError
             (if Fantia.need_orig f preview
              then "'NoneType' object has no attribute 'original'"
              else "'NoneType' object has no attribute 'medium'")).
Proof.
  intros Ht Hq Hfiles Hthumb Hneed.
  pose (st1 := with_trace (trace st ++ [Log LInfo "getting post %s"]) st).
  pose proof (collection_thumbnail_without_thumb post h preview st1 fh f rest
                Hfiles Hthumb Hneed) as Hraise.
  destruct (Fantia.collection_thumbnail W post h preview st1) as [r st2] eqn:Hrun.
  simpl in Hraise. subst r.
  unfold Fantia._to_remote_posts.
  rewrite (bind_ok _ _ st t st) by (unfold Fantia.post_time_of; rewrite Ht; reflexivity).
  rewrite (bind_ok _ _ _ _ _ (log_run _ _ _)).
  rewrite (bind_ok _ _ st1 None st1) by reflexivity.
  assert (Fantia.find_or_create_collection_post post t st1 = (Ok h, st1)) as Hfind.
  { unfold Fantia.find_or_create_collection_post. cbv zeta.
    rewrite (bind_ok _ _ st1 (Some h) st1); [reflexivity|].
    unfold query_remote_post.
    change (posts_by_original_id (pretty (Post.id post)) st1)
      with (posts_by_original_id (pretty (Post.id post)) st).
    change (map fst (posts_by_original_id (pretty (Post.id post)) st))
      with (fst <$> posts_by_original_id (pretty (Post.id post)) st).
    rewrite Hq. reflexivity. }
  rewrite (bind_ok _ _ _ _ _ Hfind).
  rewrite (bind_raise _ _ _ _ _ Hrun). reflexivity.
Qed.

End LostThumbnail.

(** X18, witness: record 123 without thumbnail, against a session that
    has its collection post and a file of it that was never imported. *)
Lemma record_without_thumb_raises_witness :
  let post := {| Post.id := 123; Post.fanclub_id := 9; Post.fanclub_user_name := "alice";
                 Post.posted_at := "2020-11-03T12:00:00+09:00";
                 Post.title := "Title"; Post.comment := "Comment"; Post.liked := false;
                 Post.tags := []; Post.rating := "general"; Post.thumb := None;
                 Post.post_contents := [];
                 Post.links_next := None; Post.links_previous := None |} in
  let p := Fantia.new_remote_post 1 "123" "https://fantia.jp/posts/123" "Title"
             "Comment" 0 None false in
  let f := Fantia.new_file 0 0 None in
  let st := with_files [f] (with_remote_posts [p] Sample.empty_store) in
  fst <$> posts_by_original_id (pretty (Post.id post)) st = [0%nat] /\
  post_files 0 st = [(0%nat, f)] /\
  Fantia.need_orig f false || Fantia.need_thumb f = true /\
  (Fantia._to_remote_posts Sample.world post None false st).1 =
    Raise (AttributeError "'NoneType' object has no attribute 'original'").
Proof.
  intros post p f st.
  split; [vm_compute; reflexivity|]. split; [reflexivity|]. split; [reflexivity|].
  exact (record_without_thumb_raises Sample.world post false st 1604372400 0 0 f []
           eq_refl ltac:(vm_compute; reflexivity) eq_refl eq_refl eq_refl).
Defined.

(** *** Searches and subscriptions *)

Section Subscriptions.
Import CreatorIterator Fetching Plugin.
Context (W : World).

(** X19. [create_subscription] fails exactly when it is given
    neither options nor iterator.  Unlike [download] it has no guard
    for that call: it raises [AttributeError], and the session is as it
    was.  In every other case it adds one subscription to the session
    and nothing else. *)
Theorem create_subscription_needs_an_argument (name : string)
    (options : option string) (iterator : option t) (st : Store) :
  let out := create_subscription name options iterator st in
  ((exists e, out.1 = Raise e) <-> options = None /\ iterator = None) /\
  (options = None /\ iterator = None ->
   out = (Raise (AttributeError "'NoneType' object has no attribute 'to_json'"), st)) /\
  ((exists v, out.1 = Ok v) ->
   out.2 = with_trace (trace st ++ [AddSubscription]) st).
Proof.
  assert (Hgiven : forall out : result (subscription_row * option t) * Store,
            (exists v, out.1 = Ok v) ->
            ~ (options = None /\ iterator = None) ->
            out.2 = with_trace (trace st ++ [AddSubscription]) st ->
            ((exists e, out.1 = Raise e) <-> options = None /\ iterator = None) /\
            (options = None /\ iterator = None ->
             out = (Raise (AttributeError "'NoneType' object has no attribute 'to_json'"),
                    st)) /\
            ((exists v, out.1 = Ok v) ->
             out.2 = with_trace (trace st ++ [AddSubscription]) st)).
  { intros out (v & Hv) Hno Hst. split; [split|split].
    - intros (e & He). congruence.
    - intros Hboth. contradiction.
    - intros Hboth. contradiction.
    - intros _. exact Hst. }
  destruct iterator as [it|], options as [creator|]; cbv zeta.
  - apply Hgiven; [eexists; reflexivity | intros [? ?]; discriminate | reflexivity].
  - apply Hgiven; [eexists; reflexivity | intros [? ?]; discriminate | reflexivity].
  - apply Hgiven; [eexists; reflexivity | intros [? ?]; discriminate | reflexivity].
  - split; [split|split].
    + intros _. split; reflexivity.
    + intros _. eexists. reflexivity.
    + intros _. reflexivity.
    + intros (v & Hv). discriminate Hv.
Qed.

(** X20. Subscribing to a search that has not been fetched is the
    same as subscribing to its options: both calls add the same row
    (the options given next to the iterator are not looked at), and an
    iterator made from that row is the one the search made, with the
    subscription in it. *)
Theorem subscription_of_search (name : string) (creator : string)
    (ignored : option string) (it : t) (st : Store) :
  search (Some creator) = Ok it ->
  exists row st',
    create_subscription name ignored (Some it) st
      = (Ok (row, Some (set_subscription (Some (columns row)) it)), st') /\
    create_subscription name (Some creator) None st = (Ok (row, None), st') /\
    trace st' = trace st ++ [AddSubscription] /\
    get_iterator (Some (columns row)) = Ok (set_subscription (Some (columns row)) it).
Proof.
  intros H. inversion H; subst.
  exists {| source_id := core_source_id st; name := name;
            columns := {| Subscription.options_creator_id := creator;
                          Subscription.state := Cursor.empty;
                          Subscription.feed := [] |} |},
         (with_trace (trace st ++ [AddSubscription]) st).
  split; [reflexivity|]. split; [reflexivity|]. split; reflexivity.
Qed.

Lemma fetch_done_state (fuel : nat) direction n (e : Env) yielded e' :
  fetch W fuel direction n e = (Ok (yielded, true), e') ->
  state (self e') = cursor_of (self e') /\
  creator_id (self e') = creator_id (self e).
Proof.
  intros H. apply fetch_inv in H as (d' & g & e1 & Hloop & _ & _ & Hdone).
  destruct Hdone as (_ & Hs & _).
  destruct (fetch_loop_fields _ _ _ _ _ _ _ Hloop) as (_ & Hcr & _).
  rewrite Hs. simpl. split; [reflexivity|exact Hcr].
Qed.

(** X21. A subscription made from an iterator whose fetch was run to
    completion resumes where that fetch ended: the iterator made from
    the new row has the creator, the head and the tail of the iterator
    subscribed.  The feed of the new subscription is empty, whatever
    the fetch yielded. *)
Theorem subscription_resumes_completed_fetch (fuel : nat) (direction : FetchDirection.t)
    (n : option Z) (e : Env) (yielded : list nat) (e' : Env)
    (name : string) (options : option string) :
  fetch W fuel direction n e = (Ok (yielded, true), e') ->
  exists row st' it,
    create_subscription name options (Some (self e')) (core e')
      = (Ok (row, Some (set_subscription (Some (columns row)) (self e'))), st') /\
    Subscription.feed (columns row) = [] /\
    get_iterator (Some (columns row)) = Ok it /\
    creator_id it = creator_id (self e) /\
    head_id it = head_id (self e') /\
    tail_id it = tail_id (self e').
Proof.
  intros H. apply fetch_done_state in H as [Hst Hcr].
  pose (cols := {| Subscription.options_creator_id := creator_id (self e');
                   Subscription.state := state (self e');
                   Subscription.feed := [] |}).
  exists {| source_id := core_source_id (core e'); name := name; columns := cols |},
         (with_trace (trace (core e') ++ [AddSubscription]) (core e')),
         {| subscription := Some cols; state := state (self e');
            creator_id := creator_id (self e');
            head_id := Cursor.head_id (state (self e'));
            tail_id := Cursor.tail_id (state (self e')) |}.
  split; [reflexivity|]. split; [reflexivity|]. split; [reflexivity|].
  simpl. rewrite Hst. auto.
Qed.

End Subscriptions.

(** X20, witness: a search for creator 9. *)
Lemma subscription_of_search_witness :
  exists it,
    Plugin.search (Some "9") = Ok it /\
    exists row st',
      Plugin.create_subscription "alice" (Some "7") (Some it) Sample.empty_store
        = (Ok (row, Some (Plugin.set_subscription (Some (Plugin.columns row)) it)), st') /\
      Plugin.create_subscription "alice" (Some "9") None Sample.empty_store
        = (Ok (row, None), st') /\
      trace st' = trace Sample.empty_store ++ [AddSubscription] /\
      Plugin.get_iterator (Some (Plugin.columns row))
        = Ok (Plugin.set_subscription (Some (Plugin.columns row)) it).
Proof.
  eexists. split; [reflexivity|].
  exact (subscription_of_search "alice" "9" (Some "7") _ Sample.empty_store eq_refl).
Defined.

(** X21, witness: the search for creator 9, fetched to its end and
    then subscribed. *)
Lemma subscription_resumes_completed_fetch_witness :
  let e := {| CreatorIterator.self :=
                {| CreatorIterator.subscription := None;
                   CreatorIterator.state := Cursor.empty;
                   CreatorIterator.creator_id := "9";
                   CreatorIterator.head_id := None;
                   CreatorIterator.tail_id := None |};
              CreatorIterator.core := Sample.empty_store |} in
  let out := CreatorIterator.fetch Sample.world 5 FetchDirection.newer None e in
  out.1 = Ok ([0; 1; 2; 3; 4]%nat, true) /\
  exists row st' it,
    Plugin.create_subscription "alice" None (Some (CreatorIterator.self out.2))
      (CreatorIterator.core out.2)
      = (Ok (row, Some (Plugin.set_subscription (Some (Plugin.columns row))
                          (CreatorIterator.self out.2))), st') /\
    Subscription.feed (Plugin.columns row) = [] /\
    Plugin.get_iterator (Some (Plugin.columns row)) = Ok it /\
    CreatorIterator.creator_id it = CreatorIterator.creator_id (CreatorIterator.self e) /\
    CreatorIterator.head_id it = CreatorIterator.head_id (CreatorIterator.self out.2) /\
    CreatorIterator.tail_id it = CreatorIterator.tail_id (CreatorIterator.self out.2).
Proof.
  intros e out.
  assert (Hrun : CreatorIterator.fetch Sample.world 5 FetchDirection.newer None e
                 = (Ok ([0; 1; 2; 3; 4]%nat, true), out.2))
    by (vm_compute; reflexivity).
  split; [vm_compute; reflexivity|].
  exact (subscription_resumes_completed_fetch Sample.world 5 FetchDirection.newer None
           e [0; 1; 2; 3; 4]%nat out.2 "alice" None Hrun).
Defined.

(** *** The links between the posts of a record *)

Section Links.
Import Normalizer Ledger.
Context (W : World).

Lemma linked_conserves s s' a b : conserves s s' -> linked s a b -> linked s' a b.
Proof.
  intros [_ Hp _ _ [rows Hr] _] (p & c & Ha & Hb & Hin).
  destruct (Hp _ _ Ha) as (p' & Ha' & Hpid & _).
  destruct (Hp _ _ Hb) as (c' & Hb' & Hcid & _).
  exists p', c'. split; [exact Ha'|]. split; [exact Hb'|].
  rewrite Hpid, Hcid, Hr. apply elem_of_app. left. exact Hin.
Qed.

Lemma get_post_inv h (s : Store) p s' :
  get_post h s = (Ok p, s') -> s' = s /\ remote_posts s !! h = Some p.
Proof.
  unfold get_post. destruct (remote_posts s !! h); intros H; inversion H; subst.
  split; reflexivity.
Qed.

Lemma query_related_found a b (s : Store) i s' :
  query_related a b s = (Ok (Some i), s') ->
  s' = s /\ {| Related.related_to_id := a; Related.remote_id := b |} ∈ related s.
Proof.
  unfold query_related. intros H.
  assert (s' = s) as -> by (eapply one_or_none_state; eassumption).
  split; [reflexivity|].
  destruct (select _ (related s)) as [|[i1 r1] [|ir2 rows]] eqn:Hq;
    simpl in H; inversion H; subst.
  assert ((i, r1) ∈ select (fun r => bool_decide (Related.related_to_id r = a)
                                      && bool_decide (Related.remote_id r = b))
                           (related s)) as Hin
    by (rewrite Hq; apply list_elem_of_here).
  apply elem_of_select in Hin as [Hl Hp].
  apply andb_true_iff in Hp as [Ha Hb].
  apply bool_decide_eq_true in Ha. apply bool_decide_eq_true in Hb.
  destruct r1 as [x y]. simpl in *. subst.
  eapply list_elem_of_lookup_2. exact Hl.
Qed.

Lemma content_step_links post h0 preview acc content s acc' s' :
  Fantia.content_step W post h0 preview acc content s = (Ok acc', s') ->
  if visible content
  then exists hc, acc' = acc ++ [hc] /\ linked s' h0 hc
  else acc' = acc.
Proof.
  unfold Fantia.content_step, visible. intros H.
  destruct (String.eqb (Content.visible_status content) "visible");
    [|inversion H; reflexivity].
  ok_bind H as hc s1 H1. cbv zeta in H.
  ok_bind H as u s2 H2.
  assert (s2 = s1) as -> by (inversion H2; reflexivity). clear H2.
  ok_bind H as p s3 H3. apply get_post_inv in H3 as [-> Hp].
  ok_bind H as c s4 H4. apply get_post_inv in H4 as [-> Hc].
  ok_bind H as rel s5 H5.
  exists hc. destruct rel as [i|].
  - inversion H; subst. split; [reflexivity|].
    apply query_related_found in H5 as [-> Hin].
    exists p, c. auto.
  - apply one_or_none_state in H5. subst s5.
    ok_bind H as u' s6 H6. inversion H; subst. split; [reflexivity|].
    unfold append_related in H6.
    ok_bind H6 as p' s7 H7. apply get_post_inv in H7 as [-> Hp'].
    ok_bind H6 as c' s8 H8. apply get_post_inv in H8 as [-> Hc'].
    inversion H6; subst. exists p, c. simpl.
    split; [exact Hp|]. split; [exact Hc|].
    apply elem_of_app. right. apply list_elem_of_singleton. congruence.
Qed.

Lemma content_steps_links post h0 preview contents :
  forall acc s posts s',
    foldM (Fantia.content_step W post h0 preview) contents acc s = (Ok posts, s') ->
    exists hs, posts = acc ++ hs /\ Forall (linked s' h0) hs.
Proof.
  induction contents as [|c contents IH]; intros acc s posts s' H; simpl in H.
  - inversion H; subst. exists []. rewrite app_nil_r. split; [reflexivity|constructor].
  - ok_bind H as acc1 s1 H1.
    assert (conserves s1 s') as He
      by (eapply (keeps_foldM conserves); [|exact H];
          intros; apply conserves_content_step).
    apply content_step_links in H1.
    destruct (IH _ _ _ _ H) as (hs & -> & Hall).
    destruct (visible c).
    + destruct H1 as (hc & -> & Hl). exists (hc :: hs).
      rewrite <- app_assoc. split; [reflexivity|].
      constructor; [eapply linked_conserves; eassumption | exact Hall].
    + subst acc1. exists hs. auto.
Qed.

(** X22. A normalization without anchor that completes leaves every
    post it returns after the first linked to the first: the session
    has a [Related] row from the collection post of the record to the
    post of each of its visible items. *)
Theorem record_links_its_items (post : Post.t) (preview : bool) (st : Store)
    (posts : list nat) (st' : Store) :
  Fantia._to_remote_posts W post None preview st = (Ok posts, st') ->
  exists h0 hs,
    posts = h0 :: hs /\
    is_post st' h0 (pretty (Post.id post)) /\
    Forall2 (fun content hc =>
               is_post st' hc (Fantia.content_original_id post content) /\
               linked st' h0 hc)
            (List.filter visible (Post.post_contents post)) hs.
Proof.
  intros H.
  destruct (to_remote_posts_recorded _ _ _ _ _ _ H) as (h0 & hs & -> & Hp & _ & Hall).
  exists h0, hs. split; [reflexivity|]. split; [exact Hp|].
  unfold Fantia._to_remote_posts in H.
  ok_bind H as post_time s1 H1. ok_bind H as u s2 H2.
  ok_bind H as returned s3 H3. inversion H3; subst.
  ok_bind H as h s4 H4. ok_bind H as u' s5 H5.
  apply content_steps_links in H as (hs' & Heq & Hlinks).
  simpl in Heq. inversion Heq; subst h hs'.
  clear - Hall Hlinks.
  induction Hall as [|content hc items hs Hm Hall IH]; [constructor|].
  inversion Hlinks; subst. constructor.
  - split; [apply Hm | assumption].
  - apply IH. assumption.
Qed.

End Links.

(** X22, witness: record 123 of the sample. *)
Lemma record_links_its_items_witness :
  let out := Fantia._to_remote_posts Sample.world Sample.post123 None false
               Sample.empty_store in
  out.1 = Ok [0; 1; 2; 3]%nat /\
  exists h0 hs,
    [0; 1; 2; 3]%nat = h0 :: hs /\
    Normalizer.is_post out.2 h0 (pretty (Post.id Sample.post123)) /\
    Forall2 (fun content hc =>
               Normalizer.is_post out.2 hc
                 (Fantia.content_original_id Sample.post123 content) /\
               Ledger.linked out.2 h0 hc)
            (List.filter Normalizer.visible (Post.post_contents Sample.post123)) hs.
Proof.
  intros out.
  assert (Hrun : Fantia._to_remote_posts Sample.world Sample.post123 None false
                   Sample.empty_store = (Ok [0; 1; 2; 3]%nat, out.2))
    by (vm_compute; reflexivity).
  split; [vm_compute; reflexivity|].
  exact (record_links_its_items Sample.world Sample.post123 false Sample.empty_store
           [0; 1; 2; 3]%nat out.2 Hrun).
Defined.

(** *** Normalizing again: the links *)

Section SameLinks.
Import Normalizer Ledger.

#[global] Instance same_links_preorder : PreOrder same_links.
Proof.
  split.
  - intros s. reflexivity.
  - intros s1 s2 s3 H1 H2. unfold same_links in *. congruence.
Qed.

Lemma same_links_emit ev : keeps same_links (emit ev).
Proof. intros s r s' H. inversion H; subst. reflexivity. Qed.

Lemma same_links_log level format : keeps same_links (log level format).
Proof. apply same_links_emit. Qed.

Lemma same_links_get_post h : keeps same_links (get_post h).
Proof.
  intros s r s' H. unfold get_post in H.
  destruct (remote_posts s !! h); inversion H; subst; reflexivity.
Qed.

Lemma same_links_get_file h : keeps same_links (get_file h).
Proof.
  intros s r s' H. unfold get_file in H.
  destruct (files s !! h); inversion H; subst; reflexivity.
Qed.

Lemma same_links_get_tag h : keeps same_links (get_tag h).
Proof.
  intros s r s' H. unfold get_tag in H.
  destruct (remote_tags s !! h); inversion H; subst; reflexivity.
Qed.

Lemma same_links_query_remote_post original_id :
  keeps same_links (query_remote_post original_id).
Proof. intros s r s' H. apply one_or_none_state in H. subst. reflexivity. Qed.

Lemma same_links_query_related a b : keeps same_links (query_related a b).
Proof. intros s r s' H. apply one_or_none_state in H. subst. reflexivity. Qed.

Lemma same_links_get_remote_tag category name :
  keeps same_links (get_remote_tag category name).
Proof.
  intros s r s' H. unfold get_remote_tag in H.
  destruct (select _ (remote_tags s)) as [|[h g] rest]; inversion H; subst; reflexivity.
Qed.

Lemma same_links_update_tag h f : keeps same_links (update_tag h f).
Proof. intros s r s' H. inversion H; subst. reflexivity. Qed.

Lemma same_links_update_post h f : keeps same_links (update_post h f).
Proof. intros s r s' H. inversion H; subst. reflexivity. Qed.

Lemma same_links_add_new_post p : keeps same_links (add_new_post p).
Proof. intros s r s' H. inversion H; subst. reflexivity. Qed.

Lemma same_links_add_new_file f : keeps same_links (add_new_file f).
Proof. intros s r s' H. inversion H; subst. reflexivity. Qed.

Lemma same_links_import_file file orig thumb :
  keeps same_links (import_file file orig thumb).
Proof.
  unfold import_file.
  apply keeps_bind; [typeclasses eauto | apply same_links_emit | intros _].
  intros s r s' H. inversion H; subst. reflexivity.
Qed.

End SameLinks.

Create HintDb same_links.

#[global] Hint Resolve same_links_emit same_links_log same_links_get_post
  same_links_get_file same_links_get_tag same_links_query_remote_post
  same_links_query_related same_links_get_remote_tag same_links_update_tag
  same_links_update_post same_links_add_new_post same_links_add_new_file
  same_links_import_file : same_links.

Ltac same_links_step :=
  first
    [ solve [eauto with same_links]
    | apply (keeps_ret Ledger.same_links)
    | apply (keeps_raise Ledger.same_links)
    | apply (keeps_gets Ledger.same_links)
    | apply (keeps_flush Ledger.same_links)
    | apply (keeps_when_needed Ledger.same_links)
    | apply (keeps_bind Ledger.same_links); [|intros ?]
    | apply (keeps_foldM Ledger.same_links); intros ? ?
    | apply (keeps_for_each Ledger.same_links); intros ?
    | match goal with
      | |- Normalizer.keeps _ (match ?x with _ => _ end) => destruct x
      | |- Normalizer.keeps _ (if ?b then _ else _) => destruct b
      end ].

Ltac same_links_all := repeat (cbv zeta; same_links_step).

Section Relinking.
Import Normalizer Ledger.
Context (W : World).

Lemma same_links_find_or_create_content_post post content post_time :
  keeps same_links (Fantia.find_or_create_content_post post content post_time).
Proof.
  unfold Fantia.find_or_create_content_post, Fantia.attach_tags. same_links_all.
Qed.

Lemma same_links_find_or_create_collection_post post post_time :
  keeps same_links (Fantia.find_or_create_collection_post post post_time).
Proof.
  unfold Fantia.find_or_create_collection_post, Fantia.attach_tags. same_links_all.
Qed.

Lemma same_links_content_to_post post content remote_post preview :
  keeps same_links (Fantia._content_to_post W post content remote_post preview).
Proof.
  pose proof same_links_find_or_create_content_post.
  unfold Fantia._content_to_post, Fantia.post_time_of, Fantia.gallery_photo,
    Fantia.blog_section, Fantia.current_or_new_file, Fantia.resolve_file,
    Fantia._download_file.
  same_links_all.
Qed.

Lemma same_links_collection_thumbnail post h preview :
  keeps same_links (Fantia.collection_thumbnail W post h preview).
Proof.
  unfold Fantia.collection_thumbnail, Fantia.thumb_attr, Fantia._download_file.
  same_links_all.
Qed.

Lemma query_related_none a b (s : Store) s' :
  query_related a b s = (Ok None, s') ->
  {| Related.related_to_id := a; Related.remote_id := b |} ∉ related s.
Proof.
  unfold query_related. intros H Hin.
  apply list_elem_of_lookup_1 in Hin as (i & Hi).
  assert ((i, {| Related.related_to_id := a; Related.remote_id := b |})
            ∈ select (fun r => bool_decide (Related.related_to_id r = a)
                               && bool_decide (Related.remote_id r = b))
                     (related s)) as Hsel.
  { apply elem_of_select. split; [exact Hi|]. simpl.
    rewrite !bool_decide_eq_true_2 by reflexivity. reflexivity. }
  destruct (select _ (related s)) as [|[i1 r1] [|ir2 rows]];
    simpl in H; [|discriminate H|discriminate H].
  inversion Hsel.
Qed.

(** A step for an item whose post is already linked adds no link. *)
Lemma content_step_relinks post h0 preview acc content s hc r s' :
  (visible content = true -> materialised W post s content hc /\ linked s h0 hc) ->
  Fantia.content_step W post h0 preview acc content s = (r, s') ->
  same_links s s'.
Proof.
  unfold Fantia.content_step, visible. intros Hm H.
  destruct (String.eqb (Content.visible_status content) "visible");
    [|inversion H; subst; reflexivity].
  destruct (Hm eq_refl) as [Hmat Hlinked]. clear Hm.
  apply bind_inv in H as [(hc' & s1 & H1 & H)|(ex & H1 & _)];
    [|eapply same_links_content_to_post; exact H1].
  pose proof (same_links_content_to_post _ _ _ _ _ _ _ H1) as Hl1.
  pose proof (conserves_content_to_post W _ _ _ _ _ _ _ H1) as Hc1.
  destruct (content_to_post_again W _ _ preview _ _ Hmat _ _ H1) as [_ Hsame].
  specialize (Hsame _ eq_refl). subst hc'.
  apply (linked_conserves _ _ _ _ Hc1) in Hlinked as (p0 & c0 & Hp0 & Hc0 & Hrow).
  cbv zeta in H.
  apply bind_inv in H as [(u & s2 & H2 & H)|(ex & H2 & _)]; [|discriminate H2].
  assert (s2 = s1) as -> by (inversion H2; reflexivity). clear H2.
  unfold same_links in *. rewrite <- Hl1.
  apply bind_inv in H as [(p & s3 & H3 & H)|(ex & H3 & _)];
    [|apply same_links_get_post in H3; exact H3].
  apply get_post_inv in H3 as [-> Hp].
  apply bind_inv in H as [(c & s4 & H4 & H)|(ex & H4 & _)];
    [|apply same_links_get_post in H4; exact H4].
  apply get_post_inv in H4 as [-> Hc].
  assert (p = p0) as -> by congruence. assert (c = c0) as -> by congruence.
  apply bind_inv in H as [(rel & s5 & H5 & H)|(ex & H5 & _)];
    [|apply same_links_query_related in H5; exact H5].
  destruct rel as [i|].
  - apply one_or_none_state in H5. subst s5. inversion H; subst. reflexivity.
  - exfalso. eapply query_related_none; eassumption.
Qed.

Lemma content_steps_relinks post h0 preview contents :
  forall acc s hs r s',
    Forall2 (fun content hc => materialised W post s content hc /\ linked s h0 hc)
            (List.filter visible contents) hs ->
    foldM (Fantia.content_step W post h0 preview) contents acc s = (r, s') ->
    same_links s s'.
Proof.
  induction contents as [|c contents IH]; intros acc s hs r s' Hall H; simpl in *.
  - inversion H; subst. reflexivity.
  - assert (exists hc hs',
              (visible c = true -> materialised W post s c hc /\ linked s h0 hc) /\
              Forall2 (fun content hc => materialised W post s content hc /\
                                         linked s h0 hc)
                      (List.filter visible contents) hs') as (hc & hs' & Hc & Hall').
    { destruct (visible c).
      - inversion Hall; subst. eauto.
      - exists 0%nat, hs. split; [discriminate|exact Hall]. }
    apply bind_inv in H as [(acc1 & s1 & H1 & H)|(ex & H1 & _)];
      [|eapply content_step_relinks; eassumption].
    pose proof (content_step_relinks _ _ _ _ _ _ _ _ _ Hc H1) as Hl1.
    pose proof (conserves_content_step W _ _ _ _ _ _ _ _ H1) as Hc1.
    pose proof (extends_content_step W _ _ _ _ _ _ _ _ H1) as He1.
    etransitivity; [exact Hl1|].
    eapply (IH _ _ hs'); [|exact H].
    eapply Forall2_impl; [exact Hall'|].
    intros content h [Hm Hl]. split.
    + eapply materialised_extends; eassumption.
    + eapply linked_conserves; eassumption.
Qed.

(** X23. Normalizing again a record that has been normalized adds no
    link: whether the second run completes or not, the [Related] rows
    of the session are those the first run left. *)
Theorem second_normalization_adds_no_link (post : Post.t) (preview preview' : bool)
    (st : Store) (posts : list nat) (st1 : Store) r (st2 : Store) :
  Fantia._to_remote_posts W post None preview st = (Ok posts, st1) ->
  Fantia._to_remote_posts W post None preview' st1 = (r, st2) ->
  related st2 = related st1.
Proof.
  intros H1 H2.
  destruct (to_remote_posts_recorded _ _ _ _ _ _ H1) as (h0 & hs & -> & Hp & Ho & Hall).
  assert (Forall2 (fun content hc => materialised W post st1 content hc /\
                                     linked st1 h0 hc)
                  (List.filter visible (Post.post_contents post)) hs) as Hboth.
  { clear H2. unfold Fantia._to_remote_posts in H1.
    ok_bind H1 as post_time s1 Ha. ok_bind H1 as u s2 Hb.
    ok_bind H1 as returned s3 Hc. inversion Hc; subst.
    ok_bind H1 as h s4 Hd. ok_bind H1 as u' s5 He.
    apply content_steps_links in H1 as (hs' & Heq & Hlinks).
    simpl in Heq. inversion Heq; subst h hs'.
    clear - Hall Hlinks.
    induction Hall as [|content hc items hs Hm Hall IH]; [constructor|].
    inversion Hlinks; subst. constructor; [split; assumption | apply IH; assumption]. }
  change (same_links st1 st2).
  unfold Fantia._to_remote_posts in H2.
  apply bind_inv in H2 as [(post_time & s1 & Ha & H2)|(ex & Ha & _)].
  2:{ unfold Fantia.post_time_of in Ha.
      destruct (parse_time W (Post.posted_at post)); inversion Ha; subst; reflexivity. }
  assert (s1 = st1) as ->.
  { unfold Fantia.post_time_of in Ha.
    destruct (parse_time W (Post.posted_at post)); inversion Ha; subst; reflexivity. }
  apply bind_inv in H2 as [(u & s2 & Hb & H2)|(ex & Hb & _)]; [|discriminate Hb].
  pose proof (same_links_log _ _ _ _ _ Hb) as Hl2.
  pose proof (conserves_log _ _ _ _ _ Hb) as Hc2.
  pose proof (keeps_log _ _ _ _ _ Hb) as Hs2. apply stable_extends in Hs2.
  apply bind_inv in H2 as [(returned & s3 & Hc & H2)|(ex & Hc & _)]; [|discriminate Hc].
  inversion Hc; subst returned s3. clear Hc.
  etransitivity; [exact Hl2|].
  apply bind_inv in H2 as [(h & s4 & Hd & H2)|(ex & Hd & _)];
    [|eapply same_links_find_or_create_collection_post; exact Hd].
  pose proof (same_links_find_or_create_collection_post _ _ _ _ _ Hd) as Hl4.
  pose proof (conserves_find_or_create_collection_post _ _ _ _ _ Hd) as Hc4.
  pose proof (extends_find_or_create_collection_post _ _ _ _ _ Hd) as He4.
  assert (is_post s2 h0 (pretty (Post.id post))) as Hp2
    by (eapply is_post_extends; eassumption).
  destruct (find_or_create_collection_post_again _ _ _ _ Hp2 _ _ Hd) as [_ Hh].
  specialize (Hh _ eq_refl). subst h.
  etransitivity; [exact Hl4|].
  apply bind_inv in H2 as [(u' & s5 & He & H2)|(ex & He & _)];
    [|eapply same_links_collection_thumbnail; exact He].
  pose proof (same_links_collection_thumbnail _ _ _ _ _ _ He) as Hl5.
  pose proof (conserves_collection_thumbnail W _ _ _ _ _ _ He) as Hc5.
  pose proof (extends_collection_thumbnail W _ _ _ _ _ _ He) as He5.
  etransitivity; [exact Hl5|].
  eapply (content_steps_relinks _ _ _ _ _ _ hs); [|exact H2].
  eapply Forall2_impl; [exact Hboth|].
  intros content hc [Hm Hl]. split.
  - eapply materialised_extends; [|exact Hm].
    etransitivity; [exact Hs2|]. etransitivity; eassumption.
  - eapply linked_conserves; [|exact Hl].
    etransitivity; [exact Hc2|]. etransitivity; eassumption.
Qed.

End Relinking.

(** X23, witness: the sample record 123 normalized twice. *)
Lemma second_normalization_adds_no_link_witness :
  Fantia._to_remote_posts Sample.world Sample.post123 None false Sample.empty_store
    = (Ok [0; 1; 2; 3]%nat, Sample.store123) /\
  related (Fantia._to_remote_posts Sample.world Sample.post123 None true
             Sample.store123).2
    = related Sample.store123.
Proof.
  assert (Fantia._to_remote_posts Sample.world Sample.post123 None false Sample.empty_store
            = (Ok [0; 1; 2; 3]%nat, Sample.store123)) as H1
    by (vm_compute; reflexivity).
  split; [exact H1|].
  exact (second_normalization_adds_no_link Sample.world Sample.post123 false true
           Sample.empty_store [0; 1; 2; 3]%nat Sample.store123 _ _ H1
           (surjective_pairing _)).
Defined.

(** *** The tags of a new post *)

Section Tags.
Import Normalizer Ledger.

Lemma tag_is_grow s s' category h name :
  tags_grow s s' -> tag_is s category h name -> tag_is s' category h name.
Proof. intros Hg (g & Hh & Hc & Hn). exists g. auto. Qed.

Lemma get_remote_tag_spec category name (s : Store) r s' :
  get_remote_tag category name s = (r, s') ->
  tags_grow s s' /\ exists h, r = Ok h /\ tag_is s' category h name.
Proof.
  unfold get_remote_tag. intros H.
  destruct (select _ (remote_tags s)) as [|[h g] rest] eqn:Hsel; inversion H; subst.
  - split.
    + intros h g Hh. simpl. rewrite lookup_app_l; [exact Hh|].
      eapply lookup_lt_Some. exact Hh.
    + eexists. split; [reflexivity|]. eexists. simpl.
      split; [apply list_lookup_middle; reflexivity|]. split; reflexivity.
  - split; [intros h' g' Hh; exact Hh|].
    exists h. split; [reflexivity|].
    assert ((h, g) ∈ select (fun g0 => bool_decide (RemoteTag.category g0 = category)
                                       && String.eqb (RemoteTag.name g0) name)
                            (remote_tags s')) as Hin
      by (rewrite Hsel; apply list_elem_of_here).
    apply elem_of_select in Hin as [Hl Hp].
    apply andb_true_iff in Hp as [Hc Hn].
    apply bool_decide_eq_true in Hc. apply String.eqb_eq in Hn.
    exists g. auto.
Qed.

Lemma general_tags_spec (append : nat -> RemotePost.t -> RemotePost.t) names :
  (forall t p, RemotePost.tags (append t p) = RemotePost.tags p ++ [t]) ->
  forall p0 (s0 : Store) q s',
    foldM (fun p name =>
             remote_tag <- get_remote_tag TagCategory.general name ;;
             ret (append remote_tag p)) names p0 s0 = (Ok q, s') ->
    tags_grow s0 s' /\
    exists hs, RemotePost.tags q = RemotePost.tags p0 ++ hs /\
               Forall2 (tag_is s' TagCategory.general) hs names.
Proof.
  intros Happ. induction names as [|name names IH]; intros p0 s0 q s' H; simpl in H.
  - inversion H; subst. split; [intros h g Hh; exact Hh|].
    exists []. rewrite app_nil_r. split; [reflexivity|constructor].
  - ok_bind H as p1 s1 H1. ok_bind H1 as t s2 H2. inversion H1; subst.
    apply get_remote_tag_spec in H2 as (Hg1 & h & Hh & Ht). inversion Hh; subst t.
    destruct (IH _ _ _ _ H) as (Hg2 & hs & Htags & Hall).
    split; [intros h' g' Hh'; apply Hg2, Hg1, Hh'|].
    exists (h :: hs). rewrite Htags, Happ, <- app_assoc. split; [reflexivity|].
    constructor; [eapply tag_is_grow; eassumption | exact Hall].
Qed.

(** X24. The tags of a post the plugin creates, in order: the artist
    tag named by the id of the creator, whose stored display name is
    then the creator's current name; the general tag of each tag of
    the record; and, for a record rated adult, the meta tag nsfw.
    Each is the tag of that category and name in the session. *)
Theorem tags_of_new_post (post : Post.t) (p : RemotePost.t) (st : Store)
    (p' : RemotePost.t) (st' : Store) :
  Fantia.attach_tags post p st = (Ok p', st') ->
  exists creator general nsfw,
    RemotePost.tags p' = RemotePost.tags p ++ creator :: general ++ nsfw /\
    (exists g, remote_tags st' !! creator = Some g /\
               RemoteTag.category g = TagCategory.artist /\
               RemoteTag.name g = pretty (Post.fanclub_id post) /\
               RemoteTag.metadata_name g = Some (Post.fanclub_user_name post)) /\
    Forall2 (tag_is st' TagCategory.general) general (Post.tags post) /\
    (if String.eqb (Post.rating post) "adult"
     then exists h, nsfw = [h] /\ tag_is st' TagCategory.meta h "nsfw"
     else nsfw = []).
Proof.
  unfold Fantia.attach_tags. cbv zeta. intros H.
  ok_bind H as creator s1 H1.
  apply get_remote_tag_spec in H1 as (_ & h & Hh & (g & Hg & Hcat & Hname)).
  inversion Hh; subst h. clear Hh.
  ok_bind H as metadata s2 H2.
  assert (s2 = s1 /\ metadata = g) as [-> ->].
  { unfold get_tag in H2. rewrite Hg in H2. inversion H2; auto. }
  clear H2.
  ok_bind H as u s3 H3.
  assert (exists g3, remote_tags s3 !! creator = Some g3 /\
                     RemoteTag.category g3 = TagCategory.artist /\
                     RemoteTag.name g3 = pretty (Post.fanclub_id post) /\
                     RemoteTag.metadata_name g3 = Some (Post.fanclub_user_name post))
    as (g3 & Hg3 & Hcat3 & Hname3 & Hmeta3).
  { destruct (bool_decide (RemoteTag.metadata_name g = Some (Post.fanclub_user_name post)))
      eqn:Hsame.
    - inversion H3; subst. apply bool_decide_eq_true in Hsame. eauto.
    - inversion H3; subst. simpl.
      exists (RemoteTag.set_metadata_name (Some (Post.fanclub_user_name post)) g).
      rewrite list_lookup_alter_eq, Hg. auto. }
  clear H3.
  ok_bind H as q s4 H4.
  apply general_tags_spec in H4 as (Hg4 & general & Htags & Hall);
    [|intros; reflexivity].
  simpl in Htags. exists creator, general.
  destruct (String.eqb (Post.rating post) "adult").
  - ok_bind H as nsfw s5 H5. inversion H; subst.
    apply get_remote_tag_spec in H5 as (Hg5 & h & Hh & Hnsfw). inversion Hh; subst h.
    exists [nsfw]. simpl. rewrite Htags, <- !app_assoc. split; [reflexivity|].
    split; [exists g3; auto|].
    split; [|eauto].
    eapply Forall2_impl; [exact Hall|]. intros h name. apply tag_is_grow, Hg5.
  - inversion H; subst. exists []. rewrite app_nil_r, Htags, <- app_assoc.
    split; [reflexivity|]. split; [exists g3; auto|]. split; [exact Hall|reflexivity].
Qed.

End Tags.

(** X24, witness: the tags of a post made for record 123 of the
    sample, which has two tags and is rated adult. *)
Lemma tags_of_new_post_witness :
  let p := Fantia.new_remote_post 1 "123" "https://fantia.jp/posts/123" "Title"
             "Comment" 0 None false in
  let p' := {| RemotePost.id := PyNone; RemotePost.source_id := 1;
               RemotePost.original_id := "123";
               RemotePost.url := "https://fantia.jp/posts/123";
               RemotePost.title := "Title"; RemotePost.comment := Plain "Comment";
               RemotePost.type := PostType.collection; RemotePost.post_time := 0;
               RemotePost.metadata_ := None; RemotePost.favorite := false;
               RemotePost.tags := [0; 1; 2; 3]%nat |} in
  let out := Fantia.attach_tags Sample.post123 p Sample.empty_store in
  out.1 = Ok p' /\
  exists creator general nsfw,
    RemotePost.tags p' = RemotePost.tags p ++ creator :: general ++ nsfw /\
    (exists g, remote_tags out.2 !! creator = Some g /\
               RemoteTag.category g = TagCategory.artist /\
               RemoteTag.name g = pretty (Post.fanclub_id Sample.post123) /\
               RemoteTag.metadata_name g = Some (Post.fanclub_user_name Sample.post123)) /\
    Forall2 (Ledger.tag_is out.2 TagCategory.general) general (Post.tags Sample.post123) /\
    (if String.eqb (Post.rating Sample.post123) "adult"
     then exists h, nsfw = [h] /\ Ledger.tag_is out.2 TagCategory.meta h "nsfw"
     else nsfw = []).
Proof.
  intros p p' out.
  assert (Hrun : Fantia.attach_tags Sample.post123 p Sample.empty_store = (Ok p', out.2))
    by (vm_compute; reflexivity).
  split; [vm_compute; reflexivity|].
  exact (tags_of_new_post Sample.post123 p Sample.empty_store p' out.2 Hrun).
Defined.

(** *** The version of the source *)

Section SourceVersion.
Import Plugin.

(** X25. [update] never lowers the version of a source and never
    touches its configuration: the version it leaves is the larger of
    the stored one and the plugin's, the source is handed to the
    session exactly when its version was lower, and a second [update]
    changes nothing. *)
Theorem update_is_idempotent (source : Source.t) :
  let out := update source in
  Source.version out.1 = Z.max (Source.version source) version /\
  Source.config out.1 = Source.config source /\
  (out.2 = true <-> (Source.version source < version)%Z) /\
  update out.1 = (out.1, false).
Proof.
  unfold update. destruct (Z.ltb_spec (Source.version source) version) as [Hlt|Hge];
    simpl.
  - rewrite Z.max_r by lia. repeat split; auto.
  - rewrite Z.max_l by lia. split; [reflexivity|]. split; [reflexivity|].
    split; [split; [discriminate | lia]|].
    destruct (Z.ltb_spec (Source.version source) version); [lia|reflexivity].
Qed.

End SourceVersion.
